(** * Bulk-mutation engine of the Cassandra binding

    A shallow embedding of [src/bindings/databases/cassandra_db.py]:
    the retrying batch workers, the page-then-batch decomposition, the
    multi-table delete orchestrator and the insert report.

    Conventions of the embedding.
    - Python integers are [Z]; lengths ([len]) are [nat].
    - Python floats (delays, elapsed time, rates) are exact rationals [Q].
    - A record (a Python [dict] of column name to value) is the list of
      its items in insertion order, no column twice, as are the
      dictionaries whose iteration order the code relies on
      ([defaultdict(list)] filled in a loop, then iterated with
      [.items()]); the dictionaries the code only looks up are [gmap]s.
    - The database session is an oracle: a function telling, for every
      call the code can make, whether the call raises and with which text.
    - The order in which a thread pool completes its tasks is a parameter
      (a list of picks); every theorem quantifies over it. *)

From Stdlib Require Import ZArith QArith Lia.
From stdpp Require Import gmap strings list sorting fin_maps.

Local Open Scope Z_scope.

(** ** Python primitives used by the engine *)

Module Py.

(** Exceptions the modelled code can see. [DriverError] stands for any
    exception raised by the database driver. *)
Inductive exn :=
| ValueError (msg : string)
| DriverError (msg : string).

Inductive outcome (A : Type) :=
| Returned (a : A)
| Raised (e : exn).
Global Arguments Returned {A} a.
Global Arguments Raised {A} e.

Definition is_raised {A} (o : outcome A) : bool :=
  match o with Raised _ => true | Returned _ => false end.

(** [range(n)] *)
Definition range (n : Z) : list Z := Z.of_nat <$> seq 0 (Z.to_nat n).

(** Number of elements of [range(0, stop, step)] for [step <> 0]. *)
Definition range_count (stop step : Z) : nat :=
  if decide (0 < step) then Z.to_nat ((stop + step - 1) / step)
  else Z.to_nat ((- stop + - step - 1) / - step).

(** [range(0, stop, step)]; a zero step raises [ValueError]. *)
Definition range_step (stop step : Z) : outcome (list Z) :=
  if decide (step = 0) then Raised (ValueError "range() arg 3 must not be zero")
  else Returned ((λ k : nat, Z.of_nat k * step) <$> seq 0 (range_count stop step)).

(** [l[i:j]] for [0 <= i] and [0 <= j] (the only slices the code takes). *)
Definition slice {A} (l : list A) (i j : Z) : list A :=
  take (Z.to_nat j - Z.to_nat i)%nat (drop (Z.to_nat i) l).

(** A [dict] with string keys: its items in insertion order.  A Python
    dictionary holds no key twice ([is_dict]). *)
Definition dict (V : Type) : Type := list (string * V).

(** [d.keys()] *)
Definition keys {V} (d : dict V) : list string := d.*1.

Definition is_dict {V} (d : dict V) : Prop := NoDup (keys d).

(** [time.sleep(d)]: a negative duration raises [ValueError]. *)
Definition sleep (d : Q) : outcome unit :=
  if Qlt_le_dec d 0 then Raised (ValueError "sleep length must be non-negative")
  else Returned tt.

(** The delays [retry_delay * (first + 1), ..., retry_delay * (first + n)]
    of a linear backoff. *)
Definition delays (retry_delay : Q) (first : Z) (n : nat) : list Q :=
  (λ k : nat, retry_delay * inject_Z (first + Z.of_nat k + 1))%Q <$> seq 0 n.

(** [ThreadPoolExecutor(max_workers=n)]: the constructor raises
    [ValueError] unless [n > 0]. *)
Definition ThreadPoolExecutor (max_workers : Z) : outcome unit :=
  if decide (max_workers ≤ 0) then Raised (ValueError "max_workers must be greater than 0")
  else Returned tt.

(** [as_completed]: the futures of a pool complete in an order the code
    does not control.  [picks] chooses, at each step, which pending task
    completes next (index [p mod length pending]); when the picks run out
    the remaining tasks complete in submission order. *)
Fixpoint as_completed {A} (picks : list nat) (pending : list A) : list A :=
  match picks with
  | [] => pending
  | p :: picks' =>
      let i := (p mod length pending)%nat in
      match pending !! i with
      | Some x => x :: as_completed picks' (delete i pending)
      | None => pending
      end
  end.

(** [d[k].append(x)] on a [defaultdict(list)], kept in insertion order. *)
Fixpoint dict_append {K A} `{EqDecision K} (k : K) (x : A) (d : list (K * list A))
  : list (K * list A) :=
  match d with
  | [] => [(k, [x])]
  | (k', xs) :: rest =>
      if decide (k' = k) then (k', xs ++ [x]) :: rest
      else (k', xs) :: dict_append k x rest
  end.

(** [d.get(k, [])] on such a dictionary. *)
Fixpoint dict_get {K A} `{EqDecision K} (k : K) (d : list (K * list A)) : list A :=
  match d with
  | [] => []
  | (k', xs) :: rest => if decide (k' = k) then xs else dict_get k rest
  end.

(** The dictionary built by [for x in l: d[key(x)].append(x)]. *)
Definition grouped {K A} `{EqDecision K} (key : A → K) (l : list A) : list (K * list A) :=
  foldl (λ d x, dict_append (key x) x d) [] l.

(** Order on strings used by [sorted]. *)
Definition str_le (s1 s2 : string) : Prop := String.leb s1 s2 = true.

Global Instance str_le_dec : RelDecision str_le.
Proof. intros s1 s2. unfold str_le. apply _. Defined.

Lemma ascii_compare_lt_trans (a b c : Ascii.ascii) :
  Ascii.compare a b = Lt → Ascii.compare b c = Lt → Ascii.compare a c = Lt.
Proof.
  unfold Ascii.compare. rewrite !N.compare_lt_iff. apply N.lt_trans.
Qed.

Lemma string_compare_not_gt_trans (s1 s2 s3 : string) :
  String.compare s1 s2 ≠ Gt → String.compare s2 s3 ≠ Gt →
  String.compare s1 s3 ≠ Gt.
Proof.
  revert s2 s3. induction s1 as [|a s1 IH]; intros [|b s2] [|c s3]; simpl; try congruence.
  destruct (Ascii.compare a b) eqn:Hab; [| |congruence].
  - apply Ascii.compare_eq_iff in Hab as ->.
    destruct (Ascii.compare b c); [apply IH | congruence | congruence].
  - destruct (Ascii.compare b c) eqn:Hbc; [| |congruence].
    + apply Ascii.compare_eq_iff in Hbc as <-. rewrite Hab. congruence.
    + rewrite (ascii_compare_lt_trans _ _ _ Hab Hbc). congruence.
Qed.

Lemma str_le_not_gt (s1 s2 : string) : str_le s1 s2 ↔ String.compare s1 s2 ≠ Gt.
Proof.
  unfold str_le, String.leb. destruct (String.compare s1 s2); split; congruence.
Qed.

Global Instance str_le_trans : Transitive str_le.
Proof.
  intros s1 s2 s3. rewrite !str_le_not_gt. apply string_compare_not_gt_trans.
Qed.

Global Instance str_le_total : Total str_le.
Proof. intros s1 s2. apply String.leb_total. Qed.

Global Instance str_le_antisym : AntiSymm (=) str_le.
Proof. intros s1 s2. apply String.leb_antisym. Qed.

(** [sorted(l)] on a list of strings. *)
Definition sorted (l : list string) : list string := merge_sort str_le l.

Lemma sorted_perm (l : list string) : sorted l ≡ₚ l.
Proof. apply merge_sort_Permutation. Qed.

Lemma sorted_unique (l1 l2 : list string) : l1 ≡ₚ l2 → sorted l1 = sorted l2.
Proof.
  intros Hp. apply (Sorted_unique str_le).
  - apply Sorted_merge_sort, _.
  - apply Sorted_merge_sort, _.
  - by rewrite !sorted_perm.
Qed.

End Py.

Import Py.

(** ** Bulk insert: [batch_insert_dicts_to_cassandra] *)

Module Insert.

(** The text built at line 489: table, batch number, 1-based attempt
    number and [str(e)], kept as its four fields. *)
Record error_msg := ErrorMsg {
  err_table : string;
  err_batch : Z;
  err_attempt : Z;
  err_text : string
}.

(** One entry of [table_stats]. *)
Record table_stat := TableStat {
  successful : nat;
  failed : nat;
  batches : nat;
  errors : list error_msg
}.

(** The [defaultdict] factory of line 401. *)
Definition default_stat : table_stat := TableStat 0 0 0 [].

(** Values stored in the report dictionary. *)
Inductive pyvalue :=
| PyInt (n : Z)
| PyFloat (q : Q)
| PyTables (t : gmap string table_stat).

Section Engine.

Context {V : Type}.
Local Abbreviation record := (dict V).

(** One [session.execute(batch_stmt)] of the insert worker: the grouped
    write of the records of one column group. *)
Record grouped_write := GroupedWrite {
  gw_table : string;
  gw_batch : Z;
  gw_attempt : Z;
  gw_columns : list string;
  gw_records : list record
}.

(** What a worker does, in order: it enters an iteration of the retry
    loop, sends a grouped write, or sleeps. *)
Inductive event :=
| EvAttempt (attempt : Z)
| EvWrite (w : grouped_write)
| EvSleep (d : Q).

Record task := Task {
  task_table : string;
  task_data : list record;
  task_batch_num : Z
}.

(** The session: [None] when preparing the statement and executing the
    grouped write both succeed, [Some msg] when either raises. *)
Variable session_write : grouped_write → option string.

(** [tuple(sorted(record.keys()))] *)
Definition columns_key (r : record) : list string := sorted (keys r).

(** The set of column names of a record. *)
Definition column_set (r : record) : gset string := list_to_set (keys r).

(** Lines 452-455. *)
Definition columns_groups (batch_data : list record) : list (list string * list record) :=
  foldl (λ groups r, dict_append (columns_key r) r groups) [] batch_data.

(** Lines 458-483: one grouped write per column group, in order; the first
    one that raises ends the attempt. *)
Fixpoint run_groups (table_name : string) (batch_num attempt : Z)
    (groups : list (list string * list record)) : list event * option string :=
  match groups with
  | [] => ([], None)
  | (columns, group_records) :: rest =>
      let w := GroupedWrite table_name batch_num attempt columns group_records in
      match session_write w with
      | Some e => ([EvWrite w], Some e)
      | None =>
          let '(tr, r) := run_groups table_name batch_num attempt rest in
          (EvWrite w :: tr, r)
      end
  end.

Record locals := Locals {
  local_successful : nat;
  local_failed : nat;
  local_errors : list error_msg
}.

(** Lines 449-498: the body of [for attempt in range(max_retries)]. *)
Fixpoint retry_loop (retry_delay : Q) (max_retries : Z) (table_name : string)
    (batch_data : list record) (batch_num : Z) (attempts : list Z) (st : locals)
  : list event * outcome locals :=
  match attempts with
  | [] => ([], Returned st)
  | attempt :: rest =>
      let '(writes, r) :=
        run_groups table_name batch_num attempt (columns_groups batch_data) in
      let tr := EvAttempt attempt :: writes in
      match r with
      | None =>
          (tr, Returned (Locals (length batch_data) (local_failed st) (local_errors st)))
      | Some e =>
          let error_msg := ErrorMsg table_name batch_num (attempt + 1) e in
          let st := Locals (local_successful st) (local_failed st)
                           (local_errors st ++ [error_msg]) in
          if decide (attempt = max_retries - 1) then
            let st := Locals (local_successful st) (length batch_data) (local_errors st) in
            let '(tr', r') :=
              retry_loop retry_delay max_retries table_name batch_data batch_num rest st in
            (tr ++ tr', r')
          else
            let d := (retry_delay * inject_Z (attempt + 1))%Q in
            match sleep d with
            | Raised x => (tr, Raised x)
            | Returned _ =>
                let '(tr', r') :=
                  retry_loop retry_delay max_retries table_name batch_data batch_num rest st in
                (tr ++ EvSleep d :: tr', r')
            end
      end
  end.

(** Lines 439-500. *)
Definition execute_table_batch (retry_delay : Q) (max_retries : Z)
    (table_name : string) (batch_data : list record) (batch_num : Z)
  : list event * outcome (string * nat * nat * list error_msg) :=
  let '(tr, r) :=
    retry_loop retry_delay max_retries table_name batch_data batch_num
               (range max_retries) (Locals 0 0 []) in
  (tr, match r with
       | Returned st =>
           Returned (table_name, local_successful st, local_failed st, local_errors st)
       | Raised x => Raised x
       end).

(** Outcome of iteration [attempt] of the retry loop on a batch: [None]
    when every grouped write of the iteration succeeds, otherwise the
    text of the exception that ends it. *)
Definition attempt_result (table_name : string) (batch_data : list record)
    (batch_num attempt : Z) : option string :=
  (run_groups table_name batch_num attempt (columns_groups batch_data)).2.

(** The grouped writes of one iteration when none of them raises: one
    per column group, in the order of the groups. *)
Definition group_writes (table_name : string) (batch_num attempt : Z)
    (groups : list (list string * list record)) : list grouped_write :=
  (λ kg, GroupedWrite table_name batch_num attempt kg.1 kg.2) <$> groups.

Definition attempt_error (table_name : string) (batch_data : list record)
    (batch_num attempt : Z) : string :=
  default "" (attempt_result table_name batch_data batch_num attempt).

(** The grouped writes the session receives of [ws], sent in order until
    one raises: up to and including the first one it rejects. *)
Fixpoint sent_writes (ws : list grouped_write) : list grouped_write :=
  match ws with
  | [] => []
  | w :: ws' =>
      w :: match session_write w with
           | Some _ => []
           | None => sent_writes ws'
           end
  end.

(** Projections of a worker trace: the iterations entered, the sleeps,
    and both in order (the trace without its writes). *)
Definition attempts_of (tr : list event) : list Z :=
  omap (λ e, match e with EvAttempt a => Some a | _ => None end) tr.

Definition sleeps_of (tr : list event) : list Q :=
  omap (λ e, match e with EvSleep d => Some d | _ => None end) tr.

Definition writes_of (tr : list event) : list grouped_write :=
  omap (λ e, match e with EvWrite w => Some w | _ => None end) tr.

Definition pacing (tr : list event) : list event :=
  omap (λ e, match e with EvWrite _ => None | _ => Some e end) tr.

(** Linear backoff: [remaining] iterations starting at [attempt], with a
    sleep of [retry_delay * (attempt + 1)] after every iteration but the
    last. *)
Fixpoint linear_backoff (retry_delay : Q) (attempt : Z) (remaining : nat) : list event :=
  match remaining with
  | 0%nat => []
  | S n =>
      EvAttempt attempt ::
      match n with
      | 0%nat => []
      | S _ =>
          EvSleep (retry_delay * inject_Z (attempt + 1))%Q ::
          linear_backoff retry_delay (attempt + 1) n
      end
  end.

(** Lines 412-413. *)
Definition group_by_table (records : list (string * record)) : list (string * list record) :=
  foldl (λ tables_data tr, dict_append tr.1 tr.2 tables_data) [] records.

(** Lines 505-508 for one table. *)
Definition table_tasks (batch_size : Z) (table_name : string) (table_data : list record)
  : outcome (list task) :=
  match range_step (Z.of_nat (length table_data)) batch_size with
  | Raised x => Raised x
  | Returned starts =>
      Returned ((λ i, Task table_name (slice table_data i (i + batch_size))
                           (i / batch_size + 1)) <$> starts)
  end.

(** Lines 503-508. *)
Fixpoint create_tasks (batch_size : Z) (tables_data : list (string * list record))
  : outcome (list task) :=
  match tables_data with
  | [] => Returned []
  | (table_name, table_data) :: rest =>
      match table_tasks batch_size table_name table_data with
      | Raised x => Raised x
      | Returned ts =>
          match create_tasks batch_size rest with
          | Raised x => Raised x
          | Returned ts' => Returned (ts ++ ts')
          end
      end
  end.

(** [table_stats[t]] on the [defaultdict]. *)
Definition stat_of (table_stats : gmap string table_stat) (t : string) : table_stat :=
  default default_stat (table_stats !! t).

(** Lines 526-551: what the collecting loop does with one completed
    future. *)
Definition collect (table_stats : gmap string table_stat) (tk : task)
    (res : outcome (string * nat * nat * list error_msg)) : gmap string table_stat :=
  match res with
  | Returned (table_name, s, f, errs) =>
      let st := stat_of table_stats table_name in
      <[table_name := TableStat (successful st + s) (failed st + f) (batches st + 1)
                                (errors st ++ errs)]> table_stats
  | Raised _ =>
      let st := stat_of table_stats (task_table tk) in
      <[task_table tk := TableStat (successful st) (failed st + length (task_data tk))
                                   (batches st) (errors st)]> table_stats
  end.

(** Lines 523-551 over the futures in completion order. *)
Definition run_tasks (retry_delay : Q) (max_retries : Z) (completed : list task)
  : gmap string table_stat :=
  foldl (λ table_stats tk,
           collect table_stats tk
             (execute_table_batch retry_delay max_retries
                (task_table tk) (task_data tk) (task_batch_num tk)).2)
        ∅ completed.

(** What one task contributes to the statistics of its table when its
    future is collected: the counts and errors its worker returns, or,
    when the worker raises, the size of its batch as failed (line 551). *)
Definition task_result (retry_delay : Q) (max_retries : Z) (tk : task)
  : outcome (string * nat * nat * list error_msg) :=
  (execute_table_batch retry_delay max_retries
     (task_table tk) (task_data tk) (task_batch_num tk)).2.

Definition task_successful (retry_delay : Q) (max_retries : Z) (tk : task) : nat :=
  match task_result retry_delay max_retries tk with
  | Returned (_, s, _, _) => s
  | Raised _ => 0
  end.

Definition task_failed (retry_delay : Q) (max_retries : Z) (tk : task) : nat :=
  match task_result retry_delay max_retries tk with
  | Returned (_, _, f, _) => f
  | Raised _ => length (task_data tk)
  end.

Definition task_batches (retry_delay : Q) (max_retries : Z) (tk : task) : nat :=
  match task_result retry_delay max_retries tk with
  | Returned _ => 1
  | Raised _ => 0
  end.

Definition task_errors (retry_delay : Q) (max_retries : Z) (tk : task) : list error_msg :=
  match task_result retry_delay max_retries tk with
  | Returned (_, _, _, errs) => errs
  | Raised _ => []
  end.

(** The worker of a task exhausts its retries with [e]: it enters the
    last iteration of its loop, [max_retries - 1], and that iteration
    fails with [e]. *)
Definition exhausts_retries (retry_delay : Q) (max_retries : Z) (tk : task) (e : string)
  : Prop :=
  max_retries - 1
    ∈ attempts_of (execute_table_batch retry_delay max_retries
                     (task_table tk) (task_data tk) (task_batch_num tk)).1 ∧
  attempt_result (task_table tk) (task_data tk) (task_batch_num tk) (max_retries - 1)
  = Some e.

(** The session rejects every grouped write of the batch of a task,
    whatever the attempt and the column group; or accepts every one. *)
Definition rejects_batch (tk : task) : Prop :=
  ∀ w, gw_table w = task_table tk → gw_batch w = task_batch_num tk →
       is_Some (session_write w).

Definition accepts_batch (tk : task) : Prop :=
  ∀ w, gw_table w = task_table tk → gw_batch w = task_batch_num tk →
       session_write w = None.

(** The tasks of one table. *)
Definition tasks_of (t : string) (tasks : list task) : list task :=
  filter (λ tk, task_table tk = t) tasks.

(** [sum(stats[field] for stats in table_stats.values())] *)
Definition sum_stats (field : table_stat → nat) (table_stats : gmap string table_stat) : nat :=
  map_fold (λ _ st acc, field st + acc)%nat 0%nat table_stats.

(** Line 566. *)
Definition success_rate (total_successful total_records : nat) : pyvalue :=
  if decide (0 < total_records)%nat then
    PyFloat (inject_Z (Z.of_nat total_successful) / inject_Z (Z.of_nat total_records)
             * inject_Z 100)%Q
  else PyInt 0.

(** Line 568. *)
Definition records_per_second (total_successful : nat) (execution_time : Q) : pyvalue :=
  if Qlt_le_dec 0 execution_time then
    PyFloat (inject_Z (Z.of_nat total_successful) / execution_time)%Q
  else PyInt 0.

(** Line 396. *)
Definition empty_report : gmap string pyvalue :=
  {[ "total_records" := PyInt 0; "tables" := PyTables ∅; "execution_time" := PyInt 0 ]}.

(** Lines 562-570. *)
Definition final_stats (total_records : nat) (table_stats : gmap string table_stat)
    (execution_time : Q) : gmap string pyvalue :=
  let total_successful := sum_stats successful table_stats in
  let total_failed := sum_stats failed table_stats in
  {[ "total_records" := PyInt (Z.of_nat total_records);
     "total_successful" := PyInt (Z.of_nat total_successful);
     "total_failed" := PyInt (Z.of_nat total_failed);
     "success_rate" := success_rate total_successful total_records;
     "execution_time" := PyFloat execution_time;
     "records_per_second" := records_per_second total_successful execution_time;
     "tables" := PyTables table_stats ]}.

(** The completion order of the pool and the time measured by the clock
    between lines 399 and 558. *)
Variable picks : list nat.
Variable execution_time : Q.

(** Lines 369-586.  An exception inside the [try] of line 410 is logged
    and re-raised (lines 553-555). *)
Definition batch_insert_dicts_to_cassandra (records : list (string * record))
    (batch_size concurrency : Z) (retry_delay : Q) (max_retries : Z)
  : outcome (gmap string pyvalue) :=
  match records with
  | [] => Returned empty_report
  | _ :: _ =>
      let total_records := length records in
      let tables_data := group_by_table records in
      match create_tasks batch_size tables_data with
      | Raised x => Raised x
      | Returned all_tasks =>
          match ThreadPoolExecutor concurrency with
          | Raised x => Raised x
          | Returned _ =>
              let table_stats :=
                run_tasks retry_delay max_retries (as_completed picks all_tasks) in
              Returned (final_stats total_records table_stats execution_time)
          end
      end
  end.

(** Lines 588-594: the adapter for one table. *)
Definition insert_dict_to_cassandra_batch (table_name : string) (data_dicts : list record)
    (batch_size concurrency : Z) (retry_delay : Q) (max_retries : Z)
  : outcome (gmap string pyvalue) :=
  let records := (λ data_dict, (table_name, data_dict)) <$> data_dicts in
  batch_insert_dicts_to_cassandra records batch_size concurrency retry_delay max_retries.

End Engine.

End Insert.

(** ** Bulk delete: [delete_all_rows] and [delete_all_rows_batch_multiple] *)

Module Delete.

(** Primary-key columns of a table in the cluster metadata. *)
Record table_metadata := TableMetadata {
  partition_key : list string;
  clustering_key : list string
}.

(** The f-string of line 686: table, page number, batch index. *)
Record batch_id := BatchId {
  bid_table : string;
  bid_page : Z;
  bid_index : Z
}.

(** The keyword arguments [clear_tables] passes on: each one given or
    not. *)
Record delete_kwargs := DeleteKwargs {
  kw_page_size : option Z;
  kw_batch_size : option Z;
  kw_concurrency : option Z;
  kw_retry_delay : option Q;
  kw_max_retries : option Z
}.

(** The report of [clear_tables] (lines 764-769). *)
Record clear_report := ClearReport {
  report_execution_time : Q;
  total_deleted : nat;
  tables_processed : nat;
  results_by_table : gmap string nat
}.

(** The warning of line 616. *)
Inductive log_record :=
| WarnTableNotFound (table_name keyspace : string).

Section Engine.

Context {R : Type}.

(** A paged read.  [session.execute(statement)] either raises or yields
    a result set with its [current_rows]; [has_more_pages] is false on a
    [LastPage] and true on [MorePages], whose [next] is what the
    [session.execute] with the paging state does. *)
Inductive fetch :=
| FetchRaises (msg : string)
| LastPage (current_rows : list R)
| MorePages (current_rows : list R) (next : fetch).

(** One [session.execute(batch_stmt)] of the delete worker. *)
Record grouped_delete := GroupedDelete {
  gd_batch : batch_id;
  gd_attempt : Z;
  gd_rows : list R
}.

(** What the workers do, in order: a batch worker enters an iteration
    of its retry loop, sends a grouped delete, or sleeps; the single-table
    path submits a one-row delete. *)
Inductive event :=
| EvAttempt (attempt : Z)
| EvDelete (w : grouped_delete)
| EvDeleteAsync (row : R) (attempt : Z)
| EvSleep (d : Q).

(** The cluster and the session: each oracle answers [None] when the call
    succeeds and [Some msg] when it raises. *)
Variable keyspace : string.
Variable keyspace_tables : gmap string table_metadata.
Variable session_prepare : string → list string → option string.
Variable session_select : string → fetch.
Variable session_delete : grouped_delete → option string.
Variable session_execute_async : R → Z → option string.

(** Completion orders: of the tables in the outer pool, and of the
    batches of each page of each table in the inner pools. *)
Variable table_picks : list nat.
Variable batch_picks : string → Z → list nat.

(** Lines 653-670. *)
Fixpoint delete_retry_loop (retry_delay : Q) (max_retries : Z) (rows_batch : list R)
    (batch_num : batch_id) (attempts : list Z) : list event * outcome (nat * nat) :=
  match attempts with
  | [] => ([], Returned (0, length rows_batch)%nat)
  | attempt :: rest =>
      let w := GroupedDelete batch_num attempt rows_batch in
      match session_delete w with
      | None => ([EvAttempt attempt; EvDelete w], Returned (length rows_batch, 0)%nat)
      | Some _ =>
          if decide (attempt = max_retries - 1) then
            ([EvAttempt attempt; EvDelete w], Returned (0, length rows_batch)%nat)
          else
            let d := (retry_delay * inject_Z (attempt + 1))%Q in
            match sleep d with
            | Raised x => ([EvAttempt attempt; EvDelete w], Raised x)
            | Returned _ =>
                let '(tr, r) :=
                  delete_retry_loop retry_delay max_retries rows_batch batch_num rest in
                (EvAttempt attempt :: EvDelete w :: EvSleep d :: tr, r)
            end
      end
  end.

(** Lines 651-670. *)
Definition execute_delete_batch (retry_delay : Q) (max_retries : Z)
    (rows_batch : list R) (batch_num : batch_id) : list event * outcome (nat * nat) :=
  delete_retry_loop retry_delay max_retries rows_batch batch_num (range max_retries).

(** Outcome of iteration [attempt] of the retry loop on a batch. *)
Definition attempt_result (rows_batch : list R) (batch_num : batch_id) (attempt : Z)
  : option string :=
  session_delete (GroupedDelete batch_num attempt rows_batch).

(** Projections of a worker trace, and the linear backoff. *)
Definition attempts_of (tr : list event) : list Z :=
  omap (λ e, match e with EvAttempt a => Some a | _ => None end) tr.

Definition sleeps_of (tr : list event) : list Q :=
  omap (λ e, match e with EvSleep d => Some d | _ => None end) tr.

Definition deletes_of (tr : list event) : list grouped_delete :=
  omap (λ e, match e with EvDelete w => Some w | _ => None end) tr.

Definition pacing (tr : list event) : list event :=
  omap (λ e, match e with EvDelete _ | EvDeleteAsync _ _ => None | _ => Some e end) tr.

Fixpoint linear_backoff (retry_delay : Q) (attempt : Z) (remaining : nat) : list event :=
  match remaining with
  | 0%nat => []
  | S n =>
      EvAttempt attempt ::
      match n with
      | 0%nat => []
      | S _ =>
          EvSleep (retry_delay * inject_Z (attempt + 1))%Q ::
          linear_backoff retry_delay (attempt + 1) n
      end
  end.

(** Lines 683-687. *)
Definition page_batches (table_name : string) (page_num batch_size : Z) (rows : list R)
  : outcome (list (list R * batch_id)) :=
  match range_step (Z.of_nat (length rows)) batch_size with
  | Raised x => Raised x
  | Returned starts =>
      Returned ((λ i, (slice rows i (i + batch_size),
                       BatchId table_name page_num (i / batch_size + 1))) <$> starts)
  end.

(** A grouped delete lies within a page: its rows and identifier are one
    of the batches the page is cut into. *)
Definition within_page (table_name : string) (batch_size : Z) (rows : list R)
    (w : grouped_delete) : Prop :=
  ∃ batches,
    page_batches table_name (bid_page (gd_batch w)) batch_size rows = Returned batches ∧
    (gd_rows w, gd_batch w) ∈ batches.

(** Lines 696-701 over the futures of one page in completion order. *)
Definition run_page (retry_delay : Q) (max_retries : Z)
    (completed : list (list R * batch_id)) (total_deleted : nat) : list event * nat :=
  foldl (λ '(tr, total) '(batch_rows, batch_num),
           let '(tr', r) := execute_delete_batch retry_delay max_retries batch_rows batch_num in
           (tr ++ tr',
            match r with
            | Returned (successful, _) => (total + successful)%nat
            | Raised _ => total
            end))
        ([], total_deleted) completed.

(** What the batch [b] adds to [total_deleted] when its future is
    collected (lines 698-701). *)
Definition batch_deleted (retry_delay : Q) (max_retries : Z) (b : list R * batch_id) : nat :=
  match (execute_delete_batch retry_delay max_retries b.1 b.2).2 with
  | Returned (successful, _) => successful
  | Raised _ => 0%nat
  end.

(** The session accepts the grouped delete of the batch [b] at one of
    the iterations [0 .. max_retries - 1]. *)
Definition accepted (max_retries : Z) (b : list R * batch_id) : bool :=
  bool_decide (Exists (λ attempt, session_delete (GroupedDelete b.2 attempt b.1) = None)
                      (range max_retries)).

(** Lines 677-701 for one page: [None] when the loop ends at this page
    (the page is empty, line 680, or an exception is caught at line 709). *)
Definition process_page (table_name : string) (batch_size concurrency : Z)
    (retry_delay : Q) (max_retries : Z) (page_num : Z) (rows : list R) (total_deleted : nat)
  : option (list event * nat) :=
  match rows with
  | [] => None
  | _ :: _ =>
      match page_batches table_name page_num batch_size rows with
      | Raised _ => None
      | Returned batches =>
          match ThreadPoolExecutor concurrency with
          | Raised _ => None
          | Returned _ =>
              Some (run_page retry_delay max_retries
                      (as_completed (batch_picks table_name page_num) batches)
                      total_deleted)
          end
      end
  end.

(** Lines 672-710: the [while True] loop, entered with the outcome of the
    fetch of page [page_num]. *)
Fixpoint process_pages (table_name : string) (batch_size concurrency : Z)
    (retry_delay : Q) (max_retries : Z) (page_num : Z) (f : fetch) (total_deleted : nat)
  : list event * nat :=
  match f with
  | FetchRaises _ => ([], total_deleted)
  | LastPage rows =>
      match process_page table_name batch_size concurrency retry_delay max_retries
              page_num rows total_deleted with
      | None => ([], total_deleted)
      | Some r => r
      end
  | MorePages rows next =>
      match process_page table_name batch_size concurrency retry_delay max_retries
              page_num rows total_deleted with
      | None => ([], total_deleted)
      | Some (tr, total_deleted) =>
          let '(tr', total_deleted) :=
            process_pages table_name batch_size concurrency retry_delay max_retries
              (page_num + 1) next total_deleted in
          (tr ++ tr', total_deleted)
      end
  end.

(** Lines 632-714. *)
Definition process_table (tables_metadata : gmap string table_metadata)
    (batch_size concurrency : Z) (retry_delay : Q) (max_retries : Z) (table_name : string)
  : list event * (string * nat) :=
  match tables_metadata !! table_name with
  | None => ([], (table_name, 0%nat))
  | Some _ =>
      let '(tr, total_deleted) :=
        process_pages table_name batch_size concurrency retry_delay max_retries 1
          (session_select table_name) 0%nat in
      (tr, (table_name, total_deleted))
  end.

(** Lines 612-630: resolve every table and prepare its DELETE; a missing
    table is logged and skipped, a failing [prepare] propagates. *)
Fixpoint prepare_tables (table_names : list string)
    (tables_metadata : gmap string table_metadata)
  : list log_record * outcome (gmap string table_metadata) :=
  match table_names with
  | [] => ([], Returned tables_metadata)
  | table_name :: rest =>
      match keyspace_tables !! table_name with
      | None =>
          let '(log, r) := prepare_tables rest tables_metadata in
          (WarnTableNotFound table_name keyspace :: log, r)
      | Some table_metadata =>
          let pk_columns := partition_key table_metadata ++ clustering_key table_metadata in
          match session_prepare table_name pk_columns with
          | Some msg => ([], Raised (DriverError msg))
          | None => prepare_tables rest (<[table_name := table_metadata]> tables_metadata)
          end
      end
  end.


(** Lines 596-740. *)
Definition delete_all_rows_batch_multiple (table_names : list string)
    (page_size batch_size concurrency : Z) (retry_delay : Q) (max_retries : Z)
  : list log_record * outcome (gmap string nat) :=
  let '(log, prepared) := prepare_tables table_names ∅ in
  (log,
   match prepared with
   | Raised x => Raised x
   | Returned tables_metadata =>
       match ThreadPoolExecutor (Z.of_nat (length table_names) `min` concurrency) with
       | Raised x => Raised x
       | Returned _ =>
           Returned
             (foldl (λ (results : gmap string nat) table_name,
                       let '(table_name, deleted_count) :=
                         (process_table tables_metadata batch_size concurrency
                            retry_delay max_retries table_name).2 in
                       <[table_name := deleted_count]> results)
                    ∅ (as_completed table_picks table_names))
       end
   end).

(** The pages the scan loops read before they stop: the non-empty pages
    up to the first empty page, the first failing fetch or the last
    page. *)
Fixpoint pages_scanned (f : fetch) : list (list R) :=
  match f with
  | FetchRaises _ => []
  | LastPage [] | MorePages [] _ => []
  | LastPage rows => [rows]
  | MorePages rows next => rows :: pages_scanned next
  end.

(** The batches of the scanned pages, page after page: the page read
    at [page_num] is cut as lines 683-687 do, the next one at
    [page_num + 1]. *)
Definition batches_of_page (table_name : string) (batch_size page_num : Z) (rows : list R)
  : list (list R * batch_id) :=
  match page_batches table_name page_num batch_size rows with
  | Returned batches => batches
  | Raised _ => []
  end.

Definition scanned_batches (table_name : string) (batch_size : Z) (f : fetch)
  : list (list R * batch_id) :=
  concat (imap (λ i rows, batches_of_page table_name batch_size (Z.of_nat i + 1) rows)
               (pages_scanned f)).

(** The number of rows observed across the scanned pages. *)
Definition rows_observed (f : fetch) : nat := sum_list_with length (pages_scanned f).

(** The failing fetch the scan loops reach, if they reach one. *)
Fixpoint scan_error (f : fetch) : option string :=
  match f with
  | FetchRaises msg => Some msg
  | LastPage _ | MorePages [] _ => None
  | MorePages _ next => scan_error next
  end.

(** A server that honours the fetch size: it cuts the rows of a table
    into consecutive pages of [page_size] rows, the last one shorter when
    the rows do not divide evenly. *)
Fixpoint paginate (fuel page_size : nat) (rows : list R) : fetch :=
  match fuel with
  | 0%nat => LastPage rows
  | S fuel' =>
      if decide (length rows ≤ page_size)%nat then LastPage rows
      else MorePages (take page_size rows) (paginate fuel' page_size (drop page_size rows))
  end.

Definition served (page_size : nat) (rows : list R) : fetch :=
  paginate (length rows) page_size rows.

(** Lines 325-334 of [delete_all_rows]: submit the delete of one row;
    the result tells whether a future was appended.  The [raise] of line
    332 and a [ValueError] of [time.sleep] are caught at line 335. *)
Fixpoint submit_row (retry_delay : Q) (max_retries : Z) (row : R) (attempts : list Z)
  : list event * bool :=
  match attempts with
  | [] => ([], false)
  | attempt :: rest =>
      match session_execute_async row attempt with
      | None => ([EvDeleteAsync row attempt], true)
      | Some _ =>
          if decide (attempt = max_retries - 1) then ([EvDeleteAsync row attempt], false)
          else
            let d := (retry_delay * inject_Z (attempt + 1))%Q in
            match sleep d with
            | Raised _ => ([EvDeleteAsync row attempt], false)
            | Returned _ =>
                let '(tr, submitted) := submit_row retry_delay max_retries row rest in
                (EvDeleteAsync row attempt :: EvSleep d :: tr, submitted)
            end
      end
  end.

(** Lines 312-337: the futures of one batch of rows.  What
    [future.result()] gives for them (lines 340-345) is only logged. *)
Fixpoint submit_batch (table_name : string) (pk_columns : list string) (retry_delay : Q)
    (max_retries : Z) (batch : list R) : list event * list R :=
  match batch with
  | [] => ([], [])
  | row :: rest =>
      let '(tr', futures) := submit_batch table_name pk_columns retry_delay max_retries rest in
      match session_prepare table_name pk_columns with
      | Some _ => (tr', futures)
      | None =>
          let '(tr, submitted) := submit_row retry_delay max_retries row (range max_retries) in
          (tr ++ tr', if submitted then row :: futures else futures)
      end
  end.

(** Lines 310-350 for one page: every batch adds its length to
    [total_deleted] (line 347), whatever became of its rows. *)
Definition delete_page (table_name : string) (pk_columns : list string) (concurrency : Z)
    (retry_delay : Q) (max_retries : Z) (rows : list R) (total_deleted : nat)
  : outcome (list event * nat) :=
  match range_step (Z.of_nat (length rows)) concurrency with
  | Raised x => Raised x
  | Returned starts =>
      Returned
        (foldl (λ '(tr, total) i,
                  let batch := slice rows i (i + concurrency) in
                  let '(tr', futures) :=
                    submit_batch table_name pk_columns retry_delay max_retries batch in
                  (tr ++ tr', (total + length batch)%nat))
               ([], total_deleted) starts)
  end.

(** Lines 299-359: the [while True] loop of [delete_all_rows].  The result
    is the trace, the value of [total_deleted] when the loop is left, and
    how it is left. *)
Fixpoint delete_pages (table_name : string) (pk_columns : list string) (concurrency : Z)
    (retry_delay : Q) (max_retries : Z) (f : fetch) (total_deleted : nat)
  : list event * nat * outcome unit :=
  match f with
  | FetchRaises msg => ([], total_deleted, Raised (DriverError msg))
  | LastPage [] | MorePages [] _ => ([], total_deleted, Returned tt)
  | LastPage rows =>
      match delete_page table_name pk_columns concurrency retry_delay max_retries
              rows total_deleted with
      | Raised x => ([], total_deleted, Raised x)
      | Returned (tr, total_deleted) => (tr, total_deleted, Returned tt)
      end
  | MorePages rows next =>
      match delete_page table_name pk_columns concurrency retry_delay max_retries
              rows total_deleted with
      | Raised x => ([], total_deleted, Raised x)
      | Returned (tr, total_deleted) =>
          let '(tr', total_deleted, r) :=
            delete_pages table_name pk_columns concurrency retry_delay max_retries
              next total_deleted in
          (tr ++ tr', total_deleted, r)
      end
  end.

(** Lines 246-367.  The second component is the count of the summary
    logged in the [finally] of line 364, when the [try] was entered. *)
Definition delete_all_rows (table_name : string) (page_size concurrency : Z)
    (retry_delay : Q) (max_retries : Z) : outcome unit * option nat :=
  match keyspace_tables !! table_name with
  | None => (Raised (ValueError "table not found in keyspace"), None)
  | Some table_metadata =>
      let pk_columns := partition_key table_metadata ++ clustering_key table_metadata in
      match pk_columns with
      | [] => (Raised (ValueError "no primary key for table"), None)
      | _ :: _ =>
          let '(_, total_deleted, r) :=
            delete_pages table_name pk_columns concurrency retry_delay max_retries
              (session_select table_name) 0%nat in
          (r, Some total_deleted)
      end
  end.

(** Time measured by the clock in [clear_tables] (lines 746 and 761). *)
Variable clear_execution_time : Q.

(** Lines 742-777: the defaults of lines 751-756 overridden by the
    keyword arguments; [retry_delay] keeps the default of
    [delete_all_rows_batch_multiple] unless given. *)
Definition clear_tables (table_names : list string) (kwargs : delete_kwargs)
  : list log_record * outcome clear_report :=
  let batch_size := default 150 (kw_batch_size kwargs) in
  let concurrency := default 8 (kw_concurrency kwargs) in
  let page_size := default 1500 (kw_page_size kwargs) in
  let max_retries := default 3 (kw_max_retries kwargs) in
  let retry_delay := default (1 # 2)%Q (kw_retry_delay kwargs) in
  let '(log, r) :=
    delete_all_rows_batch_multiple table_names page_size batch_size concurrency
      retry_delay max_retries in
  (log,
   match r with
   | Raised x => Raised x
   | Returned results =>
       Returned (ClearReport clear_execution_time
                   (map_fold (λ _ deleted_count acc, deleted_count + acc)%nat 0%nat results)
                   (size results) results)
   end).

(** Lines 780-790: the execution time and the count of the table. *)
Definition clear_table (table_name : string) (kwargs : delete_kwargs)
  : list log_record * outcome (Q * nat) :=
  let '(log, r) := clear_tables [table_name] kwargs in
  (log,
   match r with
   | Raised x => Raised x
   | Returned results =>
       Returned (report_execution_time results,
                 default 0%nat (results_by_table results !! table_name))
   end).

End Engine.

End Delete.

(** ** Connecting: [__enter__] *)

Module Connection.

Inductive enter_result :=
| Connected (attempt : Z)
| NotConnected
| ConnectionError (msg : string).

Section Engine.

(** [cluster.connect()] and [session.set_keyspace(...)] at the given
    value of [attempt]: [None] when both succeed, [Some msg] when one
    raises. *)
Variable connect : Z → option string.

(** Lines 91-124: the [while attempt < self.connection_attempts] loop.
    [fuel] bounds the iterations; the trace lists the values of [attempt]
    at which a connection is tried. *)
Fixpoint connect_loop (connection_attempts : Z) (fuel : nat) (attempt : Z)
  : list Z * enter_result :=
  match fuel with
  | 0%nat => ([], NotConnected)
  | S fuel' =>
      if decide (attempt < connection_attempts) then
        match connect attempt with
        | None => ([attempt], Connected attempt)
        | Some e =>
            let attempt' := attempt + 1 in
            if decide (attempt' >= connection_attempts) then ([attempt], ConnectionError e)
            else
              let '(tr, r) := connect_loop connection_attempts fuel' attempt' in
              (attempt :: tr, r)
        end
      else ([], NotConnected)
  end.

(** Lines 84-125; a loop of [connection_attempts] iterations at most. *)
Definition enter (connection_attempts : Z) : list Z * enter_result :=
  connect_loop connection_attempts (Z.to_nat connection_attempts) 0.

End Engine.

End Connection.

(** * Properties *)

(** ** Ranges, slices and completion orders *)

Section Chunking.

Context {A : Type}.
Implicit Types (l : list A) (b c k : nat).

Lemma concat_take_drop l b c :
  concat ((λ k, take b (drop (k * b) l)) <$> seq 0 c) = take (c * b) l.
Proof.
  induction c as [|c IH]; [done|].
  rewrite seq_S, fmap_app, concat_app, IH. simpl.
  rewrite app_nil_r, take_take_drop. f_equal. lia.
Qed.

Lemma ceil_div_bounds (n bs : Z) :
  0 ≤ n → 0 < bs →
  0 ≤ (n + bs - 1) / bs ∧ n ≤ (n + bs - 1) / bs * bs ∧ ((n + bs - 1) / bs - 1) * bs < n.
Proof.
  intros Hn Hbs.
  pose proof (Z.div_mod (n + bs - 1) bs ltac:(lia)) as Hdm.
  pose proof (Z.mod_pos_bound (n + bs - 1) bs Hbs) as Hr.
  assert (0 ≤ (n + bs - 1) / bs) by (apply Z.div_pos; lia).
  nia.
Qed.

Lemma range_step_pos (stop step : Z) :
  0 < step →
  range_step stop step
  = Returned ((λ k : nat, Z.of_nat k * step) <$> seq 0 (Z.to_nat ((stop + step - 1) / step))).
Proof.
  intros Hs. unfold range_step, range_count.
  destruct (decide (step = 0)); [lia|]. by destruct (decide (0 < step)).
Qed.

Lemma range_step_neg (n : nat) (step : Z) : step < 0 → range_step (Z.of_nat n) step = Returned [].
Proof.
  intros Hs. unfold range_step, range_count.
  destruct (decide (step = 0)); [lia|]. destruct (decide (0 < step)); [lia|].
  replace (Z.to_nat _) with 0%nat; [done|].
  assert ((- Z.of_nat n + - step - 1) / - step ≤ 0); [|lia].
  apply Z.lt_succ_r, Z.div_lt_upper_bound; lia.
Qed.

Lemma range_step_zero (stop : Z) : is_raised (range_step stop 0) = true.
Proof. done. Qed.

Lemma slice_chunk l k (bs : Z) :
  0 < bs →
  slice l (Z.of_nat k * bs) (Z.of_nat k * bs + bs)
  = take (Z.to_nat bs) (drop (k * Z.to_nat bs) l).
Proof.
  intros Hbs. unfold slice. f_equal; [|f_equal]; nia.
Qed.

(** The slices [l[i:i+bs]] for [i] in [range(0, len(l), bs)], [bs > 0]:
    they are consecutive pieces of [l], as many as the ceiling of
    [len(l) / bs], each of [bs] elements except possibly the last, which
    is not empty. *)
Lemma range_step_chunks l (bs : Z) :
  0 < bs →
  ∃ starts,
    range_step (Z.of_nat (length l)) bs = Returned starts ∧
    let chunks := (λ i, slice l i (i + bs)) <$> starts in
    concat chunks = l ∧
    Z.of_nat (length chunks) = (Z.of_nat (length l) + bs - 1) / bs ∧
    ∀ k ch, chunks !! k = Some ch →
      (1 ≤ Z.of_nat (length ch) ≤ bs) ∧
      ((k + 1 < length chunks)%nat → Z.of_nat (length ch) = bs).
Proof.
  intros Hbs. eexists. split; [by apply range_step_pos|].
  destruct (ceil_div_bounds (Z.of_nat (length l)) bs) as (Hc0 & Hc1 & Hc2); [lia|done|].
  set (c := (Z.of_nat (length l) + bs - 1) / bs) in *.
  cbv zeta. rewrite <- list_fmap_compose.
  erewrite (list_fmap_ext _ (λ k : nat, take (Z.to_nat bs) (drop (k * Z.to_nat bs) l)))
    by (intros i k _; simpl; by apply slice_chunk).
  split; [|split].
  - rewrite concat_take_drop. apply take_ge. nia.
  - rewrite length_fmap, length_seq. lia.
  - intros k ch. rewrite length_fmap, length_seq, list_lookup_fmap.
    intros Hk. destruct (seq 0 (Z.to_nat c) !! k) as [k'|] eqn:Hseq; [|done].
    apply lookup_seq in Hseq as [-> Hlt]. simpl in Hk. injection Hk as <-.
    rewrite length_take, length_drop. split; [nia|]. intros Hlast. nia.
Qed.

Lemma range_lookup (n : Z) (k : nat) (a : Z) :
  range n !! k = Some a ↔ a = Z.of_nat k ∧ a < n.
Proof.
  unfold range. rewrite list_lookup_fmap. split.
  - destruct (seq 0 (Z.to_nat n) !! k) as [k'|] eqn:Hk; [|done].
    apply lookup_seq in Hk as [-> ?]. simpl. intros [= <-]. lia.
  - intros [-> Hlt]. rewrite (lookup_seq_lt 0 (Z.to_nat n) k) by lia. done.
Qed.

Lemma range_nonpos (n : Z) : n ≤ 0 → range n = [].
Proof. intros Hn. unfold range. by replace (Z.to_nat n) with 0%nat by lia. Qed.

Lemma range_of_nat (n : nat) : range (Z.of_nat n) = Z.of_nat <$> seq 0 n.
Proof. unfold range. by rewrite Nat2Z.id. Qed.

Lemma as_completed_perm (picks : list nat) l : as_completed picks l ≡ₚ l.
Proof.
  revert l. induction picks as [|p picks IH]; intros l; simpl; [done|].
  destruct (l !! (p mod length l)%nat) as [x|] eqn:Hx; [|done].
  rewrite IH. symmetry. by apply delete_Permutation.
Qed.

End Chunking.

(** ** Facts about rational delays *)

Lemma delay_nonneg (retry_delay : Q) (attempt : Z) :
  (0 <= retry_delay)%Q → 0 ≤ attempt → (0 <= retry_delay * inject_Z (attempt + 1))%Q.
Proof.
  intros Hd Ha. apply Qmult_le_0_compat; [done|].
  change 0%Q with (inject_Z 0). rewrite <- Zle_Qle. lia.
Qed.

Lemma sleep_nonneg (d : Q) : (0 <= d)%Q → sleep d = Returned tt.
Proof.
  intros Hd. unfold sleep. destruct (Qlt_le_dec d 0) as [Hlt|]; [|done].
  exfalso. by apply (Qlt_not_le _ _ Hlt).
Qed.

Lemma sleep_neg (d : Q) : (d < 0)%Q → is_raised (sleep d) = true.
Proof.
  intros Hd. unfold sleep. destruct (Qlt_le_dec d 0) as [|Hle]; [done|].
  exfalso. by apply (Qlt_not_le _ _ Hd).
Qed.

Lemma delay_increasing (retry_delay : Q) (a b : Z) :
  (0 < retry_delay)%Q → a < b →
  (retry_delay * inject_Z (a + 1) < retry_delay * inject_Z (b + 1))%Q.
Proof.
  intros Hd Hab. rewrite !(Qmult_comm retry_delay).
  apply Qmult_lt_compat_r; [done|]. rewrite <- Zlt_Qlt. lia.
Qed.

Lemma delays_increasing (retry_delay : Q) (first : Z) (n : nat) :
  (0 < retry_delay)%Q → StronglySorted Qlt (delays retry_delay first n).
Proof.
  intros Hd. unfold delays. revert first.
  induction n as [|n IH]; intros first; simpl; constructor.
  - rewrite <- (fmap_S_seq 0 n), <- list_fmap_compose.
    erewrite list_fmap_ext; [apply (IH (first + 1))|].
    intros i k _. simpl. do 2 f_equal. lia.
  - apply Forall_fmap, Forall_forall. intros k Hk%elem_of_seq. simpl.
    apply delay_increasing; [done|lia].
Qed.

(** ** The insert batch worker *)

Section InsertWorker.

Import Insert.

Context {V : Type} (session_write : @grouped_write V → option string).
Implicit Types (data : list (dict V)) (st : locals).

Lemma pacing_app (tr1 tr2 : list (@event V)) : pacing (tr1 ++ tr2) = pacing tr1 ++ pacing tr2.
Proof. apply omap_app. Qed.

Lemma pacing_attempt a (tr : list (@event V)) : pacing (EvAttempt a :: tr) = EvAttempt a :: pacing tr.
Proof. done. Qed.

Lemma pacing_sleep d (tr : list (@event V)) : pacing (EvSleep d :: tr) = EvSleep d :: pacing tr.
Proof. done. Qed.

Lemma attempts_of_app (tr1 tr2 : list (@event V)) :
  attempts_of (tr1 ++ tr2) = attempts_of tr1 ++ attempts_of tr2.
Proof. apply omap_app. Qed.

Lemma attempts_of_attempt a (tr : list (@event V)) :
  attempts_of (EvAttempt a :: tr) = a :: attempts_of tr.
Proof. done. Qed.

Lemma attempts_of_sleep d (tr : list (@event V)) :
  attempts_of (EvSleep d :: tr) = attempts_of tr.
Proof. done. Qed.

Lemma sleeps_of_app (tr1 tr2 : list (@event V)) :
  sleeps_of (tr1 ++ tr2) = sleeps_of tr1 ++ sleeps_of tr2.
Proof. apply omap_app. Qed.

Lemma run_groups_pacing t n a groups :
  pacing (run_groups session_write t n a groups).1 = [].
Proof.
  induction groups as [|[columns rs] groups IH]; simpl; [done|].
  destruct (session_write _); [done|].
  destruct (run_groups session_write t n a groups) as [tr r]. done.
Qed.

Lemma run_groups_attempts t n a groups :
  attempts_of (run_groups session_write t n a groups).1 = [].
Proof.
  induction groups as [|[columns rs] groups IH]; simpl; [done|].
  destruct (session_write _); [done|].
  destruct (run_groups session_write t n a groups) as [tr r]. done.
Qed.

Lemma run_groups_sleeps t n a groups :
  sleeps_of (run_groups session_write t n a groups).1 = [].
Proof.
  induction groups as [|[columns rs] groups IH]; simpl; [done|].
  destruct (session_write _); [done|].
  destruct (run_groups session_write t n a groups) as [tr r]. done.
Qed.

(** Every iteration fails: the loop runs all its iterations, sleeping
    between them, and leaves the batch failed. *)
Lemma retry_loop_all_fail rd mr t data n :
  (0 <= rd)%Q →
  ∀ (m i : nat) st,
    Z.of_nat (i + m) = mr →
    (∀ a, Z.of_nat i ≤ a < mr → is_Some (attempt_result session_write t data n a)) →
    ∃ tr,
      retry_loop session_write rd mr t data n (Z.of_nat <$> seq i m) st
      = (tr, Returned
               (Locals (local_successful st)
                  (if decide (m = 0%nat) then local_failed st else length data)
                  (local_errors st ++
                     ((λ a : nat, ErrorMsg t n (Z.of_nat a + 1)
                                    (attempt_error session_write t data n (Z.of_nat a)))
                        <$> seq i m)))) ∧
      pacing tr = linear_backoff rd (Z.of_nat i) m.
Proof.
  intros Hrd m. induction m as [|m IH]; intros i st Hm Hall.
  - exists []. simpl. rewrite app_nil_r. by destruct st.
  - rewrite <- cons_seq, !fmap_cons. cbn [retry_loop].
    pose proof (Hall (Z.of_nat i) ltac:(lia)) as [e He].
    pose proof (run_groups_pacing t n (Z.of_nat i) (columns_groups data)) as Hp.
    unfold attempt_error at 1. rewrite He. unfold attempt_result in He.
    destruct (run_groups session_write t n (Z.of_nat i) (columns_groups data))
      as [writes r]. simpl in He, Hp. subst r. cbn [default].
    destruct (decide (Z.of_nat i = mr - 1)) as [Hlast|Hmore].
    + assert (m = 0%nat) as -> by lia. simpl.
      eexists. split; [done|]. by rewrite app_nil_r, pacing_attempt, Hp.
    + rewrite sleep_nonneg by (apply delay_nonneg; [done|lia]).
      destruct (IH (S i) (Locals (local_successful st) (local_failed st)
                            (local_errors st ++ [ErrorMsg t n (Z.of_nat i + 1) e])))
        as (tr' & Htr' & Hp'); [lia| intros a Ha; apply Hall; lia |].
      cbn [local_successful local_failed local_errors] in *.
      rewrite Htr'. destruct m as [|m]; [lia|].
      rewrite <- app_assoc. destruct (decide (S m = 0%nat)); [lia|].
      destruct (decide (S (S m) = 0%nat)); [lia|].
      eexists. split; [done|].
      rewrite pacing_app, pacing_attempt, Hp, pacing_sleep, Hp'.
      replace (Z.of_nat (S i)) with (Z.of_nat i + 1) by lia. done.
Qed.

(** Whatever the session does, a returning loop leaves [local_successful]
    untouched or sets it to the size of the batch. *)
Lemma retry_loop_successful rd mr t data n attempts :
  ∀ st tr st',
    retry_loop session_write rd mr t data n attempts st = (tr, Returned st') →
    local_successful st' = local_successful st ∨ local_successful st' = length data.
Proof.
  induction attempts as [|a attempts IH]; intros st tr st'; cbn [retry_loop].
  - intros [= _ <-]. by left.
  - destruct (run_groups session_write t n a (columns_groups data)) as [writes [e|]].
    + destruct (decide (a = mr - 1)).
      * destruct (retry_loop _ _ _ _ _ _ attempts _) as [tr' r'] eqn:Hrec.
        intros [= _ ->]. by apply IH in Hrec.
      * destruct (sleep _); [|done].
        destruct (retry_loop _ _ _ _ _ _ attempts _) as [tr' r'] eqn:Hrec.
        intros [= _ ->]. by apply IH in Hrec.
    + intros [= _ <-]. by right.
Qed.

(** With at least one iteration ahead and nothing counted yet, a
    returning loop counts the whole batch once: as successful or as
    failed. *)
Lemma retry_loop_counts rd mr t data n :
  ∀ (m i : nat) st tr st',
    Z.of_nat (i + m) = mr → (1 ≤ m)%nat →
    local_successful st = 0%nat → local_failed st = 0%nat →
    retry_loop session_write rd mr t data n (Z.of_nat <$> seq i m) st = (tr, Returned st') →
    (local_successful st' = length data ∧ local_failed st' = 0%nat) ∨
    (local_successful st' = 0%nat ∧ local_failed st' = length data).
Proof.
  induction m as [|m IH]; intros i st tr st' Hm Hpos Hs Hf; [lia|].
  rewrite <- cons_seq, fmap_cons. cbn [retry_loop].
  destruct (run_groups session_write t n (Z.of_nat i) (columns_groups data)) as [writes [e|]].
  - destruct (decide (Z.of_nat i = mr - 1)).
    + assert (m = 0%nat) as -> by lia. simpl. intros [= _ <-]. right. by simpl.
    + destruct (sleep _); [|done].
      destruct (retry_loop _ _ _ _ _ _ _ _) as [tr' r'] eqn:Hrec.
      intros [= _ ->]. apply IH in Hrec; [done|lia|lia|done|done].
  - intros [= _ <-]. left. by simpl.
Qed.

(** The loop entered its last iteration, and that iteration failed with
    [e]: the batch is counted failed and [e] is the last error recorded. *)
Lemma retry_loop_exhausted rd mr t data n e :
  attempt_result session_write t data n (mr - 1) = Some e →
  ∀ (m i : nat) st tr r,
    Z.of_nat (i + m) = mr →
    retry_loop session_write rd mr t data n (Z.of_nat <$> seq i m) st = (tr, r) →
    mr - 1 ∈ attempts_of tr →
    ∃ errs, r = Returned (Locals (local_successful st) (length data)
                                 (errs ++ [ErrorMsg t n mr e])).
Proof.
  intros He. induction m as [|m IH]; intros i st tr r Hm.
  - simpl. intros [= <- _] Hin. by apply elem_of_nil in Hin.
  - rewrite <- cons_seq, fmap_cons. cbn [retry_loop].
    pose proof (run_groups_attempts t n (Z.of_nat i) (columns_groups data)) as Hw.
    unfold attempt_result in He.
    destruct (run_groups session_write t n (Z.of_nat i) (columns_groups data))
      as [writes r0] eqn:Hrun. simpl in Hw.
    assert (∀ tr', mr - 1 ∈ attempts_of ((EvAttempt (Z.of_nat i) :: writes) ++ tr') →
                   Z.of_nat i = mr - 1 ∨ mr - 1 ∈ attempts_of tr') as Hsplit.
    { intros tr'. rewrite attempts_of_app, attempts_of_attempt, Hw.
      rewrite elem_of_app, list_elem_of_singleton. intros [Heq|Hin]; [by left|by right]. }
    destruct r0 as [e0|].
    + destruct (decide (Z.of_nat i = mr - 1)) as [Hlast|Hmore].
      * assert (m = 0%nat) as -> by lia. simpl. intros Heq _. injection Heq as <- <-.
        rewrite <- Hlast in He. rewrite Hrun in He. simpl in He. injection He as ->.
        exists (local_errors st). by replace (Z.of_nat i + 1) with mr by lia.
      * destruct (sleep _).
        -- destruct (retry_loop _ _ _ _ _ _ _ _) as [tr' r'] eqn:Hrec.
           intros [= <- <-] Hin. apply Hsplit in Hin as [?|Hin]; [done|].
           change (mr - 1 ∈ attempts_of tr') in Hin.
           eapply IH in Hrec as [errs ->]; [by eexists|lia|done].
        -- intros [= <- <-] Hin. rewrite <- (app_nil_r (_ :: writes)) in Hin.
           apply Hsplit in Hin as [?|Hin]; [done|]. by apply elem_of_nil in Hin.
    + intros [= <- <-] Hin. rewrite <- (app_nil_r (_ :: writes)) in Hin.
      apply Hsplit in Hin as [Hlast|Hin]; [|by apply elem_of_nil in Hin].
      rewrite <- Hlast, Hrun in He. done.
Qed.

(** A returning worker names the table it was given. *)
Lemma execute_table_batch_table rd mr t data n t' s f errs :
  (execute_table_batch session_write rd mr t data n).2 = Returned (t', s, f, errs) → t' = t.
Proof.
  unfold execute_table_batch.
  destruct (retry_loop _ _ _ _ _ _ _ _) as [tr [st|x]]; simpl; [|done]. by intros [= <- _ _ _].
Qed.

Lemma execute_table_batch_successful_le rd mr t data n t' s f errs :
  (execute_table_batch session_write rd mr t data n).2 = Returned (t', s, f, errs) →
  (s ≤ length data)%nat.
Proof.
  unfold execute_table_batch.
  destruct (retry_loop _ _ _ _ _ _ _ _) as [tr [st|x]] eqn:Hloop; simpl; [|done].
  intros [= _ <- _ _]. apply retry_loop_successful in Hloop as [->| ->]; simpl; lia.
Qed.

(** With [max_retries >= 1] a returning worker counts every record of
    the batch exactly once. *)
Lemma execute_table_batch_counts rd mr t data n t' s f errs :
  1 ≤ mr →
  (execute_table_batch session_write rd mr t data n).2 = Returned (t', s, f, errs) →
  (s = length data ∧ f = 0%nat) ∨ (s = 0%nat ∧ f = length data).
Proof.
  intros Hmr. unfold execute_table_batch.
  destruct (retry_loop _ _ _ _ _ _ _ _) as [tr [st|x]] eqn:Hloop; simpl; [|done].
  intros [= _ <- <- _]. unfold range in Hloop.
  apply retry_loop_counts in Hloop; [done|lia|lia|done|done].
Qed.

(** A worker that exhausts its retries returns the batch as failed, the
    error of the last iteration being the last one it recorded. *)
Lemma execute_table_batch_exhausted rd mr t data n e :
  attempt_result session_write t data n (mr - 1) = Some e →
  mr - 1 ∈ attempts_of (execute_table_batch session_write rd mr t data n).1 →
  ∃ errs, (execute_table_batch session_write rd mr t data n).2
          = Returned (t, 0%nat, length data, errs ++ [ErrorMsg t n mr e]).
Proof.
  intros He. unfold execute_table_batch.
  destruct (retry_loop _ _ _ _ _ _ _ _) as [tr r] eqn:Hloop. simpl. intros Hin.
  destruct (decide (mr ≤ 0)) as [Hneg|Hpos].
  { rewrite range_nonpos in Hloop by done. simpl in Hloop.
    injection Hloop as <- <-. by apply elem_of_nil in Hin. }
  unfold range in Hloop.
  eapply (retry_loop_exhausted rd mr t data n e He (Z.to_nat mr) 0) in Hloop as [errs ->];
    [by exists errs|lia|done].
Qed.

(** Without iterations ([max_retries <= 0]) the worker returns at once
    and counts nothing. *)
Lemma execute_table_batch_no_attempt rd mr t data n :
  mr ≤ 0 → execute_table_batch session_write rd mr t data n = ([], Returned (t, 0, 0, [])%nat).
Proof. intros Hmr. unfold execute_table_batch. by rewrite range_nonpos. Qed.

End InsertWorker.

(** ** The delete batch worker *)

Section DeleteWorker.

Import Delete.

Context {R : Type} (session_delete : @grouped_delete R → option string).
Implicit Types (rows : list R) (tr : list (@event R)).

Lemma delete_pacing_app tr1 tr2 : pacing (tr1 ++ tr2) = pacing tr1 ++ pacing tr2.
Proof. apply omap_app. Qed.

Lemma delete_attempts_of_app tr1 tr2 :
  attempts_of (tr1 ++ tr2) = attempts_of tr1 ++ attempts_of tr2.
Proof. apply omap_app. Qed.

Lemma delete_sleeps_of_app tr1 tr2 : sleeps_of (tr1 ++ tr2) = sleeps_of tr1 ++ sleeps_of tr2.
Proof. apply omap_app. Qed.

Lemma deletes_of_app tr1 tr2 : deletes_of (tr1 ++ tr2) = deletes_of tr1 ++ deletes_of tr2.
Proof. apply omap_app. Qed.

(** Every iteration fails: the loop runs all its iterations, sleeping
    between them, and reports the batch failed. *)
Lemma delete_retry_loop_all_fail rd mr rows bid :
  (0 <= rd)%Q →
  ∀ (m i : nat),
    Z.of_nat (i + m) = mr →
    (∀ a, Z.of_nat i ≤ a < mr → is_Some (attempt_result session_delete rows bid a)) →
    ∃ tr,
      delete_retry_loop session_delete rd mr rows bid (Z.of_nat <$> seq i m)
      = (tr, Returned (0%nat, length rows)) ∧
      pacing tr = linear_backoff rd (Z.of_nat i) m.
Proof.
  intros Hrd m. induction m as [|m IH]; intros i Hm Hall.
  - by exists [].
  - rewrite <- cons_seq, fmap_cons. cbn [delete_retry_loop].
    pose proof (Hall (Z.of_nat i) ltac:(lia)) as [e He]. unfold attempt_result in He.
    rewrite He. destruct (decide (Z.of_nat i = mr - 1)) as [Hlast|Hmore].
    + assert (m = 0%nat) as -> by lia. by eexists.
    + rewrite sleep_nonneg by (apply delay_nonneg; [done|lia]).
      destruct (IH (S i)) as (tr' & -> & Hp'); [lia| intros a Ha; apply Hall; lia |].
      eexists. split; [done|]. destruct m as [|m]; [lia|].
      change (pacing (?a :: ?b :: ?c :: tr')) with (a :: c :: pacing tr').
      rewrite Hp'. replace (Z.of_nat (S i)) with (Z.of_nat i + 1) by lia. done.
Qed.

(** A returning delete worker counts the whole batch once, whatever
    [max_retries] is. *)
Lemma delete_retry_loop_counts rd mr rows bid attempts tr s f :
  delete_retry_loop session_delete rd mr rows bid attempts = (tr, Returned (s, f)) →
  (s = length rows ∧ f = 0%nat) ∨ (s = 0%nat ∧ f = length rows).
Proof.
  revert tr. induction attempts as [|a attempts IH]; intros tr; cbn [delete_retry_loop].
  - intros [= _ <- <-]. by right.
  - destruct (session_delete _).
    + destruct (decide (a = mr - 1)); [intros [= _ <- <-]; by right|].
      destruct (sleep _); [|done].
      destruct (delete_retry_loop _ _ _ _ _ attempts) as [tr' r'] eqn:Hrec.
      intros [= _ ->]. by eapply IH.
    + intros [= _ <- <-]. by left.
Qed.

Lemma execute_delete_batch_counts rd mr rows bid s f :
  (execute_delete_batch session_delete rd mr rows bid).2 = Returned (s, f) →
  (s = length rows ∧ f = 0%nat) ∨ (s = 0%nat ∧ f = length rows).
Proof.
  unfold execute_delete_batch.
  destruct (delete_retry_loop _ _ _ _ _ _) as [tr r] eqn:Hloop. simpl. intros ->.
  by eapply delete_retry_loop_counts.
Qed.

(** Every grouped delete a worker sends carries the rows and the
    identifier of its batch. *)
Lemma delete_retry_loop_deletes rd mr rows bid attempts :
  Forall (λ w, gd_rows w = rows ∧ gd_batch w = bid)
         (deletes_of (delete_retry_loop session_delete rd mr rows bid attempts).1).
Proof.
  induction attempts as [|a attempts IH]; cbn [delete_retry_loop]; [constructor|].
  destruct (session_delete _); [|by repeat constructor].
  destruct (decide (a = mr - 1)); [by repeat constructor|].
  destruct (sleep _); [|by repeat constructor].
  destruct (delete_retry_loop _ _ _ _ _ attempts) as [tr' r']. by constructor.
Qed.

(** The first iteration succeeds: one grouped delete, no retry. *)
Lemma execute_delete_batch_first_try rd mr rows bid :
  1 ≤ mr → attempt_result session_delete rows bid 0 = None →
  execute_delete_batch session_delete rd mr rows bid
  = ([EvAttempt 0; EvDelete (GroupedDelete bid 0 rows)], Returned (length rows, 0%nat)).
Proof.
  intros Hmr H0. unfold execute_delete_batch, range.
  destruct (Z.to_nat mr) as [|k] eqn:Hk; [lia|].
  rewrite <- cons_seq, fmap_cons. cbn [delete_retry_loop].
  unfold attempt_result in H0. change (Z.of_nat 0) with 0. by rewrite H0.
Qed.

End DeleteWorker.

(** ** Linear backoff *)

Section Backoff.

Context {V R : Type}.

Lemma insert_attempts_of_pacing (tr : list (@Insert.event V)) :
  Insert.attempts_of (Insert.pacing tr) = Insert.attempts_of tr.
Proof. induction tr as [|[a|w|d] tr IH]; simpl; by rewrite ?IH. Qed.

Lemma insert_sleeps_of_pacing (tr : list (@Insert.event V)) :
  Insert.sleeps_of (Insert.pacing tr) = Insert.sleeps_of tr.
Proof. induction tr as [|[a|w|d] tr IH]; simpl; by rewrite ?IH. Qed.

Lemma delete_attempts_of_pacing (tr : list (@Delete.event R)) :
  Delete.attempts_of (Delete.pacing tr) = Delete.attempts_of tr.
Proof. induction tr as [|[a|w|r a|d] tr IH]; simpl; by rewrite ?IH. Qed.

Lemma delete_sleeps_of_pacing (tr : list (@Delete.event R)) :
  Delete.sleeps_of (Delete.pacing tr) = Delete.sleeps_of tr.
Proof. induction tr as [|[a|w|r a|d] tr IH]; simpl; by rewrite ?IH. Qed.

Lemma shifted_range (a : Z) (m : nat) :
  (λ k : nat, a + Z.of_nat k) <$> seq 1 m = (λ k : nat, a + 1 + Z.of_nat k) <$> seq 0 m.
Proof.
  rewrite <- (fmap_S_seq 0 m), <- list_fmap_compose.
  apply list_fmap_ext. intros i k _. simpl. lia.
Qed.

Lemma shifted_delays (rd : Q) (a : Z) (m : nat) :
  (λ k : nat, rd * inject_Z (a + Z.of_nat k + 1))%Q <$> seq 1 m = delays rd (a + 1) m.
Proof.
  unfold delays. rewrite <- (fmap_S_seq 0 m), <- list_fmap_compose.
  apply list_fmap_ext. intros i k _. simpl. do 2 f_equal. lia.
Qed.

Lemma insert_linear_backoff_attempts (rd : Q) (m : nat) (a : Z) :
  Insert.attempts_of (@Insert.linear_backoff V rd a m) = (λ k : nat, a + Z.of_nat k) <$> seq 0 m.
Proof.
  revert a. induction m as [|m IH]; intros a; [done|].
  cbn [Insert.linear_backoff]. destruct m as [|m].
  - simpl. by rewrite Z.add_0_r.
  - change (Insert.attempts_of (?x :: ?y :: ?l)) with (a :: Insert.attempts_of l).
    rewrite IH, <- shifted_range. simpl. by rewrite Z.add_0_r.
Qed.

Lemma insert_linear_backoff_sleeps (rd : Q) (m : nat) (a : Z) :
  Insert.sleeps_of (@Insert.linear_backoff V rd a m) = delays rd a (m - 1).
Proof.
  revert a. induction m as [|m IH]; intros a; [done|].
  cbn [Insert.linear_backoff]. destruct m as [|m]; [done|].
  change (Insert.sleeps_of (?x :: Insert.EvSleep ?d :: ?l)) with (d :: Insert.sleeps_of l).
  rewrite IH. replace (S (S m) - 1)%nat with (S (S m - 1)) by lia.
  unfold delays at 2. simpl. rewrite shifted_delays. by rewrite Z.add_0_r.
Qed.

Lemma delete_linear_backoff_attempts (rd : Q) (m : nat) (a : Z) :
  Delete.attempts_of (@Delete.linear_backoff R rd a m) = (λ k : nat, a + Z.of_nat k) <$> seq 0 m.
Proof.
  revert a. induction m as [|m IH]; intros a; [done|].
  cbn [Delete.linear_backoff]. destruct m as [|m].
  - simpl. by rewrite Z.add_0_r.
  - change (Delete.attempts_of (?x :: ?y :: ?l)) with (a :: Delete.attempts_of l).
    rewrite IH, <- shifted_range. simpl. by rewrite Z.add_0_r.
Qed.

Lemma delete_linear_backoff_sleeps (rd : Q) (m : nat) (a : Z) :
  Delete.sleeps_of (@Delete.linear_backoff R rd a m) = delays rd a (m - 1).
Proof.
  revert a. induction m as [|m IH]; intros a; [done|].
  cbn [Delete.linear_backoff]. destruct m as [|m]; [done|].
  change (Delete.sleeps_of (?x :: Delete.EvSleep ?d :: ?l)) with (d :: Delete.sleeps_of l).
  rewrite IH. replace (S (S m) - 1)%nat with (S (S m - 1)) by lia.
  unfold delays at 2. simpl. rewrite shifted_delays. by rewrite Z.add_0_r.
Qed.

Lemma range_as_offsets (n : nat) : (λ k : nat, 0 + Z.of_nat k) <$> seq 0 n = range (Z.of_nat n).
Proof. by rewrite range_of_nat. Qed.

End Backoff.

(** C3, as the code has it.  With [max_retries = N], a delay that is a
    duration ([0 <= retry_delay]) and a batch whose grouped execution
    fails at every iteration, the insert worker and the delete worker each
    make exactly [N] attempts (iterations [0 .. N-1]) and sleep
    [retry_delay * 1, ..., retry_delay * (N - 1)], one sleep between two
    consecutive attempts and none after the last.  The batch is then
    reported failed: by the delete worker for every [N], by the insert
    worker for [N >= 1].  The delays are strictly increasing when
    [retry_delay > 0]. *)
Theorem permanent_failure_linear_backoff {V R : Type}
    (session_write : @Insert.grouped_write V → option string)
    (session_delete : @Delete.grouped_delete R → option string)
    (N : nat) (retry_delay : Q)
    (table_name : string) (batch_data : list (dict V)) (batch_num : Z)
    (rows_batch : list R) (bid : Delete.batch_id) :
  (0 <= retry_delay)%Q →
  (∀ a, 0 ≤ a < Z.of_nat N →
        is_Some (Insert.attempt_result session_write table_name batch_data batch_num a)) →
  (∀ a, 0 ≤ a < Z.of_nat N →
        is_Some (Delete.attempt_result session_delete rows_batch bid a)) →
  let ins := Insert.execute_table_batch session_write retry_delay (Z.of_nat N)
               table_name batch_data batch_num in
  let del := Delete.execute_delete_batch session_delete retry_delay (Z.of_nat N)
               rows_batch bid in
  (Insert.attempts_of ins.1 = range (Z.of_nat N) ∧
   Insert.sleeps_of ins.1 = delays retry_delay 0 (N - 1) ∧
   Insert.pacing ins.1 = Insert.linear_backoff retry_delay 0 N ∧
   ((1 ≤ N)%nat →
    ∃ errs, ins.2 = Returned (table_name, 0%nat, length batch_data, errs) ∧ length errs = N)) ∧
  (Delete.attempts_of del.1 = range (Z.of_nat N) ∧
   Delete.sleeps_of del.1 = delays retry_delay 0 (N - 1) ∧
   Delete.pacing del.1 = Delete.linear_backoff retry_delay 0 N ∧
   del.2 = Returned (0%nat, length rows_batch)) ∧
  length (range (Z.of_nat N)) = N ∧
  ((0 < retry_delay)%Q → StronglySorted Qlt (delays retry_delay 0 (N - 1))).
Proof.
  intros Hrd Hins Hdel ins del.
  destruct (retry_loop_all_fail session_write retry_delay (Z.of_nat N) table_name
              batch_data batch_num Hrd N 0 (Insert.Locals 0 0 []) eq_refl Hins)
    as (itr & Hiloop & Hip).
  destruct (delete_retry_loop_all_fail session_delete retry_delay (Z.of_nat N)
              rows_batch bid Hrd N 0 eq_refl Hdel) as (dtr & Hdloop & Hdp).
  change (Z.of_nat 0) with 0 in Hip, Hdp.
  assert (ins.1 = itr) as Hi1.
  { subst ins. unfold Insert.execute_table_batch. by rewrite range_of_nat, Hiloop. }
  assert ((1 ≤ N)%nat →
          ∃ errs, ins.2 = Returned (table_name, 0%nat, length batch_data, errs) ∧
                  length errs = N) as Hi2.
  { intros HN. subst ins. unfold Insert.execute_table_batch.
    rewrite range_of_nat, Hiloop. simpl.
    destruct (decide (N = 0%nat)); [lia|]. eexists. split; [done|].
    by rewrite length_fmap, length_seq. }
  assert (del = (dtr, Returned (0%nat, length rows_batch))) as Hd.
  { subst del. unfold Delete.execute_delete_batch. by rewrite range_of_nat, Hdloop. }
  rewrite Hi1, Hd. cbn [fst snd]. split_and!; try done.
  - rewrite <- insert_attempts_of_pacing, Hip, insert_linear_backoff_attempts.
    apply range_as_offsets.
  - by rewrite <- insert_sleeps_of_pacing, Hip, insert_linear_backoff_sleeps.
  - rewrite <- delete_attempts_of_pacing, Hdp, delete_linear_backoff_attempts.
    apply range_as_offsets.
  - by rewrite <- delete_sleeps_of_pacing, Hdp, delete_linear_backoff_sleeps.
  - by rewrite range_of_nat, length_fmap, length_seq.
  - intros Hpos. by apply delays_increasing.
Qed.

(** ** Aggregation of the insert statistics *)

Section InsertStats.

Import Insert.

Context {V : Type} (session_write : @grouped_write V → option string).
Implicit Types (stats : gmap string table_stat) (tk : @task V) (t : string).

Lemma sum_stats_empty field : sum_stats field ∅ = 0%nat.
Proof. unfold sum_stats. by rewrite map_fold_empty. Qed.

Lemma sum_stats_insert_fresh field stats t st :
  stats !! t = None → sum_stats field (<[t:=st]> stats) = (field st + sum_stats field stats)%nat.
Proof.
  intros Hfresh. unfold sum_stats.
  rewrite map_fold_insert_L; [done| |done]. intros. lia.
Qed.

(** Overwriting the entry of [t] changes the sum by the change of the
    entry; a missing entry counts as the default one. *)
Lemma sum_stats_insert field stats t st :
  field default_stat = 0%nat →
  (sum_stats field (<[t:=st]> stats) + field (stat_of stats t)
   = sum_stats field stats + field st)%nat.
Proof.
  intros Hdefault. unfold stat_of. destruct (stats !! t) as [old|] eqn:Hold; simpl.
  - rewrite <- (insert_delete_eq stats).
    rewrite <- (insert_delete_id stats t old) at 2 by done.
    rewrite !sum_stats_insert_fresh by apply lookup_delete_eq. lia.
  - rewrite sum_stats_insert_fresh by done. lia.
Qed.

Lemma stat_of_insert stats t t' st :
  stat_of (<[t:=st]> stats) t' = if decide (t = t') then st else stat_of stats t'.
Proof.
  unfold stat_of. rewrite lookup_insert. by destruct (decide (t = t')).
Qed.

(** One collected future: the entry of the task's table grows by the
    contribution of the task, the other entries do not change. *)
Lemma collect_stat rd mr stats tk t :
  let stats' := collect stats tk (task_result session_write rd mr tk) in
  successful (stat_of stats' t)
  = (successful (stat_of stats t)
     + if decide (task_table tk = t) then task_successful session_write rd mr tk else 0)%nat ∧
  failed (stat_of stats' t)
  = (failed (stat_of stats t)
     + if decide (task_table tk = t) then task_failed session_write rd mr tk else 0)%nat ∧
  batches (stat_of stats' t)
  = (batches (stat_of stats t)
     + if decide (task_table tk = t) then task_batches session_write rd mr tk else 0)%nat ∧
  errors (stat_of stats' t)
  = errors (stat_of stats t)
    ++ if decide (task_table tk = t) then task_errors session_write rd mr tk else [].
Proof.
  unfold task_successful, task_failed, task_batches, task_errors, collect.
  destruct (task_result session_write rd mr tk) as [[[[t' s] f] errs]|x] eqn:Hres.
  - apply execute_table_batch_table in Hres as ->. cbv zeta.
    rewrite stat_of_insert. destruct (decide (task_table tk = t)) as [<-|]; simpl.
    + done.
    + by rewrite !Nat.add_0_r, app_nil_r.
  - cbv zeta. rewrite stat_of_insert. destruct (decide (task_table tk = t)) as [<-|]; simpl.
    + by rewrite !Nat.add_0_r, app_nil_r.
    + by rewrite !Nat.add_0_r, app_nil_r.
Qed.

Lemma collect_sums rd mr stats tk :
  let stats' := collect stats tk (task_result session_write rd mr tk) in
  sum_stats successful stats'
  = (sum_stats successful stats + task_successful session_write rd mr tk)%nat ∧
  sum_stats failed stats' = (sum_stats failed stats + task_failed session_write rd mr tk)%nat.
Proof.
  unfold task_successful, task_failed, collect.
  destruct (task_result session_write rd mr tk) as [[[[t' s] f] errs]|x] eqn:Hres; cbv zeta.
  - split.
    + pose proof (sum_stats_insert successful stats t'
        (TableStat (successful (stat_of stats t') + s) (failed (stat_of stats t') + f)
                   (batches (stat_of stats t') + 1) (errors (stat_of stats t') ++ errs))
        eq_refl). simpl in *. lia.
    + pose proof (sum_stats_insert failed stats t'
        (TableStat (successful (stat_of stats t') + s) (failed (stat_of stats t') + f)
                   (batches (stat_of stats t') + 1) (errors (stat_of stats t') ++ errs))
        eq_refl). simpl in *. lia.
  - split.
    + pose proof (sum_stats_insert successful stats (task_table tk)
        (TableStat (successful (stat_of stats (task_table tk)))
                   (failed (stat_of stats (task_table tk)) + length (task_data tk))
                   (batches (stat_of stats (task_table tk)))
                   (errors (stat_of stats (task_table tk))))
        eq_refl). simpl in *. lia.
    + pose proof (sum_stats_insert failed stats (task_table tk)
        (TableStat (successful (stat_of stats (task_table tk)))
                   (failed (stat_of stats (task_table tk)) + length (task_data tk))
                   (batches (stat_of stats (task_table tk)))
                   (errors (stat_of stats (task_table tk))))
        eq_refl). simpl in *. lia.
Qed.

Lemma run_tasks_snoc rd mr completed tk :
  run_tasks session_write rd mr (completed ++ [tk])
  = collect (run_tasks session_write rd mr completed) tk (task_result session_write rd mr tk).
Proof. unfold run_tasks. by rewrite foldl_app. Qed.

(** The statistics of a table after the collecting loop: the sums of
    what its tasks contribute, the errors in completion order. *)
Lemma run_tasks_stat rd mr completed t :
  let st := stat_of (run_tasks session_write rd mr completed) t in
  successful st = sum_list_with (task_successful session_write rd mr) (tasks_of t completed) ∧
  failed st = sum_list_with (task_failed session_write rd mr) (tasks_of t completed) ∧
  batches st = sum_list_with (task_batches session_write rd mr) (tasks_of t completed) ∧
  errors st = concat (task_errors session_write rd mr <$> tasks_of t completed).
Proof.
  induction completed as [|tk completed IH] using rev_ind; [done|].
  cbv zeta in *. rewrite run_tasks_snoc.
  destruct (collect_stat rd mr (run_tasks session_write rd mr completed) tk t)
    as (-> & -> & -> & ->).
  destruct IH as (-> & -> & -> & ->).
  unfold tasks_of. rewrite filter_app, !sum_list_with_app, fmap_app, concat_app.
  rewrite filter_cons, filter_nil.
  destruct (decide (task_table tk = t)); simpl; by rewrite ?Nat.add_0_r, ?app_nil_r.
Qed.

(** The totals of the report are the sums over all tasks. *)
Lemma run_tasks_sums rd mr completed :
  sum_stats successful (run_tasks session_write rd mr completed)
  = sum_list_with (task_successful session_write rd mr) completed ∧
  sum_stats failed (run_tasks session_write rd mr completed)
  = sum_list_with (task_failed session_write rd mr) completed.
Proof.
  induction completed as [|tk completed IH] using rev_ind.
  { by rewrite !sum_stats_empty. }
  rewrite run_tasks_snoc.
  destruct (collect_sums rd mr (run_tasks session_write rd mr completed) tk) as [-> ->].
  destruct IH as [-> ->]. rewrite !sum_list_with_app. simpl. lia.
Qed.

Lemma task_successful_le rd mr tk :
  (task_successful session_write rd mr tk ≤ length (task_data tk))%nat.
Proof.
  unfold task_successful.
  destruct (task_result session_write rd mr tk) as [[[[t' s] f] errs]|x] eqn:Hres; [|lia].
  by apply execute_table_batch_successful_le in Hres.
Qed.

End InsertStats.

(** ** Grouping by table and chunking into tasks *)

Section InsertTasks.

Import Insert.

Context {V : Type}.
Implicit Types (records : list (string * dict V)) (tk : @task V).

Lemma length_concat_sum {A} (ls : list (list A)) :
  length (concat ls) = sum_list_with length ls.
Proof. induction ls as [|l ls IH]; simpl; [done|]. by rewrite length_app, IH. Qed.

Lemma sum_list_with_fmap {A B} (f : B → nat) (g : A → B) (l : list A) :
  sum_list_with f (g <$> l) = sum_list_with (f ∘ g) l.
Proof. induction l as [|x l IH]; simpl; [done|]. f_equal. exact IH. Qed.

Lemma dict_append_size {K A} `{EqDecision K} (k : K) (x : A) (d : list (K * list A)) :
  sum_list_with (λ kv, length kv.2) (dict_append k x d)
  = S (sum_list_with (λ kv, length kv.2) d).
Proof.
  induction d as [|[k' xs] d IH]; simpl; [done|].
  destruct (decide (k' = k)); simpl; [rewrite length_app; simpl; lia|]. rewrite IH. lia.
Qed.

Lemma dict_append_nonempty {K A} `{EqDecision K} (k : K) (x : A) (d : list (K * list A)) :
  dict_append k x d ≠ [].
Proof. destruct d as [|[k' xs] d]; simpl; [done|]. by destruct (decide (k' = k)). Qed.

(** Grouping neither drops nor duplicates a record. *)
Lemma group_by_table_size records :
  sum_list_with (λ kv, length kv.2) (group_by_table records) = length records.
Proof.
  unfold group_by_table. induction records as [|[t r] records IH] using rev_ind; [done|].
  rewrite foldl_app, length_app. simpl. rewrite dict_append_size, IH. lia.
Qed.

Lemma group_by_table_nonempty records : records ≠ [] → group_by_table records ≠ [].
Proof.
  unfold group_by_table. destruct records as [|tr records] using rev_ind; [done|].
  intros _. rewrite foldl_app. simpl. apply dict_append_nonempty.
Qed.

(** With a positive batch size the tasks of a table are the consecutive
    chunks of its records. *)
Lemma table_tasks_pos bs t (d : list (dict V)) :
  0 < bs →
  ∃ tasks, table_tasks bs t d = Returned tasks ∧
           concat (task_data <$> tasks) = d ∧
           Forall (λ tk, task_table tk = t ∧ 1 ≤ Z.of_nat (length (task_data tk)) ≤ bs) tasks.
Proof.
  intros Hbs. destruct (range_step_chunks d bs Hbs) as (starts & Hstarts & Hcat & _ & Hlen).
  unfold table_tasks. rewrite Hstarts. eexists. split; [done|]. split.
  - rewrite <- list_fmap_compose. exact Hcat.
  - apply Forall_fmap, Forall_lookup. intros k i Hk. simpl. split; [done|].
    apply (Hlen k). by rewrite list_lookup_fmap, Hk.
Qed.

Lemma table_tasks_neg bs t (d : list (dict V)) :
  bs < 0 → table_tasks bs t d = Returned [].
Proof. intros Hbs. unfold table_tasks. by rewrite range_step_neg. Qed.

Lemma table_tasks_zero t (d : list (dict V)) :
  is_raised (table_tasks 0 t d) = true.
Proof. done. Qed.

(** Whatever the non-zero batch size, the tasks are created and hold no
    more records than were given; with a positive batch size they hold
    all of them. *)
Lemma create_tasks_size bs (tables_data : list (string * list (dict V))) :
  bs ≠ 0 →
  ∃ tasks, create_tasks bs tables_data = Returned tasks ∧
           (sum_list_with (λ tk, length (task_data tk)) tasks
            ≤ sum_list_with (λ kv, length kv.2) tables_data)%nat ∧
           (0 < bs → sum_list_with (λ tk, length (task_data tk)) tasks
                     = sum_list_with (λ kv, length kv.2) tables_data).
Proof.
  intros Hbs. induction tables_data as [|[t d] tables_data (tasks' & Hrec & Hle & Heq)]; simpl.
  { by exists []. }
  rewrite Hrec. destruct (decide (0 < bs)) as [Hpos|Hneg].
  - destruct (table_tasks_pos bs t d Hpos) as (tasks & -> & Hcat & _).
    eexists. split; [done|].
    rewrite sum_list_with_app.
    assert (sum_list_with (λ tk, length (task_data tk)) tasks = length d) as ->.
    { rewrite <- Hcat at 1. by rewrite length_concat_sum, sum_list_with_fmap. }
    split; [lia|]. intros _. rewrite Heq by done. done.
  - rewrite table_tasks_neg by lia. eexists. split; [done|]. simpl. split; lia.
Qed.

Lemma create_tasks_zero (tables_data : list (string * list (dict V))) :
  tables_data ≠ [] → is_raised (create_tasks 0 tables_data) = true.
Proof. by destruct tables_data as [|[t d] tables_data]. Qed.

End InsertTasks.

(** ** The insert report *)

Section InsertReport.

Import Insert.

Context {V : Type} (session_write : @grouped_write V → option string).
Context (picks : list nat) (execution_time : Q).
Implicit Types (records : list (string * dict V)).

Lemma final_stats_lookup total_records stats :
  let report := final_stats total_records stats execution_time in
  report !! "total_records" = Some (PyInt (Z.of_nat total_records)) ∧
  report !! "total_successful" = Some (PyInt (Z.of_nat (sum_stats successful stats))) ∧
  report !! "total_failed" = Some (PyInt (Z.of_nat (sum_stats failed stats))) ∧
  report !! "success_rate" = Some (success_rate (sum_stats successful stats) total_records) ∧
  report !! "execution_time" = Some (PyFloat execution_time) ∧
  report !! "records_per_second"
  = Some (records_per_second (sum_stats successful stats) execution_time) ∧
  report !! "tables" = Some (PyTables stats).
Proof. unfold final_stats. cbv zeta. split_and!; by simplify_map_eq. Qed.

(** For a non-empty input the call raises only for a zero batch size or
    a non-positive concurrency: otherwise it returns the final report
    built from the statistics of all the tasks. *)
Lemma batch_insert_returns records bs conc rd mr :
  records ≠ [] → bs ≠ 0 → 0 < conc →
  ∃ all_tasks,
    create_tasks bs (group_by_table records) = Returned all_tasks ∧
    (sum_list_with (λ tk, length (task_data tk)) all_tasks ≤ length records)%nat ∧
    (0 < bs → sum_list_with (λ tk, length (task_data tk)) all_tasks = length records) ∧
    batch_insert_dicts_to_cassandra session_write picks execution_time records bs conc rd mr
    = Returned (final_stats (length records)
                  (run_tasks session_write rd mr (as_completed picks all_tasks))
                  execution_time).
Proof.
  intros Hrec Hbs Hconc.
  destruct (create_tasks_size bs (group_by_table records) Hbs) as (all_tasks & Hct & Hle & Heq).
  rewrite group_by_table_size in Hle, Heq.
  exists all_tasks. split_and!; [done..|].
  unfold batch_insert_dicts_to_cassandra. destruct records as [|r records]; [done|].
  rewrite Hct. unfold ThreadPoolExecutor. by destruct (decide (conc ≤ 0)); [lia|].
Qed.

Lemma batch_insert_raises records bs conc rd mr :
  records ≠ [] → bs = 0 ∨ conc ≤ 0 →
  is_raised (batch_insert_dicts_to_cassandra session_write picks execution_time
               records bs conc rd mr) = true.
Proof.
  intros Hrec Hbad. unfold batch_insert_dicts_to_cassandra.
  destruct records as [|r records]; [done|].
  destruct (create_tasks bs (group_by_table (r :: records))) as [all_tasks|x] eqn:Hct; [|done].
  destruct Hbad as [->|Hconc].
  - pose proof (create_tasks_zero (group_by_table (r :: records))
                  (group_by_table_nonempty _ Hrec)) as Hz.
    by rewrite Hct in Hz.
  - unfold ThreadPoolExecutor. by destruct (decide (conc ≤ 0)); [|lia].
Qed.

(** The total of successes never exceeds the number of records. *)
Lemma total_successful_le rd mr (all_tasks : list (@task V)) :
  (sum_stats successful (run_tasks session_write rd mr (as_completed picks all_tasks))
   ≤ sum_list_with (λ tk, length (task_data tk)) all_tasks)%nat.
Proof.
  destruct (run_tasks_sums session_write rd mr (as_completed picks all_tasks)) as [-> _].
  rewrite (as_completed_perm picks all_tasks).
  induction all_tasks as [|tk all_tasks IH]; simpl; [done|].
  pose proof (task_successful_le session_write rd mr tk). lia.
Qed.

Lemma percentage_bounds (s n : nat) :
  (s ≤ n)%nat → (0 < n)%nat →
  (0 <= inject_Z (Z.of_nat s) / inject_Z (Z.of_nat n) * inject_Z 100)%Q ∧
  (inject_Z (Z.of_nat s) / inject_Z (Z.of_nat n) * inject_Z 100 <= inject_Z 100)%Q.
Proof.
  intros Hsn Hn.
  assert (0 < inject_Z (Z.of_nat n))%Q as Hn'.
  { change 0%Q with (inject_Z 0). rewrite <- Zlt_Qlt. lia. }
  assert (0 <= inject_Z (Z.of_nat s))%Q as Hs'.
  { change 0%Q with (inject_Z 0). rewrite <- Zle_Qle. lia. }
  assert (0 <= inject_Z (Z.of_nat s) / inject_Z (Z.of_nat n))%Q as Hlo.
  { apply Qle_shift_div_l; [done|]. by rewrite Qmult_0_l. }
  assert (inject_Z (Z.of_nat s) / inject_Z (Z.of_nat n) <= 1)%Q as Hhi.
  { apply Qle_shift_div_r; [done|]. rewrite Qmult_1_l, <- Zle_Qle. lia. }
  split.
  - apply Qmult_le_0_compat; [done|]. done.
  - rewrite <- (Qmult_1_l (inject_Z 100)) at 2. apply Qmult_le_compat_r; [done|]. done.
Qed.

End InsertReport.

(** * The claims *)

(** C1, as the code has it.  For every call with a non-empty record list
    that returns (non-zero batch size, positive concurrency), the report
    holds [success_rate = total_successful / total_records * 100], a
    percentage between 0 and 100, and [records_per_second] is
    [total_successful / execution_time] for a positive elapsed time and
    the integer 0 otherwise; the rate expression is 0 for a zero record
    count.  Neither computation divides by zero. *)
Theorem insert_report_rates {V : Type}
    (session_write : @Insert.grouped_write V → option string)
    (picks : list nat) (execution_time : Q)
    (records : list (string * dict V)) (batch_size concurrency : Z)
    (retry_delay : Q) (max_retries : Z) :
  records ≠ [] → batch_size ≠ 0 → 0 < concurrency →
  ∃ (report : gmap string Insert.pyvalue) (s : nat),
    Insert.batch_insert_dicts_to_cassandra session_write picks execution_time
      records batch_size concurrency retry_delay max_retries = Returned report ∧
    report !! "total_records" = Some (Insert.PyInt (Z.of_nat (length records))) ∧
    report !! "total_successful" = Some (Insert.PyInt (Z.of_nat s)) ∧
    (s ≤ length records)%nat ∧
    report !! "success_rate"
    = Some (Insert.PyFloat (inject_Z (Z.of_nat s) / inject_Z (Z.of_nat (length records))
                            * inject_Z 100)) ∧
    (0 <= inject_Z (Z.of_nat s) / inject_Z (Z.of_nat (length records)) * inject_Z 100)%Q ∧
    (inject_Z (Z.of_nat s) / inject_Z (Z.of_nat (length records)) * inject_Z 100
     <= inject_Z 100)%Q ∧
    report !! "records_per_second" = Some (Insert.records_per_second s execution_time) ∧
    ((execution_time <= 0)%Q → Insert.records_per_second s execution_time = Insert.PyInt 0) ∧
    ((0 < execution_time)%Q →
     Insert.records_per_second s execution_time
     = Insert.PyFloat (inject_Z (Z.of_nat s) / execution_time)) ∧
    Insert.success_rate s 0 = Insert.PyInt 0.
Proof.
  intros Hrec Hbs Hconc.
  destruct (batch_insert_returns session_write picks execution_time records batch_size
              concurrency retry_delay max_retries Hrec Hbs Hconc)
    as (all_tasks & Hct & Hle & _ & ->).
  set (stats := Insert.run_tasks session_write retry_delay max_retries
                  (as_completed picks all_tasks)).
  destruct (final_stats_lookup execution_time (length records) stats)
    as (Htr & Hts & _ & Hsr & _ & Hrps & _).
  assert (Insert.sum_stats Insert.successful stats ≤ length records)%nat as Hs.
  { etrans; [apply total_successful_le|done]. }
  assert (0 < length records)%nat as Hn by (destruct records; [done|simpl; lia]).
  exists (Insert.final_stats (length records) stats execution_time),
         (Insert.sum_stats Insert.successful stats).
  split_and!; try done.
  - rewrite Hsr. unfold Insert.success_rate. by destruct (decide (0 < length records)%nat).
  - by apply percentage_bounds.
  - by apply percentage_bounds.
  - intros Ht. unfold Insert.records_per_second.
    destruct (Qlt_le_dec 0 execution_time) as [Hlt|]; [|done].
    exfalso. by apply (Qlt_not_le _ _ Hlt).
  - intros Ht. unfold Insert.records_per_second.
    destruct (Qlt_le_dec 0 execution_time) as [|Hle']; [done|].
    exfalso. by apply (Qlt_not_le _ _ Ht).
Qed.

Lemma insert_report_rates_witness :
  ∃ (report : gmap string Insert.pyvalue) (s : nat),
    Insert.batch_insert_dicts_to_cassandra (V:=Z) (λ _, None) [] (3 # 2)
      [("events"%string, [("id"%string, 1)]); ("events"%string, [("id"%string, 2)])]
      100 10 (1 # 2) 3 = Returned report ∧
    report !! "success_rate"
    = Some (Insert.PyFloat (inject_Z (Z.of_nat s) / inject_Z 2 * inject_Z 100)) ∧
    (inject_Z (Z.of_nat s) / inject_Z 2 * inject_Z 100 <= inject_Z 100)%Q.
Proof.
  destruct (insert_report_rates (V:=Z) (λ _, None) [] (3 # 2)
              [("events"%string, [("id"%string, 1)]);
               ("events"%string, [("id"%string, 2)])]
              100 10 (1 # 2) 3 ltac:(discriminate) ltac:(lia) ltac:(lia))
    as (report & s & H1 & _ & _ & _ & H2 & _ & H3 & _).
  exists report, s. split; [exact H1|]. split; [exact H2|exact H3].
Defined.

(** C1 fails as stated: one record, inserted successfully, gives a
    success rate of 100, which is neither [total_successful /
    total_records] (that is 1) nor within [0, 1]. *)
Lemma success_rate_above_one :
  ∃ (report : gmap string Insert.pyvalue) (q : Q),
    Insert.batch_insert_dicts_to_cassandra (V:=Z) (λ _, None) [] (3 # 2)
      [("events"%string, [("id"%string, 1)])] 100 10 (1 # 2) 3 = Returned report ∧
    report !! "total_records" = Some (Insert.PyInt 1) ∧
    report !! "total_successful" = Some (Insert.PyInt 1) ∧
    report !! "success_rate" = Some (Insert.PyFloat q) ∧
    (q == inject_Z 100)%Q ∧
    ¬ (q == inject_Z 1 / inject_Z 1)%Q ∧
    ¬ (q <= 1)%Q.
Proof.
  assert (∀ all_tasks,
            Insert.create_tasks 100
              (Insert.group_by_table
                 [("events"%string, ([("id"%string, 1)] : dict Z))])
            = Returned all_tasks →
            Insert.sum_stats Insert.successful
              (Insert.run_tasks (λ _, None) (1 # 2) 3 (as_completed [] all_tasks)) = 1%nat)
    as Hsum.
  { intros all_tasks Hct.
    destruct (run_tasks_sums (V:=Z) (λ _, None) (1 # 2) 3
                (as_completed [] all_tasks)) as [-> _].
    vm_compute in Hct. injection Hct as <-. by vm_compute. }
  destruct (batch_insert_returns (V:=Z) (λ _, None) [] (3 # 2)
              [("events"%string, [("id"%string, 1)])] 100 10 (1 # 2) 3
              ltac:(discriminate) ltac:(lia) ltac:(lia))
    as (all_tasks & Hct & _ & _ & Hrun).
  specialize (Hsum all_tasks Hct).
  set (stats := Insert.run_tasks (λ _, None) (1 # 2) 3 (as_completed [] all_tasks)) in *.
  destruct (final_stats_lookup (3 # 2) 1 stats) as (Htr & Hts & _ & Hsr & _).
  rewrite Hsum in Hts, Hsr.
  eexists _, _. split; [exact Hrun|]. split; [exact Htr|]. split; [exact Hts|].
  split; [exact Hsr|]. split; [vm_compute; reflexivity|]. split.
  - vm_compute. discriminate.
  - vm_compute. intros H. apply H. reflexivity.
Qed.

(** C10.  For the empty record list the call returns, without raising,
    the dictionary with exactly the keys [total_records], [tables] and
    [execution_time] (0, the empty dictionary, 0); the keys
    [total_successful], [total_failed], [success_rate] and
    [records_per_second] are absent from it, while every report returned
    for a non-empty input has all seven keys. *)
Theorem empty_input_report {V : Type}
    (session_write : @Insert.grouped_write V → option string)
    (picks : list nat) (execution_time : Q)
    (batch_size concurrency : Z) (retry_delay : Q) (max_retries : Z) :
  Insert.batch_insert_dicts_to_cassandra session_write picks execution_time
    [] batch_size concurrency retry_delay max_retries
  = Returned {[ "total_records" := Insert.PyInt 0;
                "tables" := Insert.PyTables ∅;
                "execution_time" := Insert.PyInt 0 ]} ∧
  dom Insert.empty_report = ({[ "total_records"; "tables"; "execution_time" ]} : gset string) ∧
  Insert.empty_report !! "total_successful" = None ∧
  Insert.empty_report !! "total_failed" = None ∧
  Insert.empty_report !! "success_rate" = None ∧
  Insert.empty_report !! "records_per_second" = None ∧
  ∀ (r : string * dict V) (records : list (string * dict V)),
    match Insert.batch_insert_dicts_to_cassandra session_write picks execution_time
            (r :: records) batch_size concurrency retry_delay max_retries with
    | Raised _ => True
    | Returned report =>
        dom report = ({[ "total_records"; "total_successful"; "total_failed"; "success_rate";
                         "execution_time"; "records_per_second"; "tables" ]} : gset string)
    end.
Proof.
  split_and!; try done.
  intros r records. unfold Insert.batch_insert_dicts_to_cassandra.
  destruct (Insert.create_tasks _ _); [|done]. destruct (ThreadPoolExecutor _); [|done].
  unfold Insert.final_stats. cbv zeta. rewrite !dom_insert_L, dom_singleton_L. set_solver.
Qed.

(** C2 fails on the insert worker.  With [max_retries = 0] the retry loop
    has no iteration: the worker returns [(table, 0, 0, [])] for any
    batch, so for a non-empty batch the two counts do not add up to its
    size.  The delete worker returns [(0, len(batch))] in the same
    situation. *)
Theorem insert_worker_without_retries {V R : Type}
    (session_write : @Insert.grouped_write V → option string)
    (session_delete : @Delete.grouped_delete R → option string)
    (retry_delay : Q) (table_name : string)
    (record : dict V) (batch_data : list (dict V)) (batch_num : Z)
    (row : R) (rows_batch : list R) (bid : Delete.batch_id) :
  Insert.execute_table_batch session_write retry_delay 0 table_name
    (record :: batch_data) batch_num
  = ([], Returned (table_name, 0%nat, 0%nat, [])) ∧
  (0 + 0 ≠ length (record :: batch_data))%nat ∧
  Delete.execute_delete_batch session_delete retry_delay 0 (row :: rows_batch) bid
  = ([], Returned (0%nat, length (row :: rows_batch))).
Proof. done. Qed.

(** The same input seen from the report: one record, [max_retries = 0],
    and the record is in neither total. *)
Example report_without_retries :
  ∃ report : gmap string Insert.pyvalue,
    Insert.batch_insert_dicts_to_cassandra (V:=Z) (λ _, None) [] (3 # 2)
      [("events"%string, [("id"%string, 1)])] 100 10 (1 # 2) 0 = Returned report ∧
    report !! "total_records" = Some (Insert.PyInt 1) ∧
    report !! "total_successful" = Some (Insert.PyInt 0) ∧
    report !! "total_failed" = Some (Insert.PyInt 0).
Proof.
  assert (∀ all_tasks,
            Insert.create_tasks 100
              (Insert.group_by_table
                 [("events"%string, ([("id"%string, 1)] : dict Z))])
            = Returned all_tasks →
            Insert.sum_stats Insert.successful
              (Insert.run_tasks (λ _, None) (1 # 2) 0 (as_completed [] all_tasks)) = 0%nat ∧
            Insert.sum_stats Insert.failed
              (Insert.run_tasks (λ _, None) (1 # 2) 0 (as_completed [] all_tasks)) = 0%nat)
    as Hsum.
  { intros all_tasks Hct.
    destruct (run_tasks_sums (V:=Z) (λ _, None) (1 # 2) 0
                (as_completed [] all_tasks)) as [-> ->].
    vm_compute in Hct. injection Hct as <-. by vm_compute. }
  destruct (batch_insert_returns (V:=Z) (λ _, None) [] (3 # 2)
              [("events"%string, [("id"%string, 1)])] 100 10 (1 # 2) 0
              ltac:(discriminate) ltac:(lia) ltac:(lia))
    as (all_tasks & Hct & _ & _ & Hrun).
  destruct (Hsum all_tasks Hct) as [Hs Hf].
  set (stats := Insert.run_tasks (λ _, None) (1 # 2) 0 (as_completed [] all_tasks)) in *.
  destruct (final_stats_lookup (3 # 2) 1 stats) as (Htr & Hts & Htf & _).
  rewrite Hs in Hts. rewrite Hf in Htf.
  eexists. split; [exact Hrun|]. split; [exact Htr|]. split; [exact Hts|exact Htf].
Qed.

(** Both workers count a batch exactly once as soon as there is at least
    one iteration; the delete worker does for every [max_retries]. *)
Lemma batch_workers_count_once {V R : Type}
    (session_write : @Insert.grouped_write V → option string)
    (session_delete : @Delete.grouped_delete R → option string)
    (retry_delay : Q) (max_retries : Z) (table_name : string)
    (batch_data : list (dict V)) (batch_num : Z)
    (rows_batch : list R) (bid : Delete.batch_id) :
  (1 ≤ max_retries →
   ∀ t s f errs,
     (Insert.execute_table_batch session_write retry_delay max_retries table_name
        batch_data batch_num).2 = Returned (t, s, f, errs) →
     (s + f = length batch_data)%nat) ∧
  (∀ s f,
     (Delete.execute_delete_batch session_delete retry_delay max_retries rows_batch bid).2
     = Returned (s, f) →
     (s + f = length rows_batch)%nat).
Proof.
  split.
  - intros Hmr t s f errs Hres.
    apply execute_table_batch_counts in Hres as [[-> ->]|[-> ->]]; [lia|lia|done].
  - intros s f Hres. apply execute_delete_batch_counts in Hres as [[-> ->]|[-> ->]]; lia.
Qed.

Lemma elem_of_concat {A} (x : A) (ls : list (list A)) (l : list A) :
  x ∈ l → l ∈ ls → x ∈ concat ls.
Proof.
  intros Hx Hl. induction Hl as [l ls|l l' ls _ IH]; simpl; apply elem_of_app; auto.
Qed.

Lemma run_tasks_errors {V : Type} (session_write : @Insert.grouped_write V → option string)
    (rd : Q) (mr : Z) (completed : list (@Insert.task V)) (tk : @Insert.task V)
    (err : Insert.error_msg) :
  tk ∈ completed → err ∈ Insert.task_errors session_write rd mr tk →
  err ∈ Insert.errors
          (Insert.stat_of (Insert.run_tasks session_write rd mr completed) (Insert.task_table tk)).
Proof.
  intros Htk Herr.
  destruct (run_tasks_stat session_write rd mr completed (Insert.task_table tk))
    as (_ & _ & _ & ->).
  apply (elem_of_concat _ _ (Insert.task_errors session_write rd mr tk)); [done|].
  apply list_elem_of_fmap. exists tk. split; [done|].
  unfold Insert.tasks_of. by apply list_elem_of_filter.
Qed.

(** Two batches of one record, the session rejecting every write of the
    first: it exhausts its three attempts and the second succeeds; one
    record failed, one inserted, both batches collected, three errors
    recorded. *)
Example one_failed_batch_of_two :
  let session_write : @Insert.grouped_write Z → option string :=
    λ w, if decide (Insert.gw_batch w = 1) then Some "write timeout"%string else None in
  Insert.stat_of
    (Insert.run_tasks session_write (1 # 2) 3
       [Insert.Task "events" [[("id"%string, 1)]] 1;
        Insert.Task "events" [[("id"%string, 2)]] 2]) "events"
  = Insert.TableStat 1 1 2
      [Insert.ErrorMsg "events" 1 1 "write timeout";
       Insert.ErrorMsg "events" 1 2 "write timeout";
       Insert.ErrorMsg "events" 1 3 "write timeout"].
Proof. vm_compute. reflexivity. Qed.

Lemma permanent_failure_linear_backoff_witness :
  let ins := Insert.execute_table_batch (V:=Z) (λ _, Some "write timeout"%string) (1 # 2) 3
               "events" [[("id"%string, 1)]] 1 in
  let del := Delete.execute_delete_batch (R:=nat) (λ _, Some "write timeout"%string) (1 # 2) 3
               [7; 8]%nat (Delete.BatchId "events" 1 1) in
  Insert.attempts_of ins.1 = [0; 1; 2] ∧
  Insert.sleeps_of ins.1 = delays (1 # 2) 0 2 ∧
  Delete.attempts_of del.1 = [0; 1; 2] ∧
  Delete.sleeps_of del.1 = delays (1 # 2) 0 2 ∧
  del.2 = Returned (0%nat, 2%nat).
Proof.
  intros ins del.
  destruct (permanent_failure_linear_backoff (V:=Z) (R:=nat)
              (λ _, Some "write timeout"%string) (λ _, Some "write timeout"%string)
              3 (1 # 2) "events" [[("id"%string, 1)]] 1
              [7; 8]%nat (Delete.BatchId "events" 1 1))
    as ((H1 & H2 & _) & (H3 & H4 & _ & H5) & _).
  - vm_compute. discriminate.
  - intros a _. vm_compute. by eexists.
  - intros a _. vm_compute. by eexists.
  - split; [exact H1|]. split; [exact H2|]. split; [exact H3|]. split; [exact H4|exact H5].
Defined.

(** ** Grouping with a [defaultdict(list)] *)

Section Grouping.

Context {K A : Type} `{EqDecision K}.
Implicit Types (d : list (K * list A)) (k : K) (x : A) (key : A → K).

Lemma dict_get_append k x d k' :
  dict_get k' (dict_append k x d)
  = if decide (k = k') then dict_get k d ++ [x] else dict_get k' d.
Proof.
  induction d as [|[k0 xs] d IH]; simpl.
  - destruct (decide (k = k')); [done|]. done.
  - destruct (decide (k0 = k)) as [->|Hne]; simpl.
    + destruct (decide (k = k')); [done|done].
    + rewrite IH. destruct (decide (k0 = k')) as [->|]; [|done].
      by destruct (decide (k = k')).
Qed.

Lemma dict_append_keys k x d :
  (dict_append k x d).*1 = if decide (k ∈ d.*1) then d.*1 else d.*1 ++ [k].
Proof.
  induction d as [|[k0 xs] d IH]; cbn [dict_append].
  - case_decide as Hin; [by apply elem_of_nil in Hin|done].
  - rewrite (fmap_cons fst (k0, xs) d). cbn [fst].
    destruct (decide (k0 = k)) as [->|Hne].
    + clear IH. rewrite fmap_cons. cbn [fst].
      case_decide as Hn; [done|].
      exfalso. apply Hn, elem_of_cons. by left.
    + rewrite fmap_cons, IH. clear IH. cbn [fst].
      destruct (decide (k ∈ d.*1)) as [Hin|Hnin].
      * case_decide as Hn; [done|].
        exfalso. apply Hn, elem_of_cons. by right.
      * case_decide as Hin; [|done].
        apply elem_of_cons in Hin as [->|]; done.
Qed.

Lemma dict_append_NoDup k x d : NoDup d.*1 → NoDup (dict_append k x d).*1.
Proof.
  intros Hnd. rewrite dict_append_keys. destruct (decide (k ∈ d.*1)); [done|].
  apply NoDup_app. split; [done|]. split; [|apply NoDup_singleton].
  intros k' Hk' ->%list_elem_of_singleton. done.
Qed.

Lemma dict_get_elem k d xs : NoDup d.*1 → (k, xs) ∈ d → dict_get k d = xs.
Proof.
  induction d as [|[k0 ys] d IH]; simpl; intros Hnd Hin; [by apply elem_of_nil in Hin|].
  apply NoDup_cons in Hnd as [Hk0 Hnd].
  apply elem_of_cons in Hin as [[= <- <-]|Hin].
  - by destruct (decide (k = k)).
  - destruct (decide (k0 = k)) as [->|]; [|by apply IH].
    exfalso. apply Hk0. apply list_elem_of_fmap. by exists (k, xs).
Qed.

Lemma dict_get_key k d : dict_get k d ≠ [] → (k, dict_get k d) ∈ d.
Proof.
  induction d as [|[k0 ys] d IH]; simpl; [done|].
  destruct (decide (k0 = k)) as [->|]; intros Hne; apply elem_of_cons;
    [by left|right; by apply IH].
Qed.

Lemma grouped_snoc key l x :
  grouped key (l ++ [x]) = dict_append (key x) x (grouped key l).
Proof. unfold grouped. by rewrite foldl_app. Qed.

Lemma grouped_NoDup key l : NoDup (grouped key l).*1.
Proof.
  induction l as [|x l IH] using rev_ind; [constructor|].
  rewrite grouped_snoc. by apply dict_append_NoDup.
Qed.

(** The group of a key holds, in order, the elements with that key. *)
Lemma grouped_get key l k : dict_get k (grouped key l) = filter (λ x, key x = k) l.
Proof.
  revert k. induction l as [|x l IH] using rev_ind; intros k; [done|].
  rewrite grouped_snoc, dict_get_append, filter_app, filter_cons, filter_nil, !IH.
  destruct (decide (key x = k)) as [->|]; [done|]. by rewrite app_nil_r.
Qed.

Lemma grouped_nonempty key l : Forall (λ kv, kv.2 ≠ []) (grouped key l).
Proof.
  induction l as [|x l IH] using rev_ind; [constructor|].
  rewrite grouped_snoc. generalize (grouped key l) IH. clear IH.
  intros d Hd. induction Hd as [|[k0 xs] d Hx Hd IH]; simpl.
  - by repeat constructor.
  - destruct (decide (k0 = key x)); constructor; simpl; try done.
    by destruct xs.
Qed.

(** The groups: one for every key that occurs, holding the elements
    with that key. *)
Lemma grouped_elem key l k xs :
  (k, xs) ∈ grouped key l ↔ xs = filter (λ x, key x = k) l ∧ xs ≠ [].
Proof.
  split.
  - intros Hin. split.
    + rewrite <- grouped_get. symmetry. apply dict_get_elem; [apply grouped_NoDup|done].
    + pose proof (grouped_nonempty key l) as Hne.
      rewrite Forall_forall in Hne. by apply (Hne (k, xs)).
  - intros [-> Hne]. rewrite <- grouped_get in *. by apply dict_get_key.
Qed.

Lemma grouped_key_of key l x : x ∈ l → ∃ xs, (key x, xs) ∈ grouped key l ∧ x ∈ xs.
Proof.
  intros Hx. exists (filter (λ y, key y = key x) l).
  assert (x ∈ filter (λ y, key y = key x) l) as Hin by by apply list_elem_of_filter.
  split; [|done]. apply grouped_elem. split; [done|]. intros Hnil.
  rewrite Hnil in Hin. by apply elem_of_nil in Hin.
Qed.

(** Two elements with different keys: at least two groups. *)
Lemma grouped_two key l x y : x ∈ l → y ∈ l → key x ≠ key y → (2 ≤ length (grouped key l))%nat.
Proof.
  intros Hx Hy Hne.
  destruct (grouped_key_of key l x Hx) as (xs & Hxs & _).
  destruct (grouped_key_of key l y Hy) as (ys & Hys & _).
  destruct (grouped key l) as [|kv1 [|kv2 d]]; simpl; [|exfalso|lia].
  - by apply elem_of_nil in Hxs.
  - apply list_elem_of_singleton in Hxs, Hys. congruence.
Qed.

End Grouping.

(** ** Column groups of an insert batch *)

Section ColumnGroups.

Import Insert.

Context {V : Type} (session_write : @grouped_write V → option string).
Implicit Types (r : dict V) (batch : list (dict V)).

(** The sorted tuple is a rearrangement of the column names of the
    record, in the order of [sorted]. *)
Lemma columns_key_sorted r : columns_key r ≡ₚ keys r ∧ Sorted str_le (columns_key r).
Proof. split; [apply sorted_perm|apply Sorted_merge_sort, _]. Qed.

Lemma elem_of_column_set r (c : string) : c ∈ column_set r ↔ c ∈ keys r.
Proof. unfold column_set. apply elem_of_list_to_set. Qed.

(** Two records have the same sorted tuple of column names exactly when
    they have the same set of columns, in whatever order each of them
    lists its columns. *)
Lemma columns_key_set r1 r2 :
  is_dict r1 → is_dict r2 →
  columns_key r1 = columns_key r2 ↔ column_set r1 = column_set r2.
Proof.
  intros Hd1 Hd2. unfold columns_key. split.
  - intros Heq. apply set_eq. intros c. rewrite !elem_of_column_set.
    rewrite <- (sorted_perm (keys r1)), <- (sorted_perm (keys r2)). by rewrite Heq.
  - intros Hset. apply sorted_unique. apply NoDup_Permutation; [done|done|].
    intros c. by rewrite <- !elem_of_column_set, Hset.
Qed.

Lemma columns_groups_grouped batch : columns_groups batch = grouped columns_key batch.
Proof. done. Qed.

Lemma run_groups_writes t n a groups :
  writes_of (run_groups session_write t n a groups).1 `prefix_of` group_writes t n a groups ∧
  ((run_groups session_write t n a groups).2 = None ↔
   ∀ w, w ∈ group_writes t n a groups → session_write w = None) ∧
  ((run_groups session_write t n a groups).2 = None →
   writes_of (run_groups session_write t n a groups).1 = group_writes t n a groups).
Proof.
  induction groups as [|[k g] groups (IHp & IHr & IHw)]; cbn [run_groups].
  { split; [done|]. split; [|done]. split; [|done]. intros _ w Hw.
    by apply elem_of_nil in Hw. }
  unfold group_writes. rewrite fmap_cons. fold (group_writes t n a groups). cbn [fst snd].
  destruct (session_write (GroupedWrite t n a k g)) as [e|] eqn:Hw.
  - split; [|split].
    + simpl. by exists (group_writes t n a groups).
    + simpl. split; [done|]. intros Hall.
      rewrite (Hall (GroupedWrite t n a k g)) in Hw; [done|]. apply elem_of_cons. by left.
    + done.
  - destruct (run_groups session_write t n a groups) as [tr r]. simpl in *.
    split; [|split].
    + by apply prefix_cons.
    + rewrite IHr. split.
      * intros Hall w [->|Hin]%elem_of_cons; [done|by apply Hall].
      * intros Hall w Hin. apply Hall, elem_of_cons. by right.
    + intros Hr. by rewrite IHw.
Qed.

End ColumnGroups.

(** ** The insert worker and the session *)

Section InsertWorkerSession.

Import Insert.

Context {V : Type} (session_write : @grouped_write V → option string).
Implicit Types (data : list (dict V)) (groups : list (list string * list (dict V))).

Lemma group_writes_fields t n a groups w :
  w ∈ group_writes t n a groups →
  gw_table w = t ∧ gw_batch w = n ∧ gw_attempt w = a ∧ (gw_columns w, gw_records w) ∈ groups.
Proof.
  unfold group_writes. intros ([k g] & -> & Hin)%list_elem_of_fmap. done.
Qed.

Lemma sent_writes_prefix (ws : list (@grouped_write V)) :
  sent_writes session_write ws `prefix_of` ws.
Proof.
  induction ws as [|w ws IH]; simpl; [done|].
  destruct (session_write w); [|by apply prefix_cons].
  by exists ws.
Qed.

Lemma sent_writes_accepted (ws : list (@grouped_write V)) :
  (∀ w, w ∈ ws → session_write w = None) → sent_writes session_write ws = ws.
Proof.
  induction ws as [|w ws IH]; intros Hall; simpl; [done|].
  rewrite (Hall w) by (apply elem_of_cons; by left).
  rewrite IH; [done|]. intros w' Hw'. apply Hall, elem_of_cons. by right.
Qed.

(** An iteration sends the groups in order until the session rejects
    one. *)
Lemma run_groups_sent t n a groups :
  (run_groups session_write t n a groups).1
  = EvWrite <$> sent_writes session_write (group_writes t n a groups).
Proof.
  induction groups as [|[k g] groups IH]; cbn [run_groups]; [done|].
  unfold group_writes. rewrite fmap_cons. fold (group_writes t n a groups).
  cbn [fst snd sent_writes].
  destruct (session_write (GroupedWrite t n a k g)); [done|].
  destruct (run_groups session_write t n a groups) as [tr r]. simpl in *. by rewrite IH.
Qed.

Lemma writes_of_writes (ws : list (@grouped_write V)) : writes_of (EvWrite <$> ws) = ws.
Proof. induction ws as [|w ws IH]; simpl; [done|]. by f_equal. Qed.

Lemma attempts_of_writes (ws : list (@grouped_write V)) : attempts_of (EvWrite <$> ws) = [].
Proof. induction ws as [|w ws IH]; simpl; done. Qed.

Lemma writes_of_app (tr1 tr2 : list (@event V)) :
  writes_of (tr1 ++ tr2) = writes_of tr1 ++ writes_of tr2.
Proof. apply omap_app. Qed.

(** The grouped writes of a worker: for every iteration it enters, the
    groups of the batch in order, until the session rejects one. *)
Lemma retry_loop_writes rd mr t data n attempts :
  ∀ st,
    let tr := (retry_loop session_write rd mr t data n attempts st).1 in
    writes_of tr
    = concat ((λ a, sent_writes session_write (group_writes t n a (columns_groups data)))
                <$> attempts_of tr).
Proof.
  induction attempts as [|a attempts IH]; intros st; cbn [retry_loop]; [done|].
  pose proof (run_groups_sent t n a (columns_groups data)) as Hsent.
  destruct (run_groups session_write t n a (columns_groups data)) as [writes r].
  simpl in Hsent. subst writes.
  set (ws := sent_writes session_write (group_writes t n a (columns_groups data))).
  assert (∀ tr' : list (@event V),
            writes_of tr' = concat ((λ a, sent_writes session_write
                                            (group_writes t n a (columns_groups data)))
                                      <$> attempts_of tr') →
            writes_of ((EvAttempt a :: (EvWrite <$> ws)) ++ tr')
            = concat ((λ a, sent_writes session_write
                              (group_writes t n a (columns_groups data)))
                        <$> attempts_of ((EvAttempt a :: (EvWrite <$> ws)) ++ tr'))) as Hstep.
  { intros tr' Htr'. rewrite writes_of_app, attempts_of_app, attempts_of_attempt.
    rewrite attempts_of_writes. cbn [app]. rewrite fmap_cons. cbn [concat].
    change (writes_of (EvAttempt a :: (EvWrite <$> ws))) with (writes_of (EvWrite <$> ws)).
    by rewrite writes_of_writes, Htr'. }
  destruct r as [e|].
  - destruct (decide (a = mr - 1)).
    + specialize (IH (Locals (local_successful st) (length data)
                              (local_errors st ++ [ErrorMsg t n (a + 1) e]))).
      destruct (retry_loop _ _ _ _ _ _ attempts _) as [tr' r']. simpl in *. by apply Hstep.
    + destruct (sleep _).
      * specialize (IH (Locals (local_successful st) (local_failed st)
                                (local_errors st ++ [ErrorMsg t n (a + 1) e]))).
        destruct (retry_loop _ _ _ _ _ _ attempts _) as [tr' r']. simpl in IH. cbn [fst].
        change (EvAttempt a :: (EvWrite <$> ws) ++ EvSleep _ :: tr')
          with ((EvAttempt a :: (EvWrite <$> ws)) ++ EvSleep (rd * inject_Z (a + 1))%Q :: tr').
        apply Hstep. done.
      * cbn [fst]. rewrite <- (app_nil_r (EvAttempt a :: _)). by apply Hstep.
  - cbn [fst]. rewrite <- (app_nil_r (EvAttempt a :: _)). by apply Hstep.
Qed.

Lemma columns_groups_nonempty data : data ≠ [] → columns_groups data ≠ [].
Proof.
  destruct data as [|r data]; [done|]. intros _ Hnil.
  destruct (grouped_key_of columns_key (r :: data) r) as (g & Hin & _).
  { apply elem_of_cons. by left. }
  rewrite <- columns_groups_grouped, Hnil in Hin. by apply elem_of_nil in Hin.
Qed.

(** The session rejects every write of the batch: every iteration fails,
    with the text of a write of that iteration. *)
Lemma attempt_rejected tk a :
  task_data tk ≠ [] → rejects_batch session_write tk →
  ∃ e w,
    attempt_result session_write (task_table tk) (task_data tk) (task_batch_num tk) a = Some e ∧
    session_write w = Some e ∧
    gw_table w = task_table tk ∧ gw_batch w = task_batch_num tk ∧ gw_attempt w = a.
Proof.
  intros Hne Hrej. apply columns_groups_nonempty in Hne.
  unfold attempt_result.
  destruct (columns_groups (task_data tk)) as [|[k g] groups]; [done|]. cbn [run_groups].
  destruct (Hrej (GroupedWrite (task_table tk) (task_batch_num tk) a k g)) as [e He];
    [done|done|].
  rewrite He. by exists e, (GroupedWrite (task_table tk) (task_batch_num tk) a k g).
Qed.

Lemma attempt_accepted tk a :
  accepts_batch session_write tk →
  attempt_result session_write (task_table tk) (task_data tk) (task_batch_num tk) a = None.
Proof.
  intros Hacc. unfold attempt_result.
  apply (run_groups_writes session_write). intros w Hw.
  apply group_writes_fields in Hw as (Ht & Hn & _). by apply Hacc.
Qed.

End InsertWorkerSession.

(** ** Retries that end *)

Section RetryOutcomes.

Context {V R : Type}.
Context (session_write : @Insert.grouped_write V → option string).
Context (session_delete : @Delete.grouped_delete R → option string).

Lemma range_split (mr : Z) (k : nat) :
  Z.of_nat k < mr →
  range mr = (Z.of_nat <$> seq 0 (S k)) ++ (Z.of_nat <$> seq (S k) (Z.to_nat mr - S k)).
Proof.
  intros Hk. unfold range. rewrite <- fmap_app, <- seq_app. do 2 f_equal. lia.
Qed.

(** The first [j] iterations from [i] fail and the next one succeeds:
    the insert loop stops there with the batch successful. *)
Lemma retry_loop_succeeds rd mr t data n :
  (0 <= rd)%Q →
  ∀ (j i : nat) rest st,
    Z.of_nat (i + j) < mr →
    (∀ a, Z.of_nat i ≤ a < Z.of_nat (i + j) →
          is_Some (Insert.attempt_result session_write t data n a)) →
    Insert.attempt_result session_write t data n (Z.of_nat (i + j)) = None →
    ∃ tr,
      Insert.retry_loop session_write rd mr t data n
        ((Z.of_nat <$> seq i (S j)) ++ rest) st
      = (tr, Returned
               (Insert.Locals (length data) (Insert.local_failed st)
                  (Insert.local_errors st ++
                     ((λ a : nat, Insert.ErrorMsg t n (Z.of_nat a + 1)
                                    (Insert.attempt_error session_write t data n (Z.of_nat a)))
                        <$> seq i j)))) ∧
      Insert.pacing tr = Insert.linear_backoff rd (Z.of_nat i) (S j).
Proof.
  intros Hrd j. induction j as [|j IH]; intros i rest st Hlt Hfail Hok.
  - replace (i + 0)%nat with i in Hok by lia. simpl. unfold Insert.attempt_result in Hok.
    pose proof (run_groups_pacing session_write t n (Z.of_nat i)
                  (Insert.columns_groups data)) as Hp.
    destruct (Insert.run_groups session_write t n (Z.of_nat i) (Insert.columns_groups data))
      as [writes r]. simpl in Hok, Hp. subst r.
    eexists. split; [by rewrite app_nil_r|]. by rewrite pacing_attempt, Hp.
  - rewrite <- (cons_seq (S j) i), <- (cons_seq j i), !fmap_cons.
    cbn [app Insert.retry_loop].
    pose proof (Hfail (Z.of_nat i) ltac:(lia)) as [e He].
    pose proof (run_groups_pacing session_write t n (Z.of_nat i)
                  (Insert.columns_groups data)) as Hp.
    unfold Insert.attempt_error at 1. rewrite He. unfold Insert.attempt_result in He.
    destruct (Insert.run_groups session_write t n (Z.of_nat i) (Insert.columns_groups data))
      as [writes r]. simpl in He, Hp. subst r. cbn [default].
    destruct (decide (Z.of_nat i = mr - 1)) as [Hlast|_]; [lia|].
    rewrite sleep_nonneg by (apply delay_nonneg; [done|lia]).
    destruct (IH (S i) rest
                (Insert.Locals (Insert.local_successful st) (Insert.local_failed st)
                   (Insert.local_errors st ++ [Insert.ErrorMsg t n (Z.of_nat i + 1) e])))
      as (tr' & Htr' & Hp').
    + lia.
    + intros a Ha. apply Hfail. lia.
    + by replace (S i + j)%nat with (i + S j)%nat by lia.
    + cbn [Insert.local_successful Insert.local_failed Insert.local_errors] in Htr'.
      rewrite Htr'. rewrite <- app_assoc. eexists. split; [done|].
      rewrite pacing_attempt, pacing_app, Hp, pacing_sleep, Hp'.
      replace (Z.of_nat (S i)) with (Z.of_nat i + 1) by lia. done.
Qed.

Lemma delete_retry_loop_succeeds rd mr rows bid :
  (0 <= rd)%Q →
  ∀ (j i : nat) rest,
    Z.of_nat (i + j) < mr →
    (∀ a, Z.of_nat i ≤ a < Z.of_nat (i + j) →
          is_Some (Delete.attempt_result session_delete rows bid a)) →
    Delete.attempt_result session_delete rows bid (Z.of_nat (i + j)) = None →
    ∃ tr,
      Delete.delete_retry_loop session_delete rd mr rows bid
        ((Z.of_nat <$> seq i (S j)) ++ rest)
      = (tr, Returned (length rows, 0%nat)) ∧
      Delete.pacing tr = Delete.linear_backoff rd (Z.of_nat i) (S j).
Proof.
  intros Hrd j. induction j as [|j IH]; intros i rest Hlt Hfail Hok.
  - replace (i + 0)%nat with i in Hok by lia. simpl. unfold Delete.attempt_result in Hok.
    rewrite Hok. by eexists.
  - rewrite <- (cons_seq (S j) i), fmap_cons. cbn [app Delete.delete_retry_loop].
    pose proof (Hfail (Z.of_nat i) ltac:(lia)) as [e He]. unfold Delete.attempt_result in He.
    rewrite He. destruct (decide (Z.of_nat i = mr - 1)) as [Hlast|_]; [lia|].
    rewrite sleep_nonneg by (apply delay_nonneg; [done|lia]).
    destruct (IH (S i) rest) as (tr' & -> & Hp').
    + lia.
    + intros a Ha. apply Hfail. lia.
    + by replace (S i + j)%nat with (i + S j)%nat by lia.
    + eexists. split; [done|].
      change (Delete.pacing (?a :: ?b :: ?c :: tr')) with (a :: c :: Delete.pacing tr').
      rewrite Hp'. replace (Z.of_nat (S i)) with (Z.of_nat i + 1) by lia. done.
Qed.

Lemma negative_delay (rd : Q) (attempt : Z) :
  (rd < 0)%Q → 0 ≤ attempt →
  sleep (rd * inject_Z (attempt + 1)) = Raised (ValueError "sleep length must be non-negative").
Proof.
  intros Hrd Ha. unfold sleep.
  destruct (Qlt_le_dec (rd * inject_Z (attempt + 1)) 0) as [|Hle]; [done|].
  exfalso. apply (Qlt_not_le _ _ Hrd).
  apply (Qmult_le_r _ _ (inject_Z (attempt + 1))).
  - change 0%Q with (inject_Z 0). rewrite <- Zlt_Qlt. lia.
  - by rewrite Qmult_0_l.
Qed.

End RetryOutcomes.

(** ** Batches the session rejects or accepts *)

Section InsertBatchOutcome.

Import Insert.

Context {V : Type} (session_write : @grouped_write V → option string).
Implicit Types (tk : @task V).

(** A batch every write of which the session rejects, with a
    non-negative delay: the worker enters all its iterations and returns
    the batch failed, the last error being that of a write of the last
    iteration. *)
Lemma worker_rejected tk (rd : Q) (mr : Z) :
  task_data tk ≠ [] → 1 ≤ mr → (0 <= rd)%Q → rejects_batch session_write tk →
  let run := execute_table_batch session_write rd mr
               (task_table tk) (task_data tk) (task_batch_num tk) in
  ∃ e w errs,
    run.2 = Returned (task_table tk, 0%nat, length (task_data tk),
                      errs ++ [ErrorMsg (task_table tk) (task_batch_num tk) mr e]) ∧
    Z.of_nat (length errs) = mr - 1 ∧
    session_write w = Some e ∧
    gw_table w = task_table tk ∧ gw_batch w = task_batch_num tk ∧ gw_attempt w = mr - 1 ∧
    attempts_of run.1 = range mr ∧
    exhausts_retries session_write rd mr tk e.
Proof.
  intros Hne Hmr Hrd Hrej run.
  destruct (attempt_rejected session_write tk (mr - 1) Hne Hrej)
    as (e & w & He & Hw & Ht & Hn & Ha).
  destruct (retry_loop_all_fail session_write rd mr (task_table tk) (task_data tk)
              (task_batch_num tk) Hrd (Z.to_nat mr) 0 (Locals 0 0 []))
    as (tr & Hloop & Hp); [lia| |].
  { intros a _. destruct (attempt_rejected session_write tk a Hne Hrej) as (e' & _ & -> & _).
    by eexists. }
  assert (run.1 = tr) as Htr.
  { subst run. unfold execute_table_batch, range. by rewrite Hloop. }
  assert (attempts_of run.1 = range mr) as Hatt.
  { rewrite Htr, <- insert_attempts_of_pacing, Hp, insert_linear_backoff_attempts.
    rewrite range_as_offsets. f_equal. lia. }
  destruct (Z.to_nat mr) as [|k] eqn:Hk; [lia|].
  exists e, w, ((λ a : nat, ErrorMsg (task_table tk) (task_batch_num tk) (Z.of_nat a + 1)
                   (attempt_error session_write (task_table tk) (task_data tk)
                      (task_batch_num tk) (Z.of_nat a))) <$> seq 0 k).
  split_and!; try done.
  - subst run. unfold execute_table_batch, range. rewrite Hk, Hloop. cbn [snd].
    rewrite decide_False by lia. cbn [local_successful local_failed local_errors app].
    rewrite seq_S, fmap_app. cbn [fmap list_fmap plus].
    unfold attempt_error at 2. replace (Z.of_nat k) with (mr - 1) by lia. rewrite He.
    cbn [default]. by replace (mr - 1 + 1) with mr by lia.
  - rewrite length_fmap, length_seq. lia.
  - split; [|done]. fold run. rewrite Hatt. unfold range. apply list_elem_of_fmap.
    exists k. split; [lia|]. apply elem_of_seq. lia.
Qed.

(** Whatever the delay, the batch the session rejects is counted as
    failed and never as successful. *)
Lemma worker_rejected_counts tk (rd : Q) (mr : Z) :
  task_data tk ≠ [] → 1 ≤ mr → rejects_batch session_write tk →
  task_successful session_write rd mr tk = 0%nat ∧
  task_failed session_write rd mr tk = length (task_data tk).
Proof.
  intros Hne Hmr Hrej. unfold task_successful, task_failed, task_result.
  destruct (Qlt_le_dec rd 0) as [Hneg|Hrd].
  - destruct (attempt_rejected session_write tk 0 Hne Hrej) as (e & _ & He & _).
    unfold execute_table_batch. rewrite (range_split mr 0) by lia.
    cbn [seq fmap list_fmap app retry_loop]. unfold attempt_result in He.
    destruct (run_groups _ _ _ _ _) as [writes r]. simpl in He. subst r.
    change (Z.of_nat 0) with 0.
    destruct (decide (0 = mr - 1)) as [Hone|Hmore].
    + replace (Z.to_nat mr - 1)%nat with 0%nat by lia. done.
    + by rewrite (negative_delay rd 0).
  - destruct (worker_rejected tk rd mr Hne Hmr Hrd Hrej) as (e & w & errs & -> & _). done.
Qed.

(** A batch every write of which the session accepts: one iteration,
    one grouped write per column group, the batch successful. *)
Lemma worker_accepted tk (rd : Q) (mr : Z) :
  1 ≤ mr → accepts_batch session_write tk →
  execute_table_batch session_write rd mr (task_table tk) (task_data tk) (task_batch_num tk)
  = (EvAttempt 0 ::
       (EvWrite <$> group_writes (task_table tk) (task_batch_num tk) 0
                      (columns_groups (task_data tk))),
     Returned (task_table tk, length (task_data tk), 0%nat, [])).
Proof.
  intros Hmr Hacc. unfold execute_table_batch. rewrite (range_split mr 0) by lia.
  cbn [seq fmap list_fmap app retry_loop]. change (Z.of_nat 0) with 0.
  pose proof (attempt_accepted session_write tk 0 Hacc) as Hok.
  pose proof (run_groups_sent session_write (task_table tk) (task_batch_num tk) 0
                (columns_groups (task_data tk))) as Hsent.
  unfold attempt_result in Hok.
  destruct (run_groups _ _ _ _ _) as [writes r]. simpl in Hok, Hsent. subst r writes.
  rewrite sent_writes_accepted; [done|].
  intros w (Ht & Hn & _)%group_writes_fields. by apply Hacc.
Qed.

End InsertBatchOutcome.

Section InsertTaskData.

Import Insert.

Context {V : Type}.

(** No task has an empty batch. *)
Lemma create_tasks_nonempty bs (tables_data : list (string * list (dict V))) tasks :
  bs ≠ 0 → create_tasks bs tables_data = Returned tasks →
  Forall (λ tk, task_data tk ≠ []) tasks.
Proof.
  intros Hbs. revert tasks.
  induction tables_data as [|[t d] tables_data IH]; intros tasks; simpl.
  { intros [= <-]. constructor. }
  destruct (table_tasks bs t d) as [ts|x] eqn:Hts; [|done].
  destruct (create_tasks bs tables_data) as [ts'|x]; [|done].
  intros [= <-]. apply Forall_app. split; [|by apply IH].
  destruct (decide (0 < bs)) as [Hpos|Hneg].
  - destruct (table_tasks_pos bs t d Hpos) as (ts0 & Hts0 & _ & Hall).
    rewrite Hts in Hts0. injection Hts0 as <-.
    eapply Forall_impl; [exact Hall|]. intros tk [_ Hlen] Hnil.
    rewrite Hnil in Hlen. simpl in Hlen. lia.
  - rewrite table_tasks_neg in Hts by lia. injection Hts as <-. constructor.
Qed.

End InsertTaskData.

(** C4.  For a non-empty input the call raises only for a configuration
    error (zero batch size, non-positive concurrency), whatever the
    session does to the batches: otherwise it returns the report, in which
    every table has the sums of what all its batches contribute.  A batch
    that exhausts its retries contributes no success, its whole size as
    failed, and the error of its last attempt, which is in the error list
    of its table.  With at least one attempt allowed, a batch every write
    of which the session rejects is never counted successful and always
    counted failed with its whole size; when the delay is not negative it
    exhausts its retries: its worker enters all the iterations
    [0 .. max_retries - 1], and the last error of the batch, recorded for
    its table, carries the text with which the session rejected a write of
    the last iteration.  Beside it, a batch every write of which the
    session accepts is sent at the first iteration, one grouped write per
    column group, and counted successful with its whole size and no
    error. *)
Theorem insert_survives_failed_batches {V : Type}
    (session_write : @Insert.grouped_write V → option string)
    (picks : list nat) (execution_time : Q)
    (records : list (string * dict V)) (batch_size concurrency : Z)
    (retry_delay : Q) (max_retries : Z) :
  records ≠ [] → batch_size ≠ 0 → 0 < concurrency →
  ∃ (all_tasks : list (@Insert.task V)) (stats : gmap string Insert.table_stat),
    Insert.create_tasks batch_size (Insert.group_by_table records) = Returned all_tasks ∧
    Insert.batch_insert_dicts_to_cassandra session_write picks execution_time
      records batch_size concurrency retry_delay max_retries
    = Returned (Insert.final_stats (length records) stats execution_time) ∧
    Insert.final_stats (length records) stats execution_time !! "tables"
    = Some (Insert.PyTables stats) ∧
    (∀ t,
       Insert.successful (Insert.stat_of stats t)
       = sum_list_with (Insert.task_successful session_write retry_delay max_retries)
           (Insert.tasks_of t all_tasks) ∧
       Insert.failed (Insert.stat_of stats t)
       = sum_list_with (Insert.task_failed session_write retry_delay max_retries)
           (Insert.tasks_of t all_tasks) ∧
       Insert.batches (Insert.stat_of stats t)
       = sum_list_with (Insert.task_batches session_write retry_delay max_retries)
           (Insert.tasks_of t all_tasks)) ∧
    (∀ tk e,
       tk ∈ all_tasks →
       Insert.exhausts_retries session_write retry_delay max_retries tk e →
       let last_error :=
         Insert.ErrorMsg (Insert.task_table tk) (Insert.task_batch_num tk) max_retries e in
       Insert.task_successful session_write retry_delay max_retries tk = 0%nat ∧
       Insert.task_failed session_write retry_delay max_retries tk
       = length (Insert.task_data tk) ∧
       Insert.task_batches session_write retry_delay max_retries tk = 1%nat ∧
       last (Insert.task_errors session_write retry_delay max_retries tk) = Some last_error ∧
       last_error ∈ Insert.errors (Insert.stat_of stats (Insert.task_table tk))) ∧
    (∀ tk,
       tk ∈ all_tasks → 1 ≤ max_retries → Insert.rejects_batch session_write tk →
       (0 < length (Insert.task_data tk))%nat ∧
       Insert.task_successful session_write retry_delay max_retries tk = 0%nat ∧
       Insert.task_failed session_write retry_delay max_retries tk
       = length (Insert.task_data tk) ∧
       ((0 <= retry_delay)%Q →
        ∃ e w,
          session_write w = Some e ∧
          Insert.gw_table w = Insert.task_table tk ∧
          Insert.gw_batch w = Insert.task_batch_num tk ∧
          Insert.gw_attempt w = max_retries - 1 ∧
          Insert.exhausts_retries session_write retry_delay max_retries tk e ∧
          Insert.attempts_of
            (Insert.execute_table_batch session_write retry_delay max_retries
               (Insert.task_table tk) (Insert.task_data tk) (Insert.task_batch_num tk)).1
          = range max_retries ∧
          Insert.task_batches session_write retry_delay max_retries tk = 1%nat ∧
          Z.of_nat (length (Insert.task_errors session_write retry_delay max_retries tk))
          = max_retries ∧
          last (Insert.task_errors session_write retry_delay max_retries tk)
          = Some (Insert.ErrorMsg (Insert.task_table tk) (Insert.task_batch_num tk)
                    max_retries e) ∧
          Insert.ErrorMsg (Insert.task_table tk) (Insert.task_batch_num tk) max_retries e
          ∈ Insert.errors (Insert.stat_of stats (Insert.task_table tk)))) ∧
    (∀ tk,
       tk ∈ all_tasks → 1 ≤ max_retries → Insert.accepts_batch session_write tk →
       Insert.writes_of
         (Insert.execute_table_batch session_write retry_delay max_retries
            (Insert.task_table tk) (Insert.task_data tk) (Insert.task_batch_num tk)).1
       = Insert.group_writes (Insert.task_table tk) (Insert.task_batch_num tk) 0
           (Insert.columns_groups (Insert.task_data tk)) ∧
       Insert.task_successful session_write retry_delay max_retries tk
       = length (Insert.task_data tk) ∧
       Insert.task_failed session_write retry_delay max_retries tk = 0%nat ∧
       Insert.task_batches session_write retry_delay max_retries tk = 1%nat ∧
       Insert.task_errors session_write retry_delay max_retries tk = []).
Proof.
  intros Hrec Hbs Hconc.
  destruct (batch_insert_returns session_write picks execution_time records batch_size
              concurrency retry_delay max_retries Hrec Hbs Hconc)
    as (all_tasks & Hct & _ & _ & Hrun).
  set (completed := as_completed picks all_tasks) in *.
  pose proof (create_tasks_nonempty batch_size _ all_tasks Hbs Hct) as Hdata.
  rewrite Forall_forall in Hdata.
  exists all_tasks, (Insert.run_tasks session_write retry_delay max_retries completed).
  split_and!; [done|done|apply final_stats_lookup| | | |].
  - intros t.
    destruct (run_tasks_stat session_write retry_delay max_retries completed t)
      as (-> & -> & -> & _).
    assert (Insert.tasks_of t completed ≡ₚ Insert.tasks_of t all_tasks) as ->; [|done].
    unfold Insert.tasks_of, completed. by rewrite as_completed_perm.
  - intros tk e Htk [Hin He] last_error.
    destruct (execute_table_batch_exhausted session_write retry_delay max_retries
                _ _ _ e He Hin) as [errs Hres].
    unfold Insert.task_successful, Insert.task_failed, Insert.task_batches,
      Insert.task_errors, Insert.task_result.
    assert (last_error ∈ Insert.task_errors session_write retry_delay max_retries tk) as Herr.
    { unfold Insert.task_errors, Insert.task_result. rewrite Hres.
      apply elem_of_app. right. by apply list_elem_of_singleton. }
    rewrite Hres. split_and!; try done.
    + by rewrite last_snoc.
    + apply run_tasks_errors; [|done]. unfold completed. by rewrite as_completed_perm.
  - intros tk Htk Hmr Hrej. pose proof (Hdata tk Htk) as Hne.
    destruct (worker_rejected_counts session_write tk retry_delay max_retries Hne Hmr Hrej)
      as [Hs Hf].
    split_and!; [by destruct (Insert.task_data tk); [|simpl; lia]|done|done|].
    intros Hrd.
    destruct (worker_rejected session_write tk retry_delay max_retries Hne Hmr Hrd Hrej)
      as (e & w & errs & Hres & Hlen & Hw & Ht & Hn & Ha & Hatt & Hex).
    exists e, w.
    assert (Insert.task_errors session_write retry_delay max_retries tk
            = errs ++ [Insert.ErrorMsg (Insert.task_table tk) (Insert.task_batch_num tk)
                         max_retries e]) as Herrs.
    { unfold Insert.task_errors, Insert.task_result. by rewrite Hres. }
    split_and!; try done.
    + unfold Insert.task_batches, Insert.task_result. by rewrite Hres.
    + rewrite Herrs, length_app. simpl. lia.
    + by rewrite Herrs, last_snoc.
    + apply run_tasks_errors; [unfold completed; by rewrite as_completed_perm|].
      rewrite Herrs. apply elem_of_app. right. by apply list_elem_of_singleton.
  - intros tk Htk Hmr Hacc.
    pose proof (worker_accepted session_write tk retry_delay max_retries Hmr Hacc) as Hres.
    unfold Insert.task_successful, Insert.task_failed, Insert.task_batches,
      Insert.task_errors, Insert.task_result.
    rewrite Hres. cbn [fst snd]. split_and!; try done.
    change (Insert.writes_of (Insert.EvAttempt 0 :: ?l)) with (Insert.writes_of l).
    apply writes_of_writes.
Qed.

Lemma insert_survives_failed_batches_witness :
  let session_write : @Insert.grouped_write Z → option string :=
    λ w, if decide (Insert.gw_batch w = 1) then Some "write timeout"%string else None in
  let records := [("events"%string, ([("id"%string, 1)] : dict Z));
                  ("events"%string, [("id"%string, 2)])] in
  ∃ stats : gmap string Insert.table_stat,
    Insert.batch_insert_dicts_to_cassandra session_write [] (3 # 2) records 1 10 (1 # 2) 3
    = Returned (Insert.final_stats (length records) stats (3 # 2)) ∧
    Insert.successful (Insert.stat_of stats "events") = 1%nat ∧
    Insert.failed (Insert.stat_of stats "events") = 1%nat ∧
    Insert.batches (Insert.stat_of stats "events") = 2%nat ∧
    Insert.ErrorMsg "events" 1 3 "write timeout"
    ∈ Insert.errors (Insert.stat_of stats "events").
Proof.
  intros session_write records.
  destruct (insert_survives_failed_batches session_write [] (3 # 2) records 1 10 (1 # 2) 3
              ltac:(discriminate) ltac:(lia) ltac:(lia))
    as (all_tasks & stats & Hct & Hrun & _ & Hsum & _ & Hrej & Hacc).
  vm_compute in Hct. injection Hct as <-.
  match type of Hrej with
  | ∀ tk, tk ∈ [?a; ?b] → _ => set (tk1 := a) in *; set (tk2 := b) in *
  end.
  destruct (Hrej tk1) as (_ & Hs1 & Hf1 & Hlast).
  { apply elem_of_cons. by left. }
  { lia. }
  { intros w _ Hn. unfold session_write. simpl in Hn. rewrite decide_True by done.
    by eexists. }
  destruct Hlast as (e & w & Hw & _ & Hn & _ & _ & _ & Hb1 & _ & _ & Hin).
  { vm_compute. discriminate. }
  assert (e = "write timeout"%string) as ->.
  { unfold session_write in Hw. simpl in Hn. rewrite decide_True in Hw by done. congruence. }
  destruct (Hacc tk2) as (_ & Hs2 & Hf2 & Hb2 & _).
  { apply elem_of_cons. right. apply elem_of_cons. by left. }
  { lia. }
  { intros w' _ Hn'. unfold session_write. simpl in Hn'. by rewrite decide_False by lia. }
  destruct (Hsum "events"%string) as (Hsuc & Hfail & Hbat).
  assert (Insert.tasks_of "events" [tk1; tk2] = [tk1; tk2]) as Htasks by reflexivity.
  rewrite Htasks in Hsuc, Hfail, Hbat.
  change (sum_list_with ?f [tk1; tk2]) with (f tk1 + (f tk2 + 0))%nat in Hsuc, Hfail, Hbat.
  rewrite Hs1, Hs2 in Hsuc. rewrite Hf1, Hf2 in Hfail. rewrite Hb1, Hb2 in Hbat.
  exists stats. split; [exact Hrun|]. split; [exact Hsuc|]. split; [exact Hfail|].
  split; [exact Hbat|exact Hin].
Defined.

Section InsertAttempts.

Import Insert.

Context {V : Type} (session_write : @grouped_write V → option string).

(** An iteration fails as soon as the session rejects the write of one
    of the column groups. *)
Lemma attempt_result_rejected t (data : list (dict V)) n a w :
  w ∈ group_writes t n a (columns_groups data) → is_Some (session_write w) →
  is_Some (attempt_result session_write t data n a).
Proof.
  intros Hin [e He].
  destruct (attempt_result session_write t data n a) as [e'|] eqn:Hres; [by eexists|].
  unfold attempt_result in Hres.
  destruct (run_groups_writes session_write t n a (columns_groups data))
    as (_ & [Hall _] & _).
  rewrite (Hall Hres w Hin) in He. done.
Qed.

End InsertAttempts.

(** C8.  Within one insert batch the records are partitioned by the
    sorted tuple of their column names.  The tuple lists the columns of
    the record in sorted order, whatever the order in which the record
    holds them, so it identifies the set of columns: two records with the
    same column set are in one group, two with different column sets are
    in different groups, and the group of a key holds exactly the records
    with that key.  The worker sends, at every iteration it enters, one
    grouped write per group, in order, until the session rejects one.
    The groups share the retry unit of the batch: when some group is
    rejected at each of the first [k] iterations and all are accepted at
    the next, the worker makes [k + 1] iterations, sends every group
    again at the last one and returns the whole batch successful; when
    some group is rejected at every iteration, it returns the whole batch
    failed.  Three records whose column sets are not all equal give at
    least two groups. *)
Theorem column_set_grouping {V : Type}
    (session_write : @Insert.grouped_write V → option string)
    (retry_delay : Q) (max_retries : Z)
    (table_name : string) (batch_num : Z) (batch_data : list (dict V)) :
  Forall is_dict batch_data →
  let groups := Insert.columns_groups batch_data in
  let writes_at := λ a, Insert.group_writes table_name batch_num a groups in
  let run := Insert.execute_table_batch session_write retry_delay max_retries
               table_name batch_data batch_num in
  (∀ r, r ∈ batch_data →
        Insert.columns_key r ≡ₚ keys r ∧ Sorted str_le (Insert.columns_key r)) ∧
  NoDup groups.*1 ∧
  (∀ k g, (k, g) ∈ groups ↔
          g = filter (λ r, Insert.columns_key r = k) batch_data ∧ g ≠ []) ∧
  (∀ r1 r2, r1 ∈ batch_data → r2 ∈ batch_data →
     (Insert.column_set r1 = Insert.column_set r2 →
      ∃ g, (Insert.columns_key r1, g) ∈ groups ∧ r1 ∈ g ∧ r2 ∈ g) ∧
     (Insert.column_set r1 ≠ Insert.column_set r2 →
      ∀ k g, (k, g) ∈ groups → ¬ (r1 ∈ g ∧ r2 ∈ g))) ∧
  (∀ a w, w ∈ writes_at a ↔
          ∃ k g, (k, g) ∈ groups ∧ w = Insert.GroupedWrite table_name batch_num a k g) ∧
  Insert.writes_of run.1
  = concat ((λ a, Insert.sent_writes session_write (writes_at a))
              <$> Insert.attempts_of run.1) ∧
  (∀ a, Insert.sent_writes session_write (writes_at a) `prefix_of` writes_at a) ∧
  ((0 <= retry_delay)%Q →
   ∀ k : nat,
     Z.of_nat k < max_retries →
     (∀ a, 0 ≤ a < Z.of_nat k → ∃ w, w ∈ writes_at a ∧ is_Some (session_write w)) →
     (∀ w, w ∈ writes_at (Z.of_nat k) → session_write w = None) →
     Insert.attempts_of run.1 = range (Z.of_nat k + 1) ∧
     Insert.sent_writes session_write (writes_at (Z.of_nat k)) = writes_at (Z.of_nat k) ∧
     ∃ errs, run.2 = Returned (table_name, length batch_data, 0%nat, errs) ∧
             length errs = k) ∧
  ((0 <= retry_delay)%Q → 1 ≤ max_retries →
   (∀ a, 0 ≤ a < max_retries → ∃ w, w ∈ writes_at a ∧ is_Some (session_write w)) →
   Insert.attempts_of run.1 = range max_retries ∧
   ∃ errs, run.2 = Returned (table_name, 0%nat, length batch_data, errs) ∧
           Z.of_nat (length errs) = max_retries) ∧
  (∀ r1 r2 r3 : dict V,
     is_dict r1 → is_dict r2 → is_dict r3 →
     ¬ (Insert.column_set r1 = Insert.column_set r2 ∧
        Insert.column_set r2 = Insert.column_set r3) →
     (2 ≤ length (Insert.columns_groups [r1; r2; r3]))%nat).
Proof.
  intros Hdict groups writes_at run. rewrite Forall_forall in Hdict.
  assert (groups = grouped Insert.columns_key batch_data) as Hgroups by done.
  split_and!.
  - intros r _. apply columns_key_sorted.
  - rewrite Hgroups. apply grouped_NoDup.
  - intros k g. rewrite Hgroups. apply grouped_elem.
  - intros r1 r2 H1 H2. rewrite Hgroups. split.
    + intros Hset%columns_key_set; [|by apply Hdict..].
      exists (filter (λ r, Insert.columns_key r = Insert.columns_key r1) batch_data).
      split_and!.
      * apply grouped_elem. split; [done|]. intros Hnil.
        assert (r1 ∈ filter (λ r, Insert.columns_key r = Insert.columns_key r1) batch_data)
          as Hin by by apply list_elem_of_filter.
        rewrite Hnil in Hin. by apply elem_of_nil in Hin.
      * by apply list_elem_of_filter.
      * by apply list_elem_of_filter.
    + intros Hset k g [-> _]%grouped_elem
        [[Hk1 _]%list_elem_of_filter [Hk2 _]%list_elem_of_filter].
      apply Hset, columns_key_set; [by apply Hdict..|]. congruence.
  - intros a w. unfold writes_at, Insert.group_writes. rewrite list_elem_of_fmap. split.
    + intros ([k g] & -> & Hin). by exists k, g.
    + intros (k & g & Hin & ->). by exists (k, g).
  - unfold run, Insert.execute_table_batch.
    pose proof (retry_loop_writes session_write retry_delay max_retries table_name
                  batch_data batch_num (range max_retries) (Insert.Locals 0 0 [])) as Hw.
    destruct (Insert.retry_loop _ _ _ _ _ _ _ _) as [tr r]. exact Hw.
  - intros a. apply sent_writes_prefix.
  - intros Hrd k Hk Hfail Hok.
    destruct (retry_loop_succeeds session_write retry_delay max_retries table_name batch_data
                batch_num Hrd k 0 (Z.of_nat <$> seq (S k) (Z.to_nat max_retries - S k))
                (Insert.Locals 0 0 []))
      as (tr & Hloop & Hp).
    + done.
    + intros a Ha. destruct (Hfail a ltac:(lia)) as (w & Hin & Hw).
      by eapply attempt_result_rejected.
    + unfold Insert.attempt_result.
      destruct (run_groups_writes session_write table_name batch_num (Z.of_nat (0 + k))
                  (Insert.columns_groups batch_data)) as (_ & [_ Hnone] & _).
      by apply Hnone.
    + change (Z.of_nat 0) with 0 in Hp.
      assert (run = (tr, Returned (table_name, length batch_data, 0%nat,
                       (λ a : nat, Insert.ErrorMsg table_name batch_num (Z.of_nat a + 1)
                          (Insert.attempt_error session_write table_name batch_data batch_num
                             (Z.of_nat a))) <$> seq 0 k))) as ->.
      { subst run. unfold Insert.execute_table_batch.
        by rewrite (range_split max_retries k Hk), Hloop. }
      cbn [fst snd]. split_and!.
      * rewrite <- insert_attempts_of_pacing, Hp, insert_linear_backoff_attempts.
        rewrite range_as_offsets. f_equal. lia.
      * by apply sent_writes_accepted.
      * eexists. split; [done|]. by rewrite length_fmap, length_seq.
  - intros Hrd Hmr Hfail.
    destruct (retry_loop_all_fail session_write retry_delay max_retries table_name batch_data
                batch_num Hrd (Z.to_nat max_retries) 0 (Insert.Locals 0 0 []))
      as (tr & Hloop & Hp); [lia| |].
    { intros a Ha. destruct (Hfail a ltac:(lia)) as (w & Hin & Hw).
      by eapply attempt_result_rejected. }
    change (Z.of_nat 0) with 0 in Hp.
    assert (run = (tr, Returned (table_name, 0%nat, length batch_data,
                     (λ a : nat, Insert.ErrorMsg table_name batch_num (Z.of_nat a + 1)
                        (Insert.attempt_error session_write table_name batch_data batch_num
                           (Z.of_nat a))) <$> seq 0 (Z.to_nat max_retries)))) as ->.
    { subst run. unfold Insert.execute_table_batch, range. rewrite Hloop. cbn [snd].
      by rewrite decide_False by lia. }
    cbn [fst snd]. split.
    + rewrite <- insert_attempts_of_pacing, Hp, insert_linear_backoff_attempts.
      rewrite range_as_offsets. f_equal. lia.
    + eexists. split; [done|]. rewrite length_fmap, length_seq. lia.
  - intros r1 r2 r3 Hd1 Hd2 Hd3 Hdiff. rewrite columns_groups_grouped.
    destruct (decide (Insert.column_set r1 = Insert.column_set r2)) as [H12|H12].
    + apply (grouped_two Insert.columns_key [r1; r2; r3] r2 r3).
      * apply elem_of_cons. right. apply elem_of_cons. by left.
      * do 2 (apply elem_of_cons; right). apply elem_of_cons. by left.
      * intros Hk%columns_key_set; [|done..]. by apply Hdiff.
    + apply (grouped_two Insert.columns_key [r1; r2; r3] r1 r2).
      * apply elem_of_cons. by left.
      * apply elem_of_cons. right. apply elem_of_cons. by left.
      * by intros Hk%columns_key_set.
Qed.

Lemma column_set_grouping_witness :
  let r1 : dict Z := [("id"%string, 1)] in
  let r2 : dict Z := [("id"%string, 2); ("name"%string, 3)] in
  let r3 : dict Z := [("name"%string, 4); ("id"%string, 5)] in
  let session_write : @Insert.grouped_write Z → option string :=
    λ w, if decide (Insert.gw_attempt w = 0 ∧ Insert.gw_columns w = ["id"; "name"]%string)
         then Some "write timeout"%string else None in
  let groups := Insert.columns_groups [r1; r2; r3] in
  let run := Insert.execute_table_batch session_write (1 # 2) 3 "events" [r1; r2; r3] 7 in
  (∃ g, (Insert.columns_key r2, g) ∈ groups ∧ r2 ∈ g ∧ r3 ∈ g) ∧
  (∀ k g, (k, g) ∈ groups → ¬ (r1 ∈ g ∧ r2 ∈ g)) ∧
  (2 ≤ length groups)%nat ∧
  Insert.attempts_of run.1 = [0; 1] ∧
  (∃ errs, run.2 = Returned ("events"%string, 3%nat, 0%nat, errs) ∧ length errs = 1%nat).
Proof.
  intros r1 r2 r3 session_write groups run.
  assert (Forall is_dict [r1; r2; r3]) as Hdict.
  { apply Forall_forall. intros r Hr. unfold is_dict.
    repeat (apply elem_of_cons in Hr as [->|Hr]); [..|by apply elem_of_nil in Hr];
      refine (bool_decide_unpack _ _); vm_compute; exact I. }
  destruct (column_set_grouping session_write (1 # 2) 3 "events" 7 [r1; r2; r3] Hdict)
    as (_ & _ & _ & Hsame & _ & _ & _ & Hretry & _ & Htwo).
  assert (r1 ∈ [r1; r2; r3]) as Hin1 by (apply elem_of_cons; by left).
  assert (r2 ∈ [r1; r2; r3]) as Hin2 by (apply elem_of_cons; right; apply elem_of_cons; by left).
  assert (r3 ∈ [r1; r2; r3]) as Hin3 by (do 2 (apply elem_of_cons; right); apply elem_of_cons; by left).
  assert (Insert.column_set r1 ≠ Insert.column_set r2) as Hdiff.
  { intros Heq. assert ("name"%string ∈ Insert.column_set r1) as Hname.
    { rewrite Heq. apply elem_of_column_set. unfold r2, keys. simpl.
      apply elem_of_cons. right. apply elem_of_cons. by left. }
    apply elem_of_column_set in Hname. unfold r1, keys in Hname. simpl in Hname.
    by apply list_elem_of_singleton in Hname. }
  split_and!.
  - apply (Hsame r2 r3 Hin2 Hin3). apply set_eq. intros c.
    rewrite !elem_of_column_set. unfold r2, r3, keys. simpl. rewrite !elem_of_cons. tauto.
  - by apply (Hsame r1 r2 Hin1 Hin2).
  - apply (Htwo r1 r2 r3).
    + apply Forall_inv in Hdict. done.
    + apply Forall_inv_tail, Forall_inv in Hdict. done.
    + apply Forall_inv_tail, Forall_inv_tail, Forall_inv in Hdict. done.
    + intros [Heq _]. done.
  - destruct (Hretry ltac:(vm_compute; discriminate) 1%nat) as (Hatt & _ & _).
    + lia.
    + intros a Ha. assert (a = 0) as -> by lia.
      exists (Insert.GroupedWrite "events" 7 0 ["id"; "name"]%string [r2; r3]).
      split; [|by eexists].
      vm_compute. apply elem_of_cons. right. apply elem_of_cons. by left.
    + intros w Hw. apply group_writes_fields in Hw as (_ & _ & Ha & _).
      unfold session_write. rewrite decide_False; [done|]. rewrite Ha. by intros [? _].
    + exact Hatt.
  - destruct (Hretry ltac:(vm_compute; discriminate) 1%nat) as (_ & _ & Hres).
    + lia.
    + intros a Ha. assert (a = 0) as -> by lia.
      exists (Insert.GroupedWrite "events" 7 0 ["id"; "name"]%string [r2; r3]).
      split; [|by eexists].
      vm_compute. apply elem_of_cons. right. apply elem_of_cons. by left.
    + intros w Hw. apply group_writes_fields in Hw as (_ & _ & Ha & _).
      unfold session_write. rewrite decide_False; [done|]. rewrite Ha. by intros [? _].
    + exact Hres.
Defined.

(** C3 fails as stated for a negative delay and for [max_retries = 0].
    With [max_retries = 3], [retry_delay = -1/2] and a batch whose grouped
    execution fails at every attempt, each worker makes one attempt, not
    three: the sleep that follows raises [ValueError], which ends the
    worker before the batch is marked failed.  With [max_retries = 0] the
    insert worker makes no attempt and returns the batch neither
    successful nor failed. *)
Lemma backoff_needs_delay_and_attempts :
  let session_write : @Insert.grouped_write Z → option string :=
    λ _, Some "write timeout"%string in
  let session_delete : @Delete.grouped_delete nat → option string :=
    λ _, Some "write timeout"%string in
  let ins := Insert.execute_table_batch session_write (-1 # 2) 3 "events"
               [[("id"%string, 1)]] 1 in
  let del := Delete.execute_delete_batch session_delete (-1 # 2) 3 [7%nat]
               (Delete.BatchId "events" 1 1) in
  (∀ a, Insert.attempt_result session_write "events" [[("id"%string, 1)]] 1 a
        = Some "write timeout"%string) ∧
  (∀ a, Delete.attempt_result session_delete [7%nat] (Delete.BatchId "events" 1 1) a
        = Some "write timeout"%string) ∧
  Insert.attempts_of ins.1 = [0] ∧
  length (Insert.attempts_of ins.1) ≠ 3%nat ∧
  Insert.sleeps_of ins.1 = [] ∧
  ins.2 = Raised (ValueError "sleep length must be non-negative") ∧
  Delete.attempts_of del.1 = [0] ∧
  length (Delete.attempts_of del.1) ≠ 3%nat ∧
  Delete.sleeps_of del.1 = [] ∧
  del.2 = Raised (ValueError "sleep length must be non-negative") ∧
  Insert.execute_table_batch session_write (1 # 2) 0 "events" [[("id"%string, 1)]] 1
  = ([], Returned ("events"%string, 0%nat, 0%nat, [])).
Proof. split_and!; try done; by vm_compute. Qed.

(** ** Pages and batches of the multi-table delete *)

Section DeletePages.

Import Delete.

Context {R : Type}.
Context (session_delete : @grouped_delete R → option string).
Context (batch_picks : string → Z → list nat).
Implicit Types (rows : list R) (f : @fetch R) (tr : list (@event R)).

Lemma page_batches_pos t page_num bs rows :
  0 < bs →
  ∃ batches,
    page_batches t page_num bs rows = Returned batches ∧
    concat batches.*1 = rows ∧
    Z.of_nat (length batches) = (Z.of_nat (length rows) + bs - 1) / bs ∧
    ∀ k b, batches !! k = Some b →
      1 ≤ Z.of_nat (length b.1) ≤ bs ∧
      ((k + 1 < length batches)%nat → Z.of_nat (length b.1) = bs) ∧
      b.2 = BatchId t page_num (Z.of_nat k + 1).
Proof.
  intros Hbs. destruct (range_step_chunks rows bs Hbs) as (starts & Hstarts & Hcat & Hlen & Hch).
  unfold page_batches. rewrite Hstarts. eexists. split; [done|].
  cbv zeta in *. rewrite length_fmap. rewrite length_fmap in Hlen.
  setoid_rewrite length_fmap in Hch. split_and!.
  - rewrite <- list_fmap_compose. exact Hcat.
  - done.
  - intros k b. rewrite list_lookup_fmap.
    destruct (starts !! k) as [i|] eqn:Hi; [|done]. simpl. intros [= <-]. simpl.
    destruct (Hch k (slice rows i (i + bs))) as [H1 H2].
    { by rewrite list_lookup_fmap, Hi. }
    split_and!; [lia|lia|done|].
    rewrite range_step_pos in Hstarts by done. injection Hstarts as <-.
    rewrite list_lookup_fmap in Hi.
    destruct (seq 0 _ !! k) as [k'|] eqn:Hk; [|done].
    apply lookup_seq in Hk as [-> _]. simpl in Hi. injection Hi as <-.
    f_equal. rewrite Z.div_mul by lia. done.
Qed.

Lemma page_batches_lengths t page_num bs rows batches :
  page_batches t page_num bs rows = Returned batches →
  (sum_list_with (λ b, length b.1) batches ≤ length rows)%nat ∧
  (0 < bs → sum_list_with (λ b, length b.1) batches = length rows).
Proof.
  intros Hb. destruct (decide (0 < bs)) as [Hpos|Hneg].
  - destruct (page_batches_pos t page_num bs rows Hpos) as (batches' & Hb' & Hcat & _).
    rewrite Hb in Hb'. injection Hb' as <-.
    assert (sum_list_with (λ b, length b.1) batches = length rows) as ->; [|done].
    rewrite <- Hcat at 1. by rewrite length_concat_sum, sum_list_with_fmap.
  - unfold page_batches in Hb. destruct (decide (bs = 0)) as [->|]; [done|].
    rewrite range_step_neg in Hb by lia. injection Hb as <-. simpl. split; lia.
Qed.

(** One page: the count grows by the sizes of the batches whose worker
    reports success, and every grouped delete sent is one of the batches
    given. *)
Lemma run_page_spec rd mr (completed : list (list R * batch_id)) total :
  let '(tr, total') := run_page session_delete rd mr completed total in
  (total ≤ total')%nat ∧
  (total' ≤ total + sum_list_with (λ b, length b.1) completed)%nat ∧
  Forall (λ w, (gd_rows w, gd_batch w) ∈ completed) (deletes_of tr) ∧
  ((∀ rows bid, (execute_delete_batch session_delete rd mr rows bid).2
                = Returned (length rows, 0%nat)) →
   total' = (total + sum_list_with (λ b, length b.1) completed)%nat) ∧
  (1 ≤ mr → (∀ w, session_delete w = None) →
   length (deletes_of tr) = length completed ∧
   gd_rows <$> deletes_of tr = completed.*1).
Proof.
  unfold run_page. induction completed as [|[rows bid] completed IH] using rev_ind.
  { simpl. split_and!; [lia|lia|constructor|intros; lia|done]. }
  rewrite foldl_app. simpl.
  destruct (foldl _ _ completed) as [tr total1].
  destruct IH as (IH1 & IH2 & IH3 & IH4 & IH5).
  destruct (execute_delete_batch session_delete rd mr rows bid) as [tr' r] eqn:Hex.
  rewrite sum_list_with_app. simpl.
  assert (Forall (λ w, (gd_rows w, gd_batch w) ∈ completed ++ [(rows, bid)])
                 (deletes_of (tr ++ tr'))) as Hdel.
  { rewrite deletes_of_app. apply Forall_app. split.
    - eapply Forall_impl; [exact IH3|]. intros w Hw. apply elem_of_app. by left.
    - pose proof (delete_retry_loop_deletes session_delete rd mr rows bid (range mr)) as Hd.
      unfold execute_delete_batch in Hex. rewrite Hex in Hd. simpl in Hd.
      eapply Forall_impl; [exact Hd|]. intros w [-> ->].
      apply elem_of_app. right. by apply list_elem_of_singleton. }
  assert (match r with Returned (s, _) => (s ≤ length rows)%nat | Raised _ => True end) as Hs.
  { destruct r as [[s fl]|x]; [|done].
    assert ((execute_delete_batch session_delete rd mr rows bid).2 = Returned (s, fl)) as Hr
      by by rewrite Hex.
    apply execute_delete_batch_counts in Hr as [[-> _]|[-> _]]; lia. }
  split_and!; [destruct r as [[s fl]|x]; lia|destruct r as [[s fl]|x]; lia|done| |].
  - intros Hall. rewrite (IH4 Hall). specialize (Hall rows bid).
    rewrite Hex in Hall. simpl in Hall. subst r. lia.
  - intros Hmr Hall. destruct (IH5 Hmr Hall) as (Hlen & Hrows).
    rewrite execute_delete_batch_first_try in Hex by (done || apply Hall).
    injection Hex as <- <-. rewrite deletes_of_app, length_app, !fmap_app. simpl.
    rewrite length_app. simpl. split; [lia|by rewrite Hrows].
Qed.

End DeletePages.

Section DeleteScan.

Import Delete.

Context {R : Type}.
Context (session_delete : @grouped_delete R → option string).
Context (batch_picks : string → Z → list nat).
Implicit Types (rows : list R) (f : @fetch R) (tr : list (@event R)).

Lemma page_batches_bid t page_num bs rows batches b :
  page_batches t page_num bs rows = Returned batches → b ∈ batches →
  bid_table b.2 = t ∧ bid_page b.2 = page_num.
Proof.
  unfold page_batches. destruct (range_step _ _) as [starts|x]; [|done].
  intros [= <-] (i & -> & _)%list_elem_of_fmap. done.
Qed.

Lemma process_page_spec t bs conc rd mr page_num rows total :
  match process_page session_delete batch_picks t bs conc rd mr page_num rows total with
  | None => rows = [] ∨ bs = 0 ∨ conc ≤ 0
  | Some (tr, total') =>
      rows ≠ [] ∧ bs ≠ 0 ∧ 0 < conc ∧
      (total ≤ total')%nat ∧ (total' ≤ total + length rows)%nat ∧
      Forall (within_page t bs rows) (deletes_of tr) ∧
      (0 < bs →
       (∀ rows bid, (execute_delete_batch session_delete rd mr rows bid).2
                    = Returned (length rows, 0%nat)) →
       total' = (total + length rows)%nat)
  end.
Proof.
  unfold process_page. destruct rows as [|row rows']; [by left|].
  set (rows := row :: rows').
  destruct (page_batches t page_num bs rows) as [batches|x] eqn:Hb.
  2:{ right. left. unfold page_batches, range_step in Hb.
      destruct (decide (bs = 0)); [done|]. done. }
  unfold ThreadPoolExecutor. destruct (decide (conc ≤ 0)); [by right; right|].
  pose proof (run_page_spec session_delete rd mr
                (as_completed (batch_picks t page_num) batches) total) as Hrun.
  destruct (run_page _ _ _ _ _) as [tr total'].
  destruct Hrun as (H1 & H2 & H3 & H4 & _).
  assert (sum_list_with (λ b : list R * batch_id, length b.1)
            (as_completed (batch_picks t page_num) batches)
          = sum_list_with (λ b, length b.1) batches) as Hsum
    by by rewrite as_completed_perm.
  rewrite Hsum in H2, H4.
  destruct (page_batches_lengths t page_num bs rows batches Hb) as [Hle Heq].
  split_and!; [done| |lia|done|lia| |].
  - intros ->. done.
  - eapply Forall_impl; [exact H3|]. intros w Hw.
    apply (elem_of_Permutation_proper _ _ _
             (as_completed_perm (batch_picks t page_num) batches)) in Hw.
    destruct (page_batches_bid t page_num bs rows batches _ Hb Hw) as [_ Hp]. simpl in Hp.
    exists batches. by rewrite Hp.
  - intros Hbs Hall. rewrite (H4 Hall), Heq by done. done.
Qed.

(** The scan loop of one table: the count grows by at most the rows
    observed, every grouped delete lies within one scanned page, and when
    every grouped delete succeeds the count grows by exactly the rows
    observed. *)
Lemma process_pages_spec t bs conc rd mr f :
  ∀ page_num total,
    let '(tr, total') :=
      process_pages session_delete batch_picks t bs conc rd mr page_num f total in
    (total ≤ total')%nat ∧ (total' ≤ total + rows_observed f)%nat ∧
    Forall (λ w, ∃ rows, rows ∈ pages_scanned f ∧ within_page t bs rows w) (deletes_of tr) ∧
    (0 < bs → 0 < conc →
     (∀ rows bid, (execute_delete_batch session_delete rd mr rows bid).2
                  = Returned (length rows, 0%nat)) →
     total' = (total + rows_observed f)%nat).
Proof.
  unfold rows_observed.
  induction f as [msg|rows|rows next IH]; intros page_num total; cbn [process_pages].
  - simpl. split_and!; [lia|lia|constructor|intros; lia].
  - pose proof (process_page_spec t bs conc rd mr page_num rows total) as Hp.
    destruct (process_page _ _ _ _ _ _ _ _ _ _) as [[tr total']|].
    + destruct Hp as (Hne & _ & _ & H1 & H2 & H3 & H4).
      destruct rows as [|row rows']; [done|]. simpl in *.
      split_and!; [lia|lia| |].
      * eapply Forall_impl; [exact H3|]. intros w Hw. eexists. split; [|exact Hw].
        by apply list_elem_of_singleton.
      * intros Hbs _ Hall. rewrite (H4 Hbs Hall). lia.
    + split_and!; [lia|lia|constructor|].
      intros Hbs Hconc _. destruct Hp as [->|[->|?]]; [simpl|lia|lia]. lia.
  - pose proof (process_page_spec t bs conc rd mr page_num rows total) as Hp.
    destruct (process_page _ _ _ _ _ _ _ _ _ _) as [[tr total']|].
    + destruct Hp as (Hne & _ & _ & H1 & H2 & H3 & H4).
      specialize (IH (page_num + 1) total').
      destruct (process_pages _ _ _ _ _ _ _ _ next total') as [tr' total''].
      destruct IH as (I1 & I2 & I3 & I4).
      destruct rows as [|row rows']; [done|]. simpl in *.
      split_and!; [lia|lia| |].
      * rewrite deletes_of_app. apply Forall_app. split.
        -- eapply Forall_impl; [exact H3|]. intros w Hw. eexists. split; [|exact Hw].
           apply elem_of_cons. by left.
        -- eapply Forall_impl; [exact I3|]. intros w (rows & Hin & Hw).
           exists rows. split; [|done]. apply elem_of_cons. by right.
      * intros Hbs Hconc Hall.
        rewrite (I4 Hbs Hconc Hall), (H4 Hbs Hall). lia.
    + split_and!; [lia|lia|constructor|].
      intros Hbs Hconc _. destruct Hp as [->|[->|?]]; [simpl|lia|lia]. lia.
Qed.

End DeleteScan.

(** C7.  With a positive batch size every scanned page is cut, in order,
    into consecutive batches: as many as the ceiling of the page length
    over the batch size, each of [batch_size] rows except possibly the
    last, which is not empty; together they are the page.  Every grouped
    delete the table sends is one of the batches of one scanned page, so
    no batch straddles a page boundary.  With page size 2 and 5 rows the
    pages have sizes 2, 2, 1 and with batch size 2 the executed batches
    have sizes 2, 2, 1. *)
Theorem page_then_batch_decomposition {R : Type}
    (session_delete : @Delete.grouped_delete R → option string)
    (batch_picks : string → Z → list nat)
    (table_name : string) (batch_size concurrency : Z) (retry_delay : Q) (max_retries : Z)
    (f : @Delete.fetch R) :
  0 < batch_size →
  (∀ (page_num : Z) (rows : list R),
     ∃ batches,
       Delete.page_batches table_name page_num batch_size rows = Returned batches ∧
       concat batches.*1 = rows ∧
       Z.of_nat (length batches) = (Z.of_nat (length rows) + batch_size - 1) / batch_size ∧
       Z.of_nat (length rows) ≤ Z.of_nat (length batches) * batch_size ∧
       Z.of_nat (length batches) * batch_size < Z.of_nat (length rows) + batch_size ∧
       ∀ k b, batches !! k = Some b →
         1 ≤ Z.of_nat (length b.1) ≤ batch_size ∧
         ((k + 1 < length batches)%nat → Z.of_nat (length b.1) = batch_size) ∧
         b.2 = Delete.BatchId table_name page_num (Z.of_nat k + 1)) ∧
  Forall (λ w, ∃ rows, rows ∈ Delete.pages_scanned f ∧
                       Delete.within_page table_name batch_size rows w)
         (Delete.deletes_of
            (Delete.process_pages session_delete batch_picks table_name batch_size
               concurrency retry_delay max_retries 1 f 0).1) ∧
  (∀ r1 r2 r3 r4 r5 : R,
     let scan := Delete.served 2 [r1; r2; r3; r4; r5] in
     length <$> Delete.pages_scanned scan = [2; 2; 1]%nat ∧
     (λ w, length (Delete.gd_rows w))
       <$> Delete.deletes_of
             (Delete.process_pages (λ _, None) (λ _ _, []) table_name 2 10 (1 # 2) 3 1
                scan 0).1
     = [2; 2; 1]%nat).
Proof.
  intros Hbs. split_and!.
  - intros page_num rows.
    destruct (page_batches_pos table_name page_num batch_size rows Hbs)
      as (batches & Hb & Hcat & Hlen & Hk).
    exists batches. split_and!; try done.
    + destruct (ceil_div_bounds (Z.of_nat (length rows)) batch_size) as (_ & H & _); lia.
    + destruct (ceil_div_bounds (Z.of_nat (length rows)) batch_size) as (_ & _ & H); lia.
  - pose proof (process_pages_spec session_delete batch_picks table_name batch_size
                  concurrency retry_delay max_retries f 1 0%nat) as Hspec.
    destruct (Delete.process_pages _ _ _ _ _ _ _ _ _ _) as [tr total].
    by destruct Hspec as (_ & _ & H & _).
  - intros r1 r2 r3 r4 r5 scan. split; [done|]. subst scan. by vm_compute.
Qed.

Lemma page_then_batch_decomposition_witness :
  ∃ batches,
    Delete.page_batches (R:=nat) "events" 1 2 [1; 2; 3; 4; 5]%nat = Returned batches ∧
    concat batches.*1 = [1; 2; 3; 4; 5]%nat ∧
    Z.of_nat (length batches) = 3.
Proof.
  destruct (page_then_batch_decomposition (R:=nat) (λ _, None) (λ _ _, []) "events" 2 10
              (1 # 2) 3 (Delete.LastPage []) ltac:(lia)) as (H & _).
  destruct (H 1 [1; 2; 3; 4; 5]%nat) as (batches & H1 & H2 & H3 & _).
  exists batches. split; [exact H1|]. split; [exact H2|exact H3].
Defined.

(** ** The single-table delete *)

Section DeleteAllRows.

Import Delete.

Context {R : Type}.
Context (session_prepare : string → list string → option string).
Context (session_execute_async : R → Z → option string).
Implicit Types (rows : list R) (f : @fetch R).

Lemma delete_page_fold t pk conc rd mr rows (starts : list Z) :
  ∀ tr0 total,
    (foldl (λ '(tr, total) i,
              let batch := slice rows i (i + conc) in
              let '(tr', futures) :=
                submit_batch session_prepare session_execute_async t pk rd mr batch in
              (tr ++ tr', (total + length batch)%nat))
           (tr0, total) starts).2
    = (total + sum_list_with length ((λ i, slice rows i (i + conc)) <$> starts))%nat.
Proof.
  induction starts as [|i starts IH]; intros tr0 total; simpl; [lia|].
  destruct (submit_batch _ _ _ _ _ _ _) as [tr' futures]. rewrite IH.
  change (list_fmap Z (list R) ?g starts) with (g <$> starts). lia.
Qed.

(** A page of the single-table delete adds its whole length to the
    count as soon as the concurrency is positive, whatever happens to the
    rows. *)
Lemma delete_page_total t pk conc rd mr rows total :
  0 < conc →
  ∃ tr, delete_page session_prepare session_execute_async t pk conc rd mr rows total
        = Returned (tr, (total + length rows)%nat).
Proof.
  intros Hconc. destruct (range_step_chunks rows conc Hconc) as (starts & Hstarts & Hcat & _).
  unfold delete_page. rewrite Hstarts.
  pose proof (delete_page_fold t pk conc rd mr rows starts [] total) as Hfold.
  destruct (foldl _ _ starts) as [tr total']. simpl in Hfold. subst total'.
  exists tr. do 3 f_equal. cbv zeta in Hcat. rewrite <- Hcat at 1.
  by rewrite length_concat_sum.
Qed.

Lemma delete_pages_total t pk conc rd mr f :
  0 < conc →
  ∀ total,
    (delete_pages session_prepare session_execute_async t pk conc rd mr f total).1.2
    = (total + rows_observed f)%nat.
Proof.
  intros Hconc. unfold rows_observed.
  induction f as [msg|rows|rows next IH]; intros total; cbn [delete_pages].
  - simpl. lia.
  - destruct rows as [|row rows']; [simpl; lia|].
    destruct (delete_page_total t pk conc rd mr (row :: rows') total Hconc) as [tr ->].
    simpl. lia.
  - destruct rows as [|row rows']; [simpl; lia|].
    destruct (delete_page_total t pk conc rd mr (row :: rows') total Hconc) as [tr ->].
    specialize (IH (total + length (row :: rows'))%nat).
    destruct (delete_pages _ _ _ _ _ _ _ next _) as [[tr' total'] r]. simpl in *. lia.
Qed.

End DeleteAllRows.

(** ** What the multi-table delete counts *)

Section DeleteCount.

Import Delete.

Context {R : Type}.
Context (session_delete : @grouped_delete R → option string).
Context (batch_picks : string → Z → list nat).
Implicit Types (rows : list R) (f : @fetch R) (b : list R * batch_id).

(** With a non-negative delay the loop goes on until the session
    accepts the grouped delete or the iterations are used up. *)
Lemma delete_retry_loop_accepted rd mr rows bid :
  (0 <= rd)%Q →
  ∀ (m i : nat),
    Z.of_nat (i + m) = mr →
    (delete_retry_loop session_delete rd mr rows bid (Z.of_nat <$> seq i m)).2
    = Returned
        (if bool_decide (Exists (λ a, session_delete (GroupedDelete bid a rows) = None)
                                (Z.of_nat <$> seq i m))
         then (length rows, 0%nat) else (0%nat, length rows)).
Proof.
  intros Hrd m. induction m as [|m IH]; intros i Hm.
  - cbn [seq fmap list_fmap delete_retry_loop snd].
    rewrite bool_decide_eq_false_2; [done|]. by intros ?%Exists_nil.
  - rewrite <- cons_seq, fmap_cons. cbn [delete_retry_loop].
    destruct (session_delete (GroupedDelete bid (Z.of_nat i) rows)) as [e|] eqn:Hw.
    + assert (bool_decide (Exists (λ a, session_delete (GroupedDelete bid a rows) = None)
                             (Z.of_nat i :: (Z.of_nat <$> seq (S i) m)))
              = bool_decide (Exists (λ a, session_delete (GroupedDelete bid a rows) = None)
                               (Z.of_nat <$> seq (S i) m))) as ->.
      { apply bool_decide_ext. rewrite Exists_cons. rewrite Hw.
        split; [by intros [?|?]|by right]. }
      destruct (decide (Z.of_nat i = mr - 1)) as [Hlast|Hmore].
      * assert (m = 0%nat) as -> by lia. cbn [seq fmap list_fmap snd].
        rewrite bool_decide_eq_false_2; [done|]. by intros ?%Exists_nil.
      * rewrite sleep_nonneg by (apply delay_nonneg; [done|lia]).
        specialize (IH (S i) ltac:(lia)).
        destruct (delete_retry_loop _ _ _ _ _ _) as [tr r]. exact IH.
    + cbn [snd]. rewrite bool_decide_eq_true_2; [done|]. by apply Exists_cons_hd.
Qed.

(** What a batch adds to the count: its size when the session accepts
    its grouped delete within the iterations allowed, nothing otherwise. *)
Lemma batch_deleted_accepted rd mr b :
  (0 <= rd)%Q →
  batch_deleted session_delete rd mr b
  = if accepted session_delete mr b then length b.1 else 0%nat.
Proof.
  intros Hrd. unfold batch_deleted, accepted, execute_delete_batch.
  destruct (decide (0 ≤ mr)) as [Hmr|Hneg].
  - unfold range.
    rewrite (delete_retry_loop_accepted rd mr b.1 b.2 Hrd (Z.to_nat mr) 0) by lia.
    by destruct (bool_decide _).
  - rewrite range_nonpos by lia. cbn [delete_retry_loop snd].
    rewrite bool_decide_eq_false_2; [done|]. by intros ?%Exists_nil.
Qed.

Lemma run_page_total rd mr (completed : list (list R * batch_id)) total :
  (run_page session_delete rd mr completed total).2
  = (total + sum_list_with (batch_deleted session_delete rd mr) completed)%nat.
Proof.
  unfold run_page. induction completed as [|[rows bid] completed IH] using rev_ind.
  { simpl. lia. }
  rewrite foldl_app, sum_list_with_app. simpl.
  destruct (foldl _ _ completed) as [tr total1]. simpl in IH. subst total1.
  unfold batch_deleted. simpl.
  destruct (execute_delete_batch session_delete rd mr rows bid) as [tr' [[s fl]|x]]; simpl; lia.
Qed.

(** A non-empty page, with a positive batch size and concurrency: the
    count grows by what the batches of the page add. *)
Lemma process_page_total t bs conc rd mr page_num rows total :
  0 < bs → 0 < conc → rows ≠ [] →
  ∃ tr,
    process_page session_delete batch_picks t bs conc rd mr page_num rows total
    = Some (tr, (total + sum_list_with (batch_deleted session_delete rd mr)
                           (batches_of_page t bs page_num rows))%nat).
Proof.
  intros Hbs Hconc Hne. unfold process_page, batches_of_page.
  destruct rows as [|row rows']; [done|].
  destruct (page_batches_pos t page_num bs (row :: rows') Hbs) as (batches & -> & _).
  unfold ThreadPoolExecutor. rewrite decide_False by lia.
  pose proof (run_page_total rd mr (as_completed (batch_picks t page_num) batches) total)
    as Htotal.
  destruct (run_page _ _ _ _ _) as [tr total']. simpl in Htotal. subst total'.
  exists tr. do 3 f_equal. by rewrite as_completed_perm.
Qed.

Lemma batches_of_page_nil t bs page_num : 0 < bs → batches_of_page (R:=R) t bs page_num [] = [].
Proof.
  intros Hbs. unfold batches_of_page.
  destruct (page_batches_pos t page_num bs ([] : list R) Hbs) as (batches & -> & Hcat & _ & Hk).
  destruct batches as [|b batches]; [done|]. exfalso.
  destruct (Hk 0%nat b eq_refl) as [Hlen _].
  simpl in Hcat. apply app_eq_nil in Hcat as [Hnil _]. rewrite Hnil in Hlen. simpl in Hlen. lia.
Qed.

(** The scan loop: the count grows by what the batches of the scanned
    pages add, page after page. *)
Lemma process_pages_total t bs conc rd mr f :
  0 < bs → 0 < conc →
  ∀ page_num total,
    (process_pages session_delete batch_picks t bs conc rd mr page_num f total).2
    = (total + sum_list_with (batch_deleted session_delete rd mr)
                 (concat (imap (λ i rows, batches_of_page t bs (page_num + Z.of_nat i) rows)
                               (pages_scanned f))))%nat.
Proof.
  intros Hbs Hconc.
  induction f as [msg|rows|rows next IH]; intros page_num total; cbn [process_pages].
  - simpl. lia.
  - destruct rows as [|row rows']; [simpl; lia|].
    destruct (process_page_total t bs conc rd mr page_num (row :: rows') total Hbs Hconc)
      as [tr ->]; [done|].
    cbn [pages_scanned imap concat snd]. rewrite app_nil_r. by rewrite Z.add_0_r.
  - destruct rows as [|row rows']; [simpl; lia|].
    destruct (process_page_total t bs conc rd mr page_num (row :: rows') total Hbs Hconc)
      as [tr ->]; [done|].
    specialize (IH (page_num + 1)
                  (total + sum_list_with (batch_deleted session_delete rd mr)
                             (batches_of_page t bs page_num (row :: rows')))%nat).
    destruct (process_pages _ _ _ _ _ _ _ _ next _) as [tr' total']. simpl in IH. subst total'.
    cbn [pages_scanned imap concat snd]. rewrite sum_list_with_app, Z.add_0_r.
    rewrite <- Nat.add_assoc. do 4 f_equal.
    apply imap_ext. intros i rows _. simpl. f_equal. lia.
Qed.

Lemma batches_of_page_rows t bs page_num rows :
  0 < bs →
  sum_list_with (λ b, length b.1) (batches_of_page t bs page_num rows) = length rows ∧
  Forall (λ b, (0 < length b.1)%nat) (batches_of_page t bs page_num rows).
Proof.
  intros Hbs. unfold batches_of_page.
  destruct (page_batches_pos t page_num bs rows Hbs) as (batches & Hb & _ & _ & Hk).
  destruct (page_batches_lengths t page_num bs rows batches Hb) as [_ Heq].
  rewrite Hb. split; [by apply Heq|].
  apply Forall_lookup. intros k b Hkb. destruct (Hk k b Hkb) as [Hlen _]. lia.
Qed.

(** With a positive batch size the batches of the scanned pages are not
    empty and hold, together, the rows observed. *)
Lemma scanned_batches_rows t bs f :
  0 < bs →
  sum_list_with (λ b, length b.1) (scanned_batches t bs f) = rows_observed f ∧
  Forall (λ b, (0 < length b.1)%nat) (scanned_batches t bs f).
Proof.
  intros Hbs. unfold scanned_batches, rows_observed.
  generalize (pages_scanned f). intros pages.
  assert (∀ p : Z,
            sum_list_with (λ b : list R * batch_id, length b.1)
              (concat (imap (λ i rows, batches_of_page t bs (Z.of_nat i + p) rows) pages))
            = sum_list_with length pages ∧
            Forall (λ b : list R * batch_id, (0 < length b.1)%nat)
              (concat (imap (λ i rows, batches_of_page t bs (Z.of_nat i + p) rows) pages)))
    as Hgen; [|apply Hgen].
  induction pages as [|rows pages IH]; intros p; cbn [imap concat]; [by split|].
  destruct (batches_of_page_rows t bs (Z.of_nat 0 + p) rows Hbs) as [Hsum Hall].
  destruct (IH (p + 1)) as [IHsum IHall].
  assert (imap ((λ i rows0, batches_of_page t bs (Z.of_nat i + p) rows0) ∘ S) pages
          = imap (λ i rows0, batches_of_page t bs (Z.of_nat i + (p + 1)) rows0) pages) as ->.
  { apply imap_ext. intros i rows0 _. simpl. f_equal. lia. }
  split.
  - rewrite sum_list_with_app, Hsum, IHsum. done.
  - by apply Forall_app.
Qed.

Lemma sum_list_with_lt {A} (g h : A → nat) (l : list A) x :
  (∀ y, g y ≤ h y)%nat → x ∈ l → (g x < h x)%nat →
  (sum_list_with g l < sum_list_with h l)%nat.
Proof.
  intros Hle Hin Hlt. induction Hin as [x l|x y l _ IH]; simpl.
  - assert (sum_list_with g l ≤ sum_list_with h l)%nat; [|lia].
    induction l as [|z l IHl]; simpl; [done|]. specialize (Hle z). lia.
  - specialize (Hle y). lia.
Qed.

Lemma sum_list_with_agree {A} (g h : A → nat) (l : list A) :
  (∀ x, x ∈ l → g x = h x) → sum_list_with g l = sum_list_with h l.
Proof.
  induction l as [|x l IH]; intros Heq; simpl; [done|].
  rewrite (Heq x) by (apply elem_of_cons; by left).
  rewrite IH; [done|]. intros y Hy. apply Heq, elem_of_cons. by right.
Qed.

Lemma sum_list_with_split {A} (p : A → bool) (h : A → nat) (l : list A) :
  sum_list_with h l
  = (sum_list_with (λ x, if p x then h x else 0) l
     + sum_list_with (λ x, if p x then 0 else h x) l)%nat.
Proof. induction l as [|x l IH]; simpl; [done|]. destruct (p x); lia. Qed.

End DeleteCount.

(** C6, as the code has it.  The count a table reports in the
    multi-table delete is the number of rows of the batches whose grouped
    delete succeeded.  It is at most the number of rows observed across
    the scanned pages and it is 0 for a table whose scan yields no rows.
    For a known table with a positive batch size and concurrency, the
    batches of the scanned pages hold together the rows observed, and the
    count is the sum of what each of them adds, the rows observed when
    the worker of each returns it successful: with a non-negative delay a
    batch adds its size when the session accepts its grouped delete at
    one of the [max_retries] iterations and nothing otherwise, so that the
    rows observed are the count plus the rows of the batches the session
    never accepts; the count equals the rows observed when every batch of
    the table is accepted and is smaller as soon as one is not.  The
    single-table delete counts every row of every page it reads (line
    347): for a known table with a primary key and a positive concurrency
    its summary is the number of rows observed. *)
Theorem deleted_count_of_table {R : Type}
    (keyspace_tables : gmap string Delete.table_metadata)
    (session_prepare : string → list string → option string)
    (session_select : string → @Delete.fetch R)
    (session_delete : @Delete.grouped_delete R → option string)
    (session_execute_async : R → Z → option string)
    (batch_picks : string → Z → list nat)
    (tables_metadata : gmap string Delete.table_metadata)
    (page_size batch_size concurrency : Z) (retry_delay : Q) (max_retries : Z)
    (table_name : string) :
  let count :=
    (Delete.process_table session_select session_delete batch_picks tables_metadata
       batch_size concurrency retry_delay max_retries table_name).2.2 in
  let scan := session_select table_name in
  let batches := Delete.scanned_batches table_name batch_size scan in
  let accepted := Delete.accepted session_delete max_retries in
  (count ≤ Delete.rows_observed scan)%nat ∧
  (Delete.rows_observed scan = 0%nat → count = 0%nat) ∧
  (is_Some (tables_metadata !! table_name) → 0 < batch_size → 0 < concurrency →
   Delete.rows_observed scan = sum_list_with (λ b, length b.1) batches ∧
   count = sum_list_with (Delete.batch_deleted session_delete retry_delay max_retries)
             batches ∧
   ((∀ b, b ∈ batches →
          (Delete.execute_delete_batch session_delete retry_delay max_retries b.1 b.2).2
          = Returned (length b.1, 0%nat)) →
    count = Delete.rows_observed scan) ∧
   ((0 <= retry_delay)%Q →
    count = sum_list_with (λ b, if accepted b then length b.1 else 0%nat) batches ∧
    Delete.rows_observed scan
    = (count + sum_list_with (λ b, if accepted b then 0%nat else length b.1) batches)%nat ∧
    (Forall (λ b, accepted b = true) batches → count = Delete.rows_observed scan) ∧
    (∀ b, b ∈ batches → accepted b = false →
          (count + length b.1 ≤ Delete.rows_observed scan)%nat ∧
          (count < Delete.rows_observed scan)%nat))) ∧
  (∀ md, keyspace_tables !! table_name = Some md →
         Delete.partition_key md ++ Delete.clustering_key md ≠ [] →
         0 < concurrency →
         (Delete.delete_all_rows keyspace_tables session_prepare session_select
            session_execute_async table_name page_size concurrency retry_delay
            max_retries).2
         = Some (Delete.rows_observed scan)).
Proof.
  intros count scan batches accepted.
  assert (count ≤ Delete.rows_observed scan)%nat as Hle.
  { subst count scan. unfold Delete.process_table.
    destruct (tables_metadata !! table_name) as [md|] eqn:Hmd; simpl; [|lia].
    pose proof (process_pages_spec session_delete batch_picks table_name batch_size
                  concurrency retry_delay max_retries (session_select table_name) 1 0%nat)
      as Hspec.
    destruct (Delete.process_pages _ _ _ _ _ _ _ _ _ _) as [tr total]. simpl.
    destruct Hspec as (_ & H2 & _). lia. }
  split_and!; [done|lia| |].
  - intros [md Hmd] Hbs Hconc.
    destruct (scanned_batches_rows table_name batch_size scan Hbs) as [Hrows Hpos].
    fold batches in Hrows, Hpos.
    assert (count = sum_list_with (Delete.batch_deleted session_delete retry_delay max_retries)
                      batches) as Hcount.
    { subst count. unfold Delete.process_table. rewrite Hmd.
      pose proof (process_pages_total session_delete batch_picks table_name batch_size
                    concurrency retry_delay max_retries scan Hbs Hconc 1 0%nat) as Htotal.
      fold scan. destruct (Delete.process_pages _ _ _ _ _ _ _ _ _ _) as [tr total].
      simpl in *. rewrite Htotal. unfold batches, Delete.scanned_batches. do 2 f_equal.
      apply imap_ext. intros i rows _. simpl. f_equal. lia. }
    split_and!; [done|done| |].
    { intros Hall. rewrite <- Hrows, Hcount. apply sum_list_with_agree.
      intros b Hb. unfold Delete.batch_deleted. by rewrite (Hall b Hb). }
    intros Hrd.
    assert (count = sum_list_with (λ b, if accepted b then length b.1 else 0%nat) batches)
      as Hacc.
    { rewrite Hcount. apply sum_list_with_agree. intros b _.
      by apply batch_deleted_accepted. }
    split_and!; [done| | |].
    + rewrite <- Hrows, Hacc. apply sum_list_with_split.
    + intros Hall. rewrite <- Hrows, Hacc. apply sum_list_with_agree.
      intros b Hb. rewrite Forall_forall in Hall. by rewrite (Hall b Hb).
    + intros b Hb Hrej. rewrite Forall_forall in Hpos. specialize (Hpos b Hb).
      assert (count + length b.1 ≤ Delete.rows_observed scan)%nat; [|lia].
      rewrite <- Hrows, Hacc. clear -Hb Hrej.
      induction Hb as [b l|b b' l _ IH]; simpl.
      * rewrite Hrej.
        assert (sum_list_with (λ b, if accepted b then length b.1 else 0%nat) l
                ≤ sum_list_with (λ b, length b.1) l)%nat; [|lia].
        clear. induction l as [|b l IH]; simpl; [done|]. destruct (accepted b); lia.
      * specialize (IH Hrej). destruct (accepted b'); lia.
  - intros md Hmd Hpk Hconc. unfold Delete.delete_all_rows. rewrite Hmd.
    destruct (Delete.partition_key md ++ Delete.clustering_key md) as [|c pk] eqn:Hcols; [done|].
    pose proof (delete_pages_total session_prepare session_execute_async table_name (c :: pk)
                  concurrency retry_delay max_retries (session_select table_name) Hconc 0%nat)
      as Htotal.
    destruct (Delete.delete_pages _ _ _ _ _ _ _ _ _) as [[tr total] r]. simpl in *.
    by rewrite Htotal.
Qed.

Lemma deleted_count_of_table_witness :
  let session_select : string → @Delete.fetch nat :=
    λ _, Delete.MorePages [1; 2; 3]%nat (Delete.LastPage [4]%nat) in
  let session_delete : @Delete.grouped_delete nat → option string :=
    λ w, if decide (Delete.bid_page (Delete.gd_batch w) = 1 ∧
                    Delete.bid_index (Delete.gd_batch w) = 2)
         then Some "write timeout"%string else None in
  (Delete.process_table session_select session_delete (λ _ _, [])
     {[ "events"%string := Delete.TableMetadata ["id"%string] [] ]}
     2 10 (1 # 2) 3 "events").2.2 = 3%nat ∧
  Delete.rows_observed (session_select "events") = 4%nat.
Proof.
  intros session_select session_delete.
  destruct (deleted_count_of_table (R:=nat) ∅ (λ _ _, None) session_select session_delete
              (λ _ _, None) (λ _ _, [])
              {[ "events"%string := Delete.TableMetadata ["id"%string] [] ]}
              1000 2 10 (1 # 2) 3 "events") as (_ & _ & H & _).
  destruct H as (Hrows & _ & _ & Hacc).
  - eexists. by vm_compute.
  - lia.
  - lia.
  - destruct Hacc as (Hcount & _).
    + vm_compute. discriminate.
    + split; [|done]. rewrite Hcount. by vm_compute.
Defined.

(** C6 fails as stated: a table with one page of one row, whose grouped
    delete fails at every attempt, reports 0 deleted rows although one row
    was observed. *)
Lemma failed_batch_is_not_counted :
  let session_select : string → @Delete.fetch nat := λ _, Delete.LastPage [7%nat] in
  Delete.delete_all_rows_batch_multiple "data_river"
    {[ "events"%string := Delete.TableMetadata ["id"%string] [] ]}
    (λ _ _, None) session_select (λ _, Some "write timeout"%string) [] (λ _ _, [])
    ["events"%string] 1000 100 10 (1 # 2) 3
  = ([], Returned {[ "events"%string := 0%nat ]}) ∧
  Delete.rows_observed (session_select "events") = 1%nat.
Proof. split; [by vm_compute|done]. Qed.

(** ** The multi-table delete *)

Section DeleteMultiple.

Import Delete.

Context {R : Type}.
Context (keyspace : string) (keyspace_tables : gmap string table_metadata).
Context (session_prepare : string → list string → option string).
Context (session_select : string → @fetch R).
Context (session_delete : @grouped_delete R → option string).
Context (table_picks : list nat) (batch_picks : string → Z → list nat).

(** When no [prepare] raises, the preparation loop keeps the metadata of
    the tables it finds and logs one warning for each table it does not
    find. *)
Lemma prepare_tables_ok (table_names : list string) :
  (∀ t md, t ∈ table_names → keyspace_tables !! t = Some md →
           session_prepare t (partition_key md ++ clustering_key md) = None) →
  ∀ acc, ∃ tables_metadata,
    prepare_tables keyspace keyspace_tables session_prepare table_names acc
    = ((λ t, WarnTableNotFound t keyspace)
         <$> filter (λ t, keyspace_tables !! t = None) table_names,
       Returned tables_metadata) ∧
    ∀ t, tables_metadata !! t
         = if decide (t ∈ table_names ∧ is_Some (keyspace_tables !! t))
           then keyspace_tables !! t else acc !! t.
Proof.
  induction table_names as [|name names IH]; intros Hprep acc; cbn [prepare_tables].
  { exists acc. split; [done|]. intros t. case_decide as H; [|done].
    destruct H as [H _]. by apply elem_of_nil in H. }
  assert (∀ t md, t ∈ names → keyspace_tables !! t = Some md →
                  session_prepare t (partition_key md ++ clustering_key md) = None) as Hprep'.
  { intros t md Ht. apply Hprep, elem_of_cons. by right. }
  rewrite filter_cons. destruct (keyspace_tables !! name) as [md|] eqn:Hname.
  - rewrite (Hprep name md) by (done || apply elem_of_cons; by left).
    destruct (IH Hprep' (<[name:=md]> acc)) as (tm & -> & Hlookup).
    exists tm. rewrite decide_False by done. split; [done|].
    intros t. rewrite Hlookup, lookup_insert.
    destruct (decide (t ∈ names ∧ is_Some (keyspace_tables !! t))) as [[Hin Hs]|Hn].
    + rewrite decide_True; [done|]. split; [apply elem_of_cons; by right|done].
    + destruct (decide (name = t)) as [<-|Hne].
      * rewrite decide_True; [by rewrite Hname|].
        split; [apply elem_of_cons; by left|by rewrite Hname].
      * rewrite decide_False; [done|].
        intros [[->|Hin]%elem_of_cons Hs]; [done|]. by apply Hn.
  - destruct (IH Hprep' acc) as (tm & -> & Hlookup).
    exists tm. rewrite decide_True by done. split; [done|].
    intros t. rewrite Hlookup.
    destruct (decide (t ∈ names ∧ is_Some (keyspace_tables !! t))) as [[Hin Hs]|Hn].
    + rewrite decide_True; [done|]. split; [apply elem_of_cons; by right|done].
    + rewrite decide_False; [done|].
      intros [[->|Hin]%elem_of_cons Hs]; [|by apply Hn].
      rewrite Hname in Hs. by destruct Hs.
Qed.

Lemma process_table_name tables_metadata bs conc rd mr t :
  (process_table session_select session_delete batch_picks tables_metadata bs conc rd mr t).2.1
  = t.
Proof.
  unfold process_table. destruct (tables_metadata !! t); [|done].
  by destruct (process_pages _ _ _ _ _ _ _ _ _ _).
Qed.

(** The result mapping has one entry for every table name given: the
    count its [process_table] returns. *)
Lemma results_lookup tables_metadata bs conc rd mr (names : list string) :
  ∀ (init : gmap string nat) t,
    foldl (λ (results : gmap string nat) table_name,
             let '(table_name, deleted_count) :=
               (process_table session_select session_delete batch_picks tables_metadata
                  bs conc rd mr table_name).2 in
             <[table_name := deleted_count]> results) init names !! t
    = if decide (t ∈ names)
      then Some (process_table session_select session_delete batch_picks tables_metadata
                   bs conc rd mr t).2.2
      else init !! t.
Proof.
  induction names as [|name names IH]; intros init t; cbn [foldl].
  { case_decide as H; [by apply elem_of_nil in H|done]. }
  rewrite IH. pose proof (process_table_name tables_metadata bs conc rd mr name) as Hn.
  destruct (process_table _ _ _ _ _ _ _ _ name) as [tr [name' c]] eqn:Hpt.
  simpl in Hn. subst name'. simpl.
  destruct (decide (t ∈ names)) as [Hin|Hnin].
  - rewrite decide_True; [done|]. apply elem_of_cons. by right.
  - rewrite lookup_insert. destruct (decide (name = t)) as [<-|Hne].
    + rewrite decide_True; [by rewrite Hpt|]. apply elem_of_cons. by left.
    + rewrite decide_False; [done|]. by intros [->|Hin]%elem_of_cons.
Qed.

End DeleteMultiple.

(** C5.  In a call of the multi-table delete that is otherwise in order
    (positive concurrency, no statement preparation raising), a table
    name that is absent from the keyspace metadata is logged with a
    warning and reported with the count 0, and every other table named is
    still processed: the call returns a mapping with an entry for every
    name given, the entry of a known table being the count of its own
    scan. *)
Theorem missing_table_is_skipped {R : Type}
    (keyspace : string) (keyspace_tables : gmap string Delete.table_metadata)
    (session_prepare : string → list string → option string)
    (session_select : string → @Delete.fetch R)
    (session_delete : @Delete.grouped_delete R → option string)
    (table_picks : list nat) (batch_picks : string → Z → list nat)
    (table_names : list string) (page_size batch_size concurrency : Z)
    (retry_delay : Q) (max_retries : Z) (missing : string) :
  missing ∈ table_names →
  keyspace_tables !! missing = None →
  0 < concurrency →
  (∀ t md, t ∈ table_names → keyspace_tables !! t = Some md →
           session_prepare t (Delete.partition_key md ++ Delete.clustering_key md) = None) →
  ∃ (log : list Delete.log_record) (results : gmap string nat),
    Delete.delete_all_rows_batch_multiple keyspace keyspace_tables session_prepare
      session_select session_delete table_picks batch_picks table_names
      page_size batch_size concurrency retry_delay max_retries
    = (log, Returned results) ∧
    Delete.WarnTableNotFound missing keyspace ∈ log ∧
    results !! missing = Some 0%nat ∧
    (∀ t, t ∈ table_names → is_Some (keyspace_tables !! t) →
          results !! t
          = Some (Delete.process_pages session_delete batch_picks t batch_size concurrency
                    retry_delay max_retries 1 (session_select t) 0).2) ∧
    (∀ t, is_Some (results !! t) ↔ t ∈ table_names).
Proof.
  intros Hmissing Hnone Hconc Hprep.
  destruct (prepare_tables_ok keyspace keyspace_tables session_prepare table_names Hprep ∅)
    as (tables_metadata & Hpt & Hmd).
  unfold Delete.delete_all_rows_batch_multiple. rewrite Hpt.
  assert (0 < Z.of_nat (length table_names)) as Hlen.
  { destruct table_names; [by apply elem_of_nil in Hmissing|simpl; lia]. }
  unfold ThreadPoolExecutor. rewrite decide_False by lia.
  eexists _, _. split; [done|].
  assert (∀ t, t ∈ as_completed table_picks table_names ↔ t ∈ table_names) as Hperm.
  { intros t. by rewrite as_completed_perm. }
  split_and!.
  - apply list_elem_of_fmap. exists missing. split; [done|]. by apply list_elem_of_filter.
  - rewrite results_lookup, decide_True by by apply Hperm.
    unfold Delete.process_table. rewrite Hmd, decide_False; [done|].
    intros [_ Hs]. rewrite Hnone in Hs. by destruct Hs.
  - intros t Hin [md Hs]. rewrite results_lookup, decide_True by by apply Hperm.
    unfold Delete.process_table. rewrite Hmd, decide_True, Hs by (split; [done|by eexists]).
    by destruct (Delete.process_pages _ _ _ _ _ _ _ _ _ _).
  - intros t. rewrite results_lookup. destruct (decide (t ∈ as_completed _ _)) as [Hin|Hnin].
    + split; [intros _; by apply Hperm|by eexists].
    + rewrite lookup_empty. split; [by intros [? ?]|]. intros Hin. by apply Hperm in Hin.
Qed.

Lemma missing_table_is_skipped_witness :
  ∃ (log : list Delete.log_record) (results : gmap string nat),
    Delete.delete_all_rows_batch_multiple (R:=nat) "data_river"
      {[ "events"%string := Delete.TableMetadata ["id"%string] [] ]}
      (λ _ _, None) (λ _, Delete.LastPage [7%nat]) (λ _, None) [] (λ _ _, [])
      ["ghost"%string; "events"%string] 1000 100 10 (1 # 2) 3
    = (log, Returned results) ∧
    Delete.WarnTableNotFound "ghost" "data_river" ∈ log ∧
    results !! "ghost"%string = Some 0%nat.
Proof.
  destruct (missing_table_is_skipped (R:=nat) "data_river"
              {[ "events"%string := Delete.TableMetadata ["id"%string] [] ]}
              (λ _ _, None) (λ _, Delete.LastPage [7%nat]) (λ _, None) [] (λ _ _, [])
              ["ghost"%string; "events"%string] 1000 100 10 (1 # 2) 3 "ghost")
    as (log & results & H1 & H2 & H3 & _).
  - apply elem_of_cons. by left.
  - by vm_compute.
  - lia.
  - done.
  - exists log, results. split; [exact H1|]. split; [exact H2|exact H3].
Defined.

(** On that input the known table is processed and reports its row. *)
Example missing_table_beside_known_table :
  Delete.delete_all_rows_batch_multiple (R:=nat) "data_river"
    {[ "events"%string := Delete.TableMetadata ["id"%string] [] ]}
    (λ _ _, None) (λ _, Delete.LastPage [7%nat]) (λ _, None) [] (λ _ _, [])
    ["ghost"%string; "events"%string] 1000 100 10 (1 # 2) 3
  = ([Delete.WarnTableNotFound "ghost" "data_river"],
     Returned {[ "ghost"%string := 0%nat; "events"%string := 1%nat ]}).
Proof. by vm_compute. Qed.

(** C9, as the code has it.  An empty table list makes the multi-table
    delete raise [ValueError] before any table is processed (the pool is
    created with [max_workers = min(0, concurrency) = 0]), and so does a
    zero concurrency; a zero concurrency or batch size with a non-empty
    record list makes the insert raise before any batch is dispatched.
    An empty record list does not raise: the insert returns the
    three-key report of line 396. *)
Theorem invalid_parameters {V R : Type}
    (session_write : @Insert.grouped_write V → option string)
    (picks : list nat) (execution_time : Q)
    (keyspace : string) (keyspace_tables : gmap string Delete.table_metadata)
    (session_prepare : string → list string → option string)
    (session_select : string → @Delete.fetch R)
    (session_delete : @Delete.grouped_delete R → option string)
    (table_picks : list nat) (batch_picks : string → Z → list nat)
    (page_size batch_size concurrency : Z) (retry_delay : Q) (max_retries : Z) :
  Delete.delete_all_rows_batch_multiple keyspace keyspace_tables session_prepare
    session_select session_delete table_picks batch_picks []
    page_size batch_size concurrency retry_delay max_retries
  = ([], Raised (ValueError "max_workers must be greater than 0")) ∧
  (∀ table_names,
     is_raised
       (Delete.delete_all_rows_batch_multiple keyspace keyspace_tables session_prepare
          session_select session_delete table_picks batch_picks table_names
          page_size batch_size 0 retry_delay max_retries).2 = true) ∧
  (∀ r records,
     is_raised
       (Insert.batch_insert_dicts_to_cassandra session_write picks execution_time
          (r :: records) batch_size 0 retry_delay max_retries) = true ∧
     is_raised
       (Insert.batch_insert_dicts_to_cassandra session_write picks execution_time
          (r :: records) 0 concurrency retry_delay max_retries) = true) ∧
  Insert.batch_insert_dicts_to_cassandra session_write picks execution_time
    [] batch_size concurrency retry_delay max_retries
  = Returned Insert.empty_report.
Proof.
  split_and!.
  - unfold Delete.delete_all_rows_batch_multiple, ThreadPoolExecutor.
    cbn [Delete.prepare_tables length].
    destruct (decide (Z.of_nat 0 `min` concurrency ≤ 0)); [done|lia].
  - intros table_names. unfold Delete.delete_all_rows_batch_multiple.
    destruct (Delete.prepare_tables _ _ _ _ _) as [log [tm|x]]; simpl; [|done].
    unfold ThreadPoolExecutor.
    destruct (decide (Z.of_nat (length table_names) `min` 0 ≤ 0)); [done|lia].
  - intros r records. split.
    + apply batch_insert_raises; [done|]. right. lia.
    + apply batch_insert_raises; [done|]. by left.
  - done.
Qed.

(** C9 fails as stated: the empty record list raises nothing, a report
    is returned. *)
Lemma empty_records_do_not_raise :
  is_raised
    (Insert.batch_insert_dicts_to_cassandra (V:=Z) (λ _, None) [] (3 # 2) [] 100 10 (1 # 2) 3)
  = false ∧
  Insert.batch_insert_dicts_to_cassandra (V:=Z) (λ _, None) [] (3 # 2) [] 100 10 (1 # 2) 3
  = Returned {[ "total_records" := Insert.PyInt 0;
                "tables" := Insert.PyTables ∅;
                "execution_time" := Insert.PyInt 0 ]}.
Proof. done. Qed.

(** * Further properties of the engine *)

(** ** Accounting of the insert report *)

Section InsertAccounting.

Import Insert.

Context {V : Type} (session_write : @grouped_write V → option string).
Implicit Types (tk : @task V).

(** With at least one iteration a task is counted once, as successful or
    as failed, also when its worker raises. *)
Lemma task_counted_once rd mr tk :
  1 ≤ mr →
  (task_successful session_write rd mr tk + task_failed session_write rd mr tk
   = length (task_data tk))%nat.
Proof.
  intros Hmr. unfold task_successful, task_failed.
  destruct (task_result session_write rd mr tk) as [[[[t s] f] errs]|x] eqn:Hres; [|lia].
  apply execute_table_batch_counts in Hres as [[-> ->]|[-> ->]]; [lia|lia|done].
Qed.

Lemma as_completed_nil {A} (picks : list nat) : as_completed picks ([] : list A) = [].
Proof. by destruct picks. Qed.

Lemma create_tasks_neg bs (tables_data : list (string * list (dict V))) :
  bs < 0 → create_tasks bs tables_data = Returned [].
Proof.
  intros Hbs. induction tables_data as [|[t d] tables_data IH]; simpl; [done|].
  by rewrite table_tasks_neg, IH.
Qed.

(** The tables that have an entry in the statistics are those of the
    collected tasks. *)
Lemma run_tasks_dom rd mr (completed : list task) :
  dom (run_tasks session_write rd mr completed) = list_to_set (task_table <$> completed).
Proof.
  induction completed as [|tk completed IH] using rev_ind; [apply dom_empty_L|].
  rewrite run_tasks_snoc, fmap_app, list_to_set_app_L, <- IH. simpl.
  unfold collect.
  destruct (task_result session_write rd mr tk) as [[[[t s] f] errs]|x] eqn:Hres.
  - apply execute_table_batch_table in Hres as ->.
    rewrite dom_insert_L, union_comm_L. f_equal. symmetry. apply union_empty_r_L.
  - rewrite dom_insert_L, union_comm_L. f_equal. symmetry. apply union_empty_r_L.
Qed.

Lemma concat_Permutation {A} (ls1 ls2 : list (list A)) :
  ls1 ≡ₚ ls2 → concat ls1 ≡ₚ concat ls2.
Proof.
  induction 1 as [|l ls1 ls2 _ IH|l1 l2 ls|ls1 ls2 ls3 _ IH1 _ IH2]; simpl.
  - done.
  - by rewrite IH.
  - rewrite !app_assoc. by rewrite (Permutation_app_comm l1 l2).
  - by rewrite IH1.
Qed.

End InsertAccounting.

(** X1.  No record is lost in the report: with a positive batch size and
    at least one attempt per batch, the successes and the failures of the
    report add up to the number of records given. *)
Theorem insert_report_accounts_for_every_record {V : Type}
    (session_write : @Insert.grouped_write V → option string)
    (picks : list nat) (execution_time : Q)
    (records : list (string * dict V)) (batch_size concurrency : Z)
    (retry_delay : Q) (max_retries : Z) :
  records ≠ [] → 0 < batch_size → 0 < concurrency → 1 ≤ max_retries →
  ∃ (report : gmap string Insert.pyvalue) (s f : nat),
    Insert.batch_insert_dicts_to_cassandra session_write picks execution_time
      records batch_size concurrency retry_delay max_retries = Returned report ∧
    report !! "total_successful" = Some (Insert.PyInt (Z.of_nat s)) ∧
    report !! "total_failed" = Some (Insert.PyInt (Z.of_nat f)) ∧
    report !! "total_records" = Some (Insert.PyInt (Z.of_nat (length records))) ∧
    (s + f = length records)%nat.
Proof.
  intros Hrec Hbs Hconc Hmr.
  assert (∀ tasks : list (@Insert.task V),
            (sum_list_with (Insert.task_successful session_write retry_delay max_retries) tasks
             + sum_list_with (Insert.task_failed session_write retry_delay max_retries) tasks
             = sum_list_with (λ tk, length (Insert.task_data tk)) tasks)%nat) as Hsum.
  { induction tasks as [|tk tasks IH]; simpl; [done|].
    pose proof (task_counted_once session_write retry_delay max_retries tk Hmr). lia. }
  destruct (batch_insert_returns session_write picks execution_time records batch_size
              concurrency retry_delay max_retries Hrec ltac:(lia) Hconc)
    as (all_tasks & _ & _ & Hsize & ->).
  set (stats := Insert.run_tasks _ _ _ _).
  destruct (final_stats_lookup execution_time (length records) stats)
    as (Htr & Hts & Htf & _).
  eexists _, _, _. split_and!; [done|exact Hts|exact Htf|exact Htr|].
  subst stats.
  destruct (run_tasks_sums session_write retry_delay max_retries
              (as_completed picks all_tasks)) as [-> ->].
  rewrite !(as_completed_perm picks all_tasks), <- (Hsize Hbs). apply Hsum.
Qed.

Lemma insert_report_accounts_for_every_record_witness :
  ∃ (report : gmap string Insert.pyvalue) (s f : nat),
    Insert.batch_insert_dicts_to_cassandra (V:=Z)
      (λ w, if decide (Insert.gw_batch w = 1) then Some "write timeout"%string else None)
      [] (3 # 2)
      [("events"%string, [("id"%string, 1)]); ("events"%string, [("id"%string, 2)])]
      1 10 (1 # 2) 3 = Returned report ∧
    report !! "total_successful" = Some (Insert.PyInt (Z.of_nat s)) ∧
    report !! "total_failed" = Some (Insert.PyInt (Z.of_nat f)) ∧
    (s + f = 2)%nat.
Proof.
  destruct (insert_report_accounts_for_every_record (V:=Z)
              (λ w, if decide (Insert.gw_batch w = 1) then Some "write timeout"%string
                    else None)
              [] (3 # 2)
              [("events"%string, [("id"%string, 1)]);
               ("events"%string, [("id"%string, 2)])]
              1 10 (1 # 2) 3 ltac:(discriminate) ltac:(lia) ltac:(lia) ltac:(lia))
    as (report & s & f & H1 & H2 & H3 & _ & H4).
  exists report, s, f. split; [exact H1|]. split; [exact H2|]. split; [exact H3|exact H4].
Defined.

(** X2.  The completion order of the pool does not change what is
    reported: for two orders the call raises or returns alike, every
    scalar field of the report is the same, the same tables have an
    entry, and each table has the same successes, failures and batches and
    the same errors up to their order. *)
Theorem insert_report_independent_of_completion_order {V : Type}
    (session_write : @Insert.grouped_write V → option string)
    (picks1 picks2 : list nat) (execution_time : Q)
    (records : list (string * dict V)) (batch_size concurrency : Z)
    (retry_delay : Q) (max_retries : Z) :
  match
    Insert.batch_insert_dicts_to_cassandra session_write picks1 execution_time
      records batch_size concurrency retry_delay max_retries,
    Insert.batch_insert_dicts_to_cassandra session_write picks2 execution_time
      records batch_size concurrency retry_delay max_retries
  with
  | Returned report1, Returned report2 =>
      (∀ key : string, key ≠ "tables"%string → report1 !! key = report2 !! key) ∧
      (records = [] → report1 = report2) ∧
      (records ≠ [] →
       ∃ stats1 stats2,
         report1 !! "tables" = Some (Insert.PyTables stats1) ∧
         report2 !! "tables" = Some (Insert.PyTables stats2) ∧
         dom stats1 = dom stats2 ∧
         ∀ t, Insert.successful (Insert.stat_of stats1 t)
              = Insert.successful (Insert.stat_of stats2 t) ∧
              Insert.failed (Insert.stat_of stats1 t)
              = Insert.failed (Insert.stat_of stats2 t) ∧
              Insert.batches (Insert.stat_of stats1 t)
              = Insert.batches (Insert.stat_of stats2 t) ∧
              Insert.errors (Insert.stat_of stats1 t)
              ≡ₚ Insert.errors (Insert.stat_of stats2 t))
  | Raised x1, Raised x2 => x1 = x2
  | _, _ => False
  end.
Proof.
  unfold Insert.batch_insert_dicts_to_cassandra.
  destruct records as [|r records]; [done|].
  destruct (Insert.create_tasks _ _) as [all_tasks|x]; [|done].
  destruct (ThreadPoolExecutor concurrency); [|done].
  set (c1 := as_completed picks1 all_tasks). set (c2 := as_completed picks2 all_tasks).
  assert (c1 ≡ₚ c2) as Hperm by (unfold c1, c2; by rewrite !as_completed_perm).
  set (s1 := Insert.run_tasks session_write retry_delay max_retries c1).
  set (s2 := Insert.run_tasks session_write retry_delay max_retries c2).
  assert (Insert.sum_stats Insert.successful s1 = Insert.sum_stats Insert.successful s2 ∧
          Insert.sum_stats Insert.failed s1 = Insert.sum_stats Insert.failed s2) as [Hs Hf].
  { unfold s1, s2.
    destruct (run_tasks_sums session_write retry_delay max_retries c1) as [-> ->].
    destruct (run_tasks_sums session_write retry_delay max_retries c2) as [-> ->].
    by rewrite Hperm. }
  split_and!.
  - intros key Hkey. unfold Insert.final_stats. cbv zeta. rewrite Hs, Hf.
    rewrite !lookup_insert. repeat (case_decide; [done|]).
    rewrite !lookup_singleton. by repeat case_decide.
  - done.
  - intros _. exists s1, s2. split_and!; [apply final_stats_lookup..| |].
    + unfold s1, s2. rewrite !run_tasks_dom. by rewrite Hperm.
    + intros t. unfold s1, s2.
      destruct (run_tasks_stat session_write retry_delay max_retries c1 t)
        as (-> & -> & -> & ->).
      destruct (run_tasks_stat session_write retry_delay max_retries c2 t)
        as (-> & -> & -> & ->).
      assert (Insert.tasks_of t c1 ≡ₚ Insert.tasks_of t c2) as Ht
        by (unfold Insert.tasks_of; by rewrite Hperm).
      split_and!; [by rewrite Ht..|]. apply concat_Permutation. by rewrite Ht.
Qed.

(** X3.  A negative batch size is accepted silently: no batch is
    created, so for any non-empty input (and a positive concurrency) the
    call returns a report without any table, with no success and no
    failure, although nothing was written. *)
Theorem negative_batch_size_inserts_nothing {V : Type}
    (session_write : @Insert.grouped_write V → option string)
    (picks : list nat) (execution_time : Q)
    (records : list (string * dict V)) (batch_size concurrency : Z)
    (retry_delay : Q) (max_retries : Z) :
  records ≠ [] → batch_size < 0 → 0 < concurrency →
  ∃ report : gmap string Insert.pyvalue,
    Insert.batch_insert_dicts_to_cassandra session_write picks execution_time
      records batch_size concurrency retry_delay max_retries = Returned report ∧
    Insert.create_tasks batch_size (Insert.group_by_table records) = Returned [] ∧
    report !! "tables" = Some (Insert.PyTables ∅) ∧
    report !! "total_records" = Some (Insert.PyInt (Z.of_nat (length records))) ∧
    report !! "total_successful" = Some (Insert.PyInt 0) ∧
    report !! "total_failed" = Some (Insert.PyInt 0).
Proof.
  intros Hrec Hbs Hconc.
  destruct (batch_insert_returns session_write picks execution_time records batch_size
              concurrency retry_delay max_retries Hrec ltac:(lia) Hconc)
    as (all_tasks & Hct & _ & _ & ->).
  rewrite create_tasks_neg in Hct by done. injection Hct as <-.
  rewrite as_completed_nil.
  destruct (final_stats_lookup execution_time (length records)
              (Insert.run_tasks session_write retry_delay max_retries []))
    as (Htr & Hts & Htf & _ & _ & _ & Htab).
  eexists. split_and!; [done|by apply create_tasks_neg|exact Htab|exact Htr|exact Hts|exact Htf].
Qed.

Lemma negative_batch_size_inserts_nothing_witness :
  ∃ report : gmap string Insert.pyvalue,
    Insert.batch_insert_dicts_to_cassandra (V:=Z) (λ _, None) [] (3 # 2)
      [("events"%string, [("id"%string, 1)])] (-5) 10 (1 # 2) 3 = Returned report ∧
    report !! "tables" = Some (Insert.PyTables ∅) ∧
    report !! "total_successful" = Some (Insert.PyInt 0).
Proof.
  destruct (negative_batch_size_inserts_nothing (V:=Z) (λ _, None) [] (3 # 2)
              [("events"%string, [("id"%string, 1)])] (-5) 10 (1 # 2) 3
              ltac:(discriminate) ltac:(lia) ltac:(lia))
    as (report & H1 & _ & H2 & _ & H3 & _).
  exists report. split; [exact H1|]. split; [exact H2|exact H3].
Defined.

(** X4.  A batch whose grouped execution fails [k] times and then
    succeeds, with [k < max_retries]: both workers make exactly [k + 1]
    attempts, sleep [retry_delay * 1, ..., retry_delay * k] between them,
    and return the whole batch as successful; the insert worker returns the
    [k] errors of the failed attempts. *)
Theorem success_after_retries {V R : Type}
    (session_write : @Insert.grouped_write V → option string)
    (session_delete : @Delete.grouped_delete R → option string)
    (k : nat) (retry_delay : Q) (max_retries : Z)
    (table_name : string) (batch_data : list (dict V)) (batch_num : Z)
    (rows_batch : list R) (bid : Delete.batch_id) :
  (0 <= retry_delay)%Q →
  Z.of_nat k < max_retries →
  (∀ a, 0 ≤ a < Z.of_nat k →
        is_Some (Insert.attempt_result session_write table_name batch_data batch_num a) ∧
        is_Some (Delete.attempt_result session_delete rows_batch bid a)) →
  Insert.attempt_result session_write table_name batch_data batch_num (Z.of_nat k) = None →
  Delete.attempt_result session_delete rows_batch bid (Z.of_nat k) = None →
  let ins := Insert.execute_table_batch session_write retry_delay max_retries
               table_name batch_data batch_num in
  let del := Delete.execute_delete_batch session_delete retry_delay max_retries
               rows_batch bid in
  (∃ errs, ins.2 = Returned (table_name, length batch_data, 0%nat, errs) ∧ length errs = k) ∧
  Insert.attempts_of ins.1 = range (Z.of_nat (S k)) ∧
  Insert.sleeps_of ins.1 = delays retry_delay 0 k ∧
  del.2 = Returned (length rows_batch, 0%nat) ∧
  Delete.attempts_of del.1 = range (Z.of_nat (S k)) ∧
  Delete.sleeps_of del.1 = delays retry_delay 0 k.
Proof.
  intros Hrd Hk Hfail Hiok Hdok ins del.
  destruct (retry_loop_succeeds session_write retry_delay max_retries table_name batch_data
              batch_num Hrd k 0 (Z.of_nat <$> seq (S k) (Z.to_nat max_retries - S k))
              (Insert.Locals 0 0 []))
    as (itr & Hiloop & Hip); [done|intros a Ha; apply Hfail; lia|done|].
  destruct (delete_retry_loop_succeeds session_delete retry_delay max_retries rows_batch bid
              Hrd k 0 (Z.of_nat <$> seq (S k) (Z.to_nat max_retries - S k)))
    as (dtr & Hdloop & Hdp); [done|intros a Ha; apply Hfail; lia|done|].
  change (Z.of_nat 0) with 0 in Hip, Hdp.
  assert (ins = (itr, Returned (table_name, length batch_data, 0%nat,
                   (λ a : nat, Insert.ErrorMsg table_name batch_num (Z.of_nat a + 1)
                      (Insert.attempt_error session_write table_name batch_data batch_num
                         (Z.of_nat a))) <$> seq 0 k))) as ->.
  { subst ins. unfold Insert.execute_table_batch.
    by rewrite (range_split max_retries k Hk), Hiloop. }
  assert (del = (dtr, Returned (length rows_batch, 0%nat))) as ->.
  { subst del. unfold Delete.execute_delete_batch.
    by rewrite (range_split max_retries k Hk), Hdloop. }
  cbn [fst snd]. split_and!.
  - eexists. split; [done|]. by rewrite length_fmap, length_seq.
  - rewrite <- insert_attempts_of_pacing, Hip, insert_linear_backoff_attempts.
    apply range_as_offsets.
  - rewrite <- insert_sleeps_of_pacing, Hip, insert_linear_backoff_sleeps.
    by replace (S k - 1)%nat with k by lia.
  - done.
  - rewrite <- delete_attempts_of_pacing, Hdp, delete_linear_backoff_attempts.
    apply range_as_offsets.
  - rewrite <- delete_sleeps_of_pacing, Hdp, delete_linear_backoff_sleeps.
    by replace (S k - 1)%nat with k by lia.
Qed.

Lemma success_after_retries_witness :
  let session_write : @Insert.grouped_write Z → option string :=
    λ w, if decide (Insert.gw_attempt w < 2) then Some "write timeout"%string else None in
  let session_delete : @Delete.grouped_delete nat → option string :=
    λ w, if decide (Delete.gd_attempt w < 2) then Some "write timeout"%string else None in
  (Insert.attempts_of
     (Insert.execute_table_batch session_write (1 # 2) 5 "events"
        [[("id"%string, 1)]] 1).1 = [0; 1; 2]) ∧
  (Delete.execute_delete_batch session_delete (1 # 2) 5 [7; 8]%nat
     (Delete.BatchId "events" 1 1)).2 = Returned (2%nat, 0%nat).
Proof.
  intros session_write session_delete.
  destruct (success_after_retries session_write session_delete 2 (1 # 2) 5 "events"
              [[("id"%string, 1)]] 1 [7; 8]%nat (Delete.BatchId "events" 1 1))
    as (_ & H1 & _ & H2 & _).
  - vm_compute. discriminate.
  - lia.
  - intros a Ha. assert (a = 0 ∨ a = 1) as [-> | ->] by lia; split; vm_compute; by eexists.
  - by vm_compute.
  - by vm_compute.
  - split; [exact H1|exact H2].
Defined.

(** X5.  A negative retry delay breaks the retry: when the first attempt
    of a batch fails and another attempt is due ([max_retries >= 2]), the
    worker raises the [ValueError] of [time.sleep] after that one attempt.
    The insert collector then counts the batch as failed without any error
    message and without counting it as a batch; the delete loop counts
    nothing for it. *)
Theorem negative_retry_delay_aborts_retries {V R : Type}
    (session_write : @Insert.grouped_write V → option string)
    (session_delete : @Delete.grouped_delete R → option string)
    (retry_delay : Q) (max_retries : Z)
    (tk : @Insert.task V) (rows_batch : list R) (bid : Delete.batch_id) (total : nat) :
  (retry_delay < 0)%Q → 2 ≤ max_retries →
  is_Some (Insert.attempt_result session_write (Insert.task_table tk) (Insert.task_data tk)
             (Insert.task_batch_num tk) 0) →
  is_Some (Delete.attempt_result session_delete rows_batch bid 0) →
  let ins := Insert.execute_table_batch session_write retry_delay max_retries
               (Insert.task_table tk) (Insert.task_data tk) (Insert.task_batch_num tk) in
  let del := Delete.execute_delete_batch session_delete retry_delay max_retries
               rows_batch bid in
  ins.2 = Raised (ValueError "sleep length must be non-negative") ∧
  Insert.attempts_of ins.1 = [0] ∧
  Insert.task_successful session_write retry_delay max_retries tk = 0%nat ∧
  Insert.task_failed session_write retry_delay max_retries tk
  = length (Insert.task_data tk) ∧
  Insert.task_batches session_write retry_delay max_retries tk = 0%nat ∧
  Insert.task_errors session_write retry_delay max_retries tk = [] ∧
  del = ([Delete.EvAttempt 0; Delete.EvDelete (Delete.GroupedDelete bid 0 rows_batch)],
         Raised (ValueError "sleep length must be non-negative")) ∧
  (Delete.run_page session_delete retry_delay max_retries [(rows_batch, bid)] total).2 = total.
Proof.
  intros Hrd Hmr [ei Hi] [ed Hd] ins del.
  assert (range max_retries = 0 :: (Z.of_nat <$> seq 1 (Z.to_nat max_retries - 1))) as Hrange.
  { rewrite (range_split max_retries 0) by lia. done. }
  pose proof (run_groups_attempts session_write (Insert.task_table tk)
                (Insert.task_batch_num tk) 0 (Insert.columns_groups (Insert.task_data tk)))
    as Hw.
  assert (ins.2 = Raised (ValueError "sleep length must be non-negative") ∧
          Insert.attempts_of ins.1 = [0]) as [Hi2 Hi1].
  { subst ins. unfold Insert.execute_table_batch. rewrite Hrange. cbn [Insert.retry_loop].
    unfold Insert.attempt_result in Hi.
    destruct (Insert.run_groups _ _ _ _ _) as [writes r]. simpl in Hi, Hw. subst r.
    rewrite decide_False by lia. rewrite (negative_delay retry_delay 0) by done.
    simpl. by rewrite Hw. }
  assert (del = ([Delete.EvAttempt 0; Delete.EvDelete (Delete.GroupedDelete bid 0 rows_batch)],
                 Raised (ValueError "sleep length must be non-negative"))) as Hdel.
  { subst del. unfold Delete.execute_delete_batch. rewrite Hrange.
    cbn [Delete.delete_retry_loop]. unfold Delete.attempt_result in Hd. rewrite Hd.
    rewrite decide_False by lia. by rewrite (negative_delay retry_delay 0). }
  unfold Insert.task_successful, Insert.task_failed, Insert.task_batches,
    Insert.task_errors, Insert.task_result.
  fold ins. rewrite Hi2. split_and!; try done.
  unfold Delete.run_page. simpl. fold del. by rewrite Hdel.
Qed.

Lemma negative_retry_delay_aborts_retries_witness :
  (Insert.execute_table_batch (V:=Z) (λ _, Some "write timeout"%string) (-1 # 2) 3 "events"
     [[("id"%string, 1)]] 1).2
  = Raised (ValueError "sleep length must be non-negative").
Proof.
  destruct (negative_retry_delay_aborts_retries (V:=Z) (R:=nat)
              (λ _, Some "write timeout"%string) (λ _, Some "write timeout"%string)
              (-1 # 2) 3 (Insert.Task "events" [[("id"%string, 1)]] 1)
              [7%nat] (Delete.BatchId "events" 1 1) 0) as (H & _).
  - by vm_compute.
  - lia.
  - vm_compute. by eexists.
  - vm_compute. by eexists.
  - exact H.
Defined.

(** ** Layout of the insert tasks *)

Section TaskLayout.

Import Insert.

Context {V : Type}.
Implicit Types (records : list (string * dict V)) (tk : @task V)
  (tables_data : list (string * list (dict V))).

Lemma group_by_table_snoc records t (r : dict V) :
  group_by_table (records ++ [(t, r)]) = dict_append t r (group_by_table records).
Proof. unfold group_by_table. by rewrite foldl_app. Qed.

(** The records of a table, in the order they were given. *)
Lemma group_by_table_get records t :
  dict_get t (group_by_table records) = (filter (λ tr, tr.1 = t) records).*2.
Proof.
  induction records as [|[t' r] records IH] using rev_ind; [done|].
  rewrite group_by_table_snoc, dict_get_append, filter_app, fmap_app, filter_cons, filter_nil.
  simpl. destruct (decide (t' = t)) as [->|]; [by rewrite IH|]. by rewrite app_nil_r.
Qed.

Lemma group_by_table_NoDup records : NoDup (group_by_table records).*1.
Proof.
  induction records as [|[t r] records IH] using rev_ind; [constructor|].
  rewrite group_by_table_snoc. by apply dict_append_NoDup.
Qed.

Lemma dict_get_absent {A} (t : string) (d : list (string * list A)) :
  t ∉ d.*1 → dict_get t d = [].
Proof.
  induction d as [|[t' xs] d IH]; simpl; [done|]. intros Hn.
  destruct (decide (t' = t)) as [->|].
  - exfalso. apply Hn, elem_of_cons. by left.
  - apply IH. intros Hin. apply Hn, elem_of_cons. by right.
Qed.

Lemma table_tasks_table bs t (d : list (dict V)) tasks :
  table_tasks bs t d = Returned tasks → Forall (λ tk, task_table tk = t) tasks.
Proof.
  unfold table_tasks. destruct (range_step _ _) as [starts|x]; [|done].
  intros [= <-]. by apply Forall_fmap, Forall_true.
Qed.

Lemma table_tasks_nil bs t : bs ≠ 0 → table_tasks bs t ([] : list (dict V)) = Returned [].
Proof.
  intros Hbs. destruct (decide (0 < bs)) as [Hpos|Hneg].
  - destruct (table_tasks_pos bs t ([] : list (dict V)) Hpos) as (tasks & -> & Hcat & Hall).
    destruct tasks as [|tk tasks]; [done|]. exfalso.
    apply Forall_cons in Hall as [[_ Hlen] _].
    simpl in Hcat. apply app_eq_nil in Hcat as [Hnil _]. rewrite Hnil in Hlen. simpl in Hlen. lia.
  - apply table_tasks_neg. lia.
Qed.

Lemma tasks_of_all t (tasks : list task) :
  Forall (λ tk, task_table tk = t) tasks → tasks_of t tasks = tasks.
Proof.
  unfold tasks_of. induction 1 as [|tk tasks Htk _ IH]; [done|].
  rewrite filter_cons, decide_True by done. by rewrite IH.
Qed.

Lemma tasks_of_none t t' (tasks : list task) :
  t' ≠ t → Forall (λ tk, task_table tk = t') tasks → tasks_of t tasks = [].
Proof.
  unfold tasks_of. intros Hne. induction 1 as [|tk tasks Htk _ IH]; [done|].
  rewrite filter_cons, decide_False by congruence. done.
Qed.

(** The tasks of a table are those made from its records. *)
Lemma create_tasks_of_table bs tables_data tasks t :
  bs ≠ 0 → NoDup tables_data.*1 →
  create_tasks bs tables_data = Returned tasks →
  table_tasks bs t (dict_get t tables_data) = Returned (tasks_of t tasks).
Proof.
  intros Hbs. revert tasks.
  induction tables_data as [|[t0 d0] tables_data IH]; intros tasks Hnd; simpl.
  { intros [= <-]. by apply table_tasks_nil. }
  apply NoDup_cons in Hnd as [Ht0 Hnd].
  destruct (table_tasks bs t0 d0) as [ts0|x] eqn:Hts0; [|done].
  destruct (create_tasks bs tables_data) as [ts'|x] eqn:Hrec; [|done].
  intros [= <-]. specialize (IH ts' Hnd eq_refl).
  pose proof (table_tasks_table bs t0 d0 ts0 Hts0) as Hall.
  unfold tasks_of in *. rewrite filter_app. fold (tasks_of t ts0) (tasks_of t ts') in *.
  destruct (decide (t0 = t)) as [->|Hne].
  - rewrite tasks_of_all by done. rewrite dict_get_absent in IH by done.
    rewrite table_tasks_nil in IH by done. injection IH as <-. by rewrite app_nil_r.
  - rewrite (tasks_of_none t t0) by done. done.
Qed.

Lemma table_tasks_numbers bs t (d : list (dict V)) tasks :
  0 < bs → table_tasks bs t d = Returned tasks →
  task_batch_num <$> tasks = (λ k : nat, Z.of_nat k + 1) <$> seq 0 (length tasks).
Proof.
  intros Hbs. unfold table_tasks. rewrite range_step_pos by done.
  intros [= <-]. rewrite !length_fmap, length_seq, <- !list_fmap_compose.
  apply list_fmap_ext. intros i k _. simpl. by rewrite Z.div_mul by lia.
Qed.

End TaskLayout.

(** X6.  With a positive batch size the batches of a table, taken in the
    order of their numbers 1, 2, ..., hold exactly the records given for
    that table, in the order they were given: grouping by table and
    cutting into batches neither drops, duplicates nor reorders a record,
    and every batch holds between 1 and [batch_size] records. *)
Theorem insert_batches_keep_table_order {V : Type}
    (records : list (string * dict V)) (batch_size : Z) :
  0 < batch_size →
  ∃ all_tasks : list (@Insert.task V),
    Insert.create_tasks batch_size (Insert.group_by_table records) = Returned all_tasks ∧
    ∀ t,
      concat (Insert.task_data <$> Insert.tasks_of t all_tasks)
      = (filter (λ tr, tr.1 = t) records).*2 ∧
      Insert.task_batch_num <$> Insert.tasks_of t all_tasks
      = (λ k : nat, Z.of_nat k + 1) <$> seq 0 (length (Insert.tasks_of t all_tasks)) ∧
      Forall (λ tk, 1 ≤ Z.of_nat (length (Insert.task_data tk)) ≤ batch_size)
             (Insert.tasks_of t all_tasks).
Proof.
  intros Hbs.
  destruct (create_tasks_size batch_size (Insert.group_by_table records) ltac:(lia))
    as (all_tasks & Hct & _).
  exists all_tasks. split; [done|]. intros t.
  pose proof (create_tasks_of_table batch_size _ all_tasks t ltac:(lia)
                (group_by_table_NoDup records) Hct) as Ht.
  rewrite group_by_table_get in Ht.
  destruct (table_tasks_pos batch_size t (filter (λ tr, tr.1 = t) records).*2 Hbs)
    as (tasks & Htasks & Hcat & Hall).
  rewrite Ht in Htasks. injection Htasks as <-. split_and!.
  - done.
  - by eapply table_tasks_numbers.
  - eapply Forall_impl; [exact Hall|]. by intros tk [_ ?].
Qed.

Lemma insert_batches_keep_table_order_witness :
  ∃ all_tasks : list (@Insert.task Z),
    Insert.create_tasks 2
      (Insert.group_by_table
         [("a"%string, [("id"%string, 1)]); ("b"%string, [("id"%string, 2)]);
          ("a"%string, [("id"%string, 3)]); ("a"%string, [("id"%string, 4)])])
    = Returned all_tasks ∧
    concat (Insert.task_data <$> Insert.tasks_of "a" all_tasks)
    = [[("id"%string, 1)]; [("id"%string, 3)]; [("id"%string, 4)]].
Proof.
  destruct (insert_batches_keep_table_order (V:=Z)
              [("a"%string, [("id"%string, 1)]); ("b"%string, [("id"%string, 2)]);
               ("a"%string, [("id"%string, 3)]); ("a"%string, [("id"%string, 4)])]
              2 ltac:(lia)) as (all_tasks & H1 & H2).
  exists all_tasks. split; [exact H1|]. destruct (H2 "a"%string) as (Heq & _). exact Heq.
Defined.

(** X7.  The adapter for one table: an empty list of dictionaries gives
    the three-key report without raising; otherwise (positive batch size
    and concurrency) the report counts every dictionary and its statistics
    have an entry for the given table and for no other. *)
Theorem single_table_insert {V : Type}
    (session_write : @Insert.grouped_write V → option string)
    (picks : list nat) (execution_time : Q)
    (table_name : string) (data_dicts : list (dict V))
    (batch_size concurrency : Z) (retry_delay : Q) (max_retries : Z) :
  Insert.insert_dict_to_cassandra_batch session_write picks execution_time table_name []
    batch_size concurrency retry_delay max_retries = Returned Insert.empty_report ∧
  (data_dicts ≠ [] → 0 < batch_size → 0 < concurrency →
   ∃ report stats,
     Insert.insert_dict_to_cassandra_batch session_write picks execution_time table_name
       data_dicts batch_size concurrency retry_delay max_retries = Returned report ∧
     report !! "total_records" = Some (Insert.PyInt (Z.of_nat (length data_dicts))) ∧
     report !! "tables" = Some (Insert.PyTables stats) ∧
     dom stats = {[ table_name ]}).
Proof.
  split; [done|]. intros Hne Hbs Hconc. unfold Insert.insert_dict_to_cassandra_batch.
  set (records := (λ data_dict, (table_name, data_dict)) <$> data_dicts).
  assert (records ≠ []) as Hrec by (subst records; by destruct data_dicts).
  destruct (batch_insert_returns session_write picks execution_time records batch_size
              concurrency retry_delay max_retries Hrec ltac:(lia) Hconc)
    as (all_tasks & Hct & _ & Hsize & ->).
  destruct (final_stats_lookup execution_time (length records)
              (Insert.run_tasks session_write retry_delay max_retries
                 (as_completed picks all_tasks)))
    as (Htr & _ & _ & _ & _ & _ & Htab).
  eexists _, _. split; [done|]. split; [|split; [exact Htab|]].
  { rewrite Htr. subst records. by rewrite length_fmap. }
  rewrite run_tasks_dom. apply set_eq. intros t.
  rewrite elem_of_list_to_set, elem_of_singleton, list_elem_of_fmap.
  assert (Forall (λ tk, Insert.task_table tk = table_name) all_tasks) as Hall.
  { apply Forall_forall. intros tk Htk.
    destruct (decide (Insert.task_table tk = table_name)) as [|Hother]; [done|exfalso].
    pose proof (create_tasks_of_table batch_size _ all_tasks (Insert.task_table tk)
                  ltac:(lia) (group_by_table_NoDup records) Hct) as Ht.
    rewrite group_by_table_get in Ht.
    assert (filter (λ tr : string * dict V, tr.1 = Insert.task_table tk) records = [])
      as Hnone.
    { subst records. clear -Hother. induction data_dicts as [|d ds IH]; [done|].
      rewrite fmap_cons, filter_cons. simpl. by rewrite decide_False by congruence. }
    rewrite Hnone, fmap_nil, table_tasks_nil in Ht by lia. injection Ht as Ht.
    assert (tk ∈ Insert.tasks_of (Insert.task_table tk) all_tasks) as Hin
      by (unfold Insert.tasks_of; by apply list_elem_of_filter).
    rewrite <- Ht in Hin. by apply elem_of_nil in Hin. }
  assert (∀ tk, tk ∈ as_completed picks all_tasks ↔ tk ∈ all_tasks) as Hperm.
  { intros tk. by rewrite as_completed_perm. }
  split.
  - intros (tk & -> & Htk%Hperm). rewrite Forall_forall in Hall. by apply Hall.
  - intros ->. destruct all_tasks as [|tk all_tasks].
    + specialize (Hsize Hbs). simpl in Hsize. destruct records; [done|simpl in Hsize; lia].
    + exists tk. apply Forall_cons in Hall as [Htk _]. split; [done|].
      apply Hperm, elem_of_cons. by left.
Qed.

Lemma single_table_insert_witness :
  ∃ report stats,
    Insert.insert_dict_to_cassandra_batch (V:=Z) (λ _, None) [] (3 # 2) "events"
      [[("id"%string, 1)]; [("id"%string, 2)]] 100 10 (1 # 2) 3 = Returned report ∧
    report !! "tables" = Some (Insert.PyTables stats) ∧
    dom stats = {[ "events"%string ]}.
Proof.
  destruct (single_table_insert (V:=Z) (λ _, None) [] (3 # 2) "events"
              [[("id"%string, 1)]; [("id"%string, 2)]] 100 10 (1 # 2) 3)
    as (_ & H).
  destruct (H ltac:(discriminate) ltac:(lia) ltac:(lia)) as (report & stats & H1 & _ & H2 & H3).
  exists report, stats. split; [exact H1|]. split; [exact H2|exact H3].
Defined.

(** ** Outcomes of the single-table delete *)

Section DeleteAllRowsOutcome.

Import Delete.

Context {R : Type}.
Context (session_prepare : string → list string → option string).
Context (session_execute_async : R → Z → option string).
Implicit Types (rows : list R) (f : @fetch R).

Lemma delete_page_neg t pk conc rd mr rows total :
  conc < 0 →
  delete_page session_prepare session_execute_async t pk conc rd mr rows total
  = Returned ([], total).
Proof. intros Hconc. unfold delete_page. by rewrite range_step_neg. Qed.

(** With a positive concurrency the loop ends with the exception of the
    first failing fetch it reaches, or normally. *)
Lemma delete_pages_outcome t pk conc rd mr f :
  0 < conc →
  ∀ total,
    (delete_pages session_prepare session_execute_async t pk conc rd mr f total).2
    = match scan_error f with
      | Some msg => Raised (DriverError msg)
      | None => Returned tt
      end.
Proof.
  intros Hconc. induction f as [msg|rows|rows next IH]; intros total; cbn [delete_pages].
  - done.
  - destruct rows as [|row rows']; [done|].
    by destruct (delete_page_total session_prepare session_execute_async t pk conc rd mr
                   (row :: rows') total Hconc) as [tr ->].
  - destruct rows as [|row rows']; [done|].
    destruct (delete_page_total session_prepare session_execute_async t pk conc rd mr
                (row :: rows') total Hconc) as [tr ->].
    specialize (IH (total + length (row :: rows'))%nat).
    destruct (delete_pages _ _ _ _ _ _ _ next _) as [[tr' total'] r]. done.
Qed.

(** With a negative concurrency no batch is formed: nothing is counted
    and nothing is sent, page after page. *)
Lemma delete_pages_neg t pk conc rd mr f :
  conc < 0 →
  ∀ total,
    delete_pages session_prepare session_execute_async t pk conc rd mr f total
    = ([], total, match scan_error f with
                  | Some msg => Raised (DriverError msg)
                  | None => Returned tt
                  end).
Proof.
  intros Hconc. induction f as [msg|rows|rows next IH]; intros total; cbn [delete_pages].
  - done.
  - destruct rows as [|row rows']; [done|]. by rewrite delete_page_neg.
  - destruct rows as [|row rows']; [done|]. rewrite delete_page_neg by done.
    by rewrite IH.
Qed.

Lemma submit_batch_no_retries t pk rd mr (batch : list R) :
  mr ≤ 0 →
  submit_batch session_prepare session_execute_async t pk rd mr batch = ([], []).
Proof.
  intros Hmr. induction batch as [|row batch IH]; [done|].
  cbn [submit_batch]. rewrite IH. destruct (session_prepare t pk); [done|].
  by rewrite range_nonpos.
Qed.

Lemma delete_page_no_retries t pk conc rd mr rows total :
  mr ≤ 0 → 0 < conc →
  delete_page session_prepare session_execute_async t pk conc rd mr rows total
  = Returned ([], (total + length rows)%nat).
Proof.
  intros Hmr Hconc.
  destruct (delete_page_total session_prepare session_execute_async t pk conc rd mr
              rows total Hconc) as [tr Heq].
  rewrite Heq. do 3 f_equal. unfold delete_page in Heq.
  destruct (range_step _ _) as [starts|x]; [|done]. injection Heq as Heq.
  assert (∀ tr0 total0,
            (foldl (λ '(tr, total) i,
                      let batch := slice rows i (i + conc) in
                      let '(tr', futures) :=
                        submit_batch session_prepare session_execute_async t pk rd mr batch in
                      (tr ++ tr', (total + length batch)%nat))
                   (tr0, total0) starts).1 = tr0) as Hfold.
  { clear Heq. induction starts as [|i starts IH]; intros tr0 total0; simpl; [done|].
    rewrite submit_batch_no_retries by done. rewrite IH. apply app_nil_r. }
  apply (f_equal fst) in Heq. simpl in Heq. rewrite <- Heq. apply Hfold.
Qed.

Lemma delete_pages_no_retries t pk conc rd mr f :
  mr ≤ 0 → 0 < conc →
  ∀ total,
    (delete_pages session_prepare session_execute_async t pk conc rd mr f total).1
    = ([], (total + rows_observed f)%nat).
Proof.
  intros Hmr Hconc. unfold rows_observed.
  induction f as [msg|rows|rows next IH]; intros total; cbn [delete_pages].
  - simpl. f_equal. lia.
  - destruct rows as [|row rows']; [simpl; f_equal; lia|].
    rewrite delete_page_no_retries by done. simpl. f_equal. lia.
  - destruct rows as [|row rows']; [simpl; f_equal; lia|].
    rewrite delete_page_no_retries by done.
    specialize (IH (total + length (row :: rows'))%nat).
    destruct (delete_pages _ _ _ _ _ _ _ next _) as [[tr' total'] r].
    simpl in *. injection IH as -> ->. f_equal. lia.
Qed.

End DeleteAllRowsOutcome.

(** X8.  How the single-table delete ends.  An unknown table and a table
    without primary key raise [ValueError] before the scan, with no
    summary.  For a known table and a positive concurrency the call raises
    exactly when the scan reaches a failing fetch, with the exception of
    that fetch, and returns otherwise; either way the summary counts the
    rows observed.  A zero concurrency raises [ValueError] at the first
    non-empty page with a summary of 0; a negative concurrency counts and
    deletes nothing. *)
Theorem delete_all_rows_outcome {R : Type}
    (keyspace_tables : gmap string Delete.table_metadata)
    (session_prepare : string → list string → option string)
    (session_select : string → @Delete.fetch R)
    (session_execute_async : R → Z → option string)
    (table_name : string) (page_size concurrency : Z) (retry_delay : Q) (max_retries : Z) :
  let call := Delete.delete_all_rows keyspace_tables session_prepare session_select
                session_execute_async table_name page_size concurrency retry_delay
                max_retries in
  let scan_outcome := match Delete.scan_error (session_select table_name) with
                      | Some msg => Raised (DriverError msg)
                      | None => Returned tt
                      end in
  (keyspace_tables !! table_name = None → is_raised call.1 = true ∧ call.2 = None) ∧
  (∀ md, keyspace_tables !! table_name = Some md →
     (Delete.partition_key md ++ Delete.clustering_key md = [] →
      is_raised call.1 = true ∧ call.2 = None) ∧
     (Delete.partition_key md ++ Delete.clustering_key md ≠ [] →
      (0 < concurrency →
       call = (scan_outcome, Some (Delete.rows_observed (session_select table_name)))) ∧
      (concurrency < 0 → call = (scan_outcome, Some 0%nat)) ∧
      (concurrency = 0 → Delete.pages_scanned (session_select table_name) ≠ [] →
       call = (Raised (ValueError "range() arg 3 must not be zero"), Some 0%nat)))).
Proof.
  intros call scan_outcome. subst call. unfold Delete.delete_all_rows. split.
  - by intros ->.
  - intros md ->. split; [by intros ->|]. intros Hpk.
    destruct (Delete.partition_key md ++ Delete.clustering_key md) as [|c pk]; [done|].
    split_and!.
    + intros Hconc.
      pose proof (delete_pages_outcome session_prepare session_execute_async table_name
                    (c :: pk) concurrency retry_delay max_retries
                    (session_select table_name) Hconc 0%nat) as Hout.
      pose proof (delete_pages_total session_prepare session_execute_async table_name
                    (c :: pk) concurrency retry_delay max_retries
                    (session_select table_name) Hconc 0%nat) as Htot.
      destruct (Delete.delete_pages _ _ _ _ _ _ _ _ _) as [[tr total] r].
      simpl in *. by subst.
    + intros Hconc. by rewrite delete_pages_neg.
    + intros -> Hpages. destruct (session_select table_name) as [msg|rows|rows next]; simpl.
      * done.
      * by destruct rows.
      * by destruct rows.
Qed.

Lemma delete_all_rows_outcome_witness :
  Delete.delete_all_rows (R:=nat)
    {[ "events"%string := Delete.TableMetadata ["id"%string] [] ]}
    (λ _ _, None)
    (λ _, Delete.MorePages [1; 2]%nat (Delete.FetchRaises "read timeout"))
    (λ _ _, None) "events" 1000 20 (1 # 2) 3
  = (Raised (DriverError "read timeout"), Some 2%nat).
Proof.
  destruct (delete_all_rows_outcome (R:=nat)
              {[ "events"%string := Delete.TableMetadata ["id"%string] [] ]}
              (λ _ _, None)
              (λ _, Delete.MorePages [1; 2]%nat (Delete.FetchRaises "read timeout"))
              (λ _ _, None) "events" 1000 20 (1 # 2) 3) as (_ & H).
  destruct (H (Delete.TableMetadata ["id"%string] []) ltac:(by vm_compute)) as (_ & H').
  destruct (H' ltac:(discriminate)) as (H'' & _). exact (H'' ltac:(lia)).
Defined.

(** X9.  With [max_retries <= 0] the single-table delete submits no
    delete at all (its trace is empty: no delete, no sleep), and still
    counts every row observed as deleted. *)
Theorem delete_all_rows_without_retries_deletes_nothing {R : Type}
    (session_prepare : string → list string → option string)
    (session_execute_async : R → Z → option string)
    (table_name : string) (pk_columns : list string) (concurrency : Z)
    (retry_delay : Q) (max_retries : Z) (f : @Delete.fetch R) :
  max_retries ≤ 0 → 0 < concurrency →
  (Delete.delete_pages session_prepare session_execute_async table_name pk_columns
     concurrency retry_delay max_retries f 0).1
  = ([], Delete.rows_observed f).
Proof.
  intros Hmr Hconc.
  by rewrite (delete_pages_no_retries session_prepare session_execute_async table_name
                pk_columns concurrency retry_delay max_retries f Hmr Hconc 0%nat).
Qed.

Lemma delete_all_rows_without_retries_deletes_nothing_witness :
  (Delete.delete_pages (R:=nat) (λ _ _, None) (λ _ _, None) "events" ["id"%string] 20
     (1 # 2) 0 (Delete.LastPage [1; 2; 3]%nat) 0).1 = ([], 3%nat).
Proof.
  exact (delete_all_rows_without_retries_deletes_nothing (R:=nat) (λ _ _, None) (λ _ _, None)
           "events" ["id"%string] 20 (1 # 2) 0 (Delete.LastPage [1; 2; 3]%nat)
           ltac:(lia) ltac:(lia)).
Defined.

(** ** When the multi-table delete raises *)

Section DeleteMultipleOutcome.

Import Delete.

Context {R : Type}.
Context (keyspace : string) (keyspace_tables : gmap string table_metadata).
Context (session_prepare : string → list string → option string).
Context (session_select : string → @fetch R).
Context (session_delete : @grouped_delete R → option string).
Context (table_picks : list nat) (batch_picks : string → Z → list nat).


Lemma as_completed_singleton {A} (picks : list nat) (x : A) : as_completed picks [x] = [x].
Proof.
  destruct picks as [|p picks]; [done|]. cbn [as_completed length].
  rewrite Nat.mod_1_r. simpl. by rewrite as_completed_nil.
Qed.

End DeleteMultipleOutcome.


(** X11.  An unknown table: [clear_table] (like [clear_tables]) logs the
    warning and returns a count of 0 without raising, where
    [delete_all_rows] raises [ValueError]. *)
Theorem clear_table_of_unknown_table {R : Type}
    (keyspace : string) (keyspace_tables : gmap string Delete.table_metadata)
    (session_prepare : string → list string → option string)
    (session_select : string → @Delete.fetch R)
    (session_delete : @Delete.grouped_delete R → option string)
    (session_execute_async : R → Z → option string)
    (table_picks : list nat) (batch_picks : string → Z → list nat)
    (clear_execution_time : Q) (kwargs : Delete.delete_kwargs)
    (table_name : string) (page_size concurrency : Z) (retry_delay : Q) (max_retries : Z) :
  keyspace_tables !! table_name = None →
  0 < default 8 (Delete.kw_concurrency kwargs) →
  Delete.clear_table keyspace keyspace_tables session_prepare session_select session_delete
    table_picks batch_picks clear_execution_time table_name kwargs
  = ([Delete.WarnTableNotFound table_name keyspace], Returned (clear_execution_time, 0%nat)) ∧
  is_raised (Delete.delete_all_rows keyspace_tables session_prepare session_select
               session_execute_async table_name page_size concurrency retry_delay
               max_retries).1 = true.
Proof.
  intros Hnone Hconc. split.
  - unfold Delete.clear_table, Delete.clear_tables, Delete.delete_all_rows_batch_multiple.
    cbn [Delete.prepare_tables]. rewrite Hnone. cbn [length].
    unfold ThreadPoolExecutor. rewrite decide_False by lia.
    rewrite as_completed_singleton. simpl.
    unfold Delete.process_table. rewrite lookup_empty. simpl.
    by rewrite lookup_insert_eq.
  - unfold Delete.delete_all_rows. by rewrite Hnone.
Qed.

Lemma clear_table_of_unknown_table_witness :
  Delete.clear_table (R:=nat) "data_river" ∅ (λ _ _, None) (λ _, Delete.LastPage [])
    (λ _, None) [] (λ _ _, []) (3 # 2) "ghost"
    (Delete.DeleteKwargs None None None None None)
  = ([Delete.WarnTableNotFound "ghost" "data_river"], Returned (3 # 2, 0%nat)).
Proof.
  destruct (clear_table_of_unknown_table (R:=nat) "data_river" ∅ (λ _ _, None)
              (λ _, Delete.LastPage []) (λ _, None) (λ _ _, None) [] (λ _ _, []) (3 # 2)
              (Delete.DeleteKwargs None None None None None) "ghost" 1000 20 (1 # 2) 3)
    as [H _].
  - done.
  - simpl. lia.
  - exact H.
Defined.

(** ** The report of [clear_tables] *)

Section ClearTables.

Import Delete.

Context {R : Type}.
Context (keyspace : string) (keyspace_tables : gmap string table_metadata).
Context (session_prepare : string → list string → option string).
Context (session_select : string → @fetch R).
Context (session_delete : @grouped_delete R → option string).
Context (table_picks : list nat) (batch_picks : string → Z → list nat).

(** When the call is in order, the mapping holds the count of every name
    given and nothing else: the count of its scan for a known table, 0
    for a missing one. *)
Lemma delete_multiple_results (table_names : list string) ps bs conc rd mr :
  table_names ≠ [] → 0 < conc →
  (∀ t md, t ∈ table_names → keyspace_tables !! t = Some md →
           session_prepare t (partition_key md ++ clustering_key md) = None) →
  ∃ results,
    delete_all_rows_batch_multiple keyspace keyspace_tables session_prepare session_select
      session_delete table_picks batch_picks table_names ps bs conc rd mr
    = ((λ t, WarnTableNotFound t keyspace)
         <$> filter (λ t, keyspace_tables !! t = None) table_names,
       Returned results) ∧
    ∀ t, results !! t
         = if decide (t ∈ table_names)
           then Some (match keyspace_tables !! t with
                      | Some _ =>
                          (process_pages session_delete batch_picks t bs conc rd mr 1
                             (session_select t) 0).2
                      | None => 0%nat
                      end)
           else None.
Proof.
  intros Hne Hconc Hprep.
  destruct (prepare_tables_ok keyspace keyspace_tables session_prepare table_names Hprep ∅)
    as (tm & Hpt & Hmd).
  unfold delete_all_rows_batch_multiple. rewrite Hpt.
  assert (0 < Z.of_nat (length table_names)) by (destruct table_names; [done|simpl; lia]).
  unfold ThreadPoolExecutor. rewrite decide_False by lia.
  eexists. split; [done|]. intros t. rewrite results_lookup.
  assert (t ∈ as_completed table_picks table_names ↔ t ∈ table_names) as Hperm
    by by rewrite as_completed_perm.
  destruct (decide (t ∈ table_names)) as [Hin|Hnin].
  - rewrite decide_True by by apply Hperm. f_equal.
    unfold process_table. rewrite Hmd.
    destruct (keyspace_tables !! t) as [md|] eqn:Hkt.
    + rewrite decide_True by (split; [done|by eexists]).
      by destruct (process_pages _ _ _ _ _ _ _ _ _ _).
    + rewrite decide_False; [done|]. by intros [_ [? ?]].
  - rewrite decide_False; [apply lookup_empty|]. by intros ?%Hperm.
Qed.

Lemma results_size (table_names : list string) (count : string → nat)
    (results : gmap string nat) :
  (∀ t, results !! t = if decide (t ∈ table_names) then Some (count t) else None) →
  size results = length (remove_dups table_names) ∧
  map_fold (λ _ deleted_count acc, deleted_count + acc)%nat 0%nat results
  = sum_list_with count (remove_dups table_names).
Proof.
  intros Hlookup.
  assert (map_to_list results ≡ₚ (λ t, (t, count t)) <$> remove_dups table_names) as Hperm.
  { apply NoDup_Permutation.
    - apply NoDup_map_to_list.
    - apply NoDup_fmap_2; [by intros t1 t2 [= ->]|apply NoDup_remove_dups].
    - intros [t c]. rewrite elem_of_map_to_list, Hlookup, list_elem_of_fmap. split.
      + destruct (decide (t ∈ table_names)) as [Hin|]; [|done]. intros [= <-].
        exists t. split; [done|]. by apply elem_of_remove_dups.
      + intros (t' & Heq & Hin). rewrite elem_of_remove_dups in Hin.
        injection Heq as -> ->. by rewrite decide_True. }
  split.
  - rewrite <- length_map_to_list, Hperm. by rewrite length_fmap.
  - rewrite map_fold_foldr.
    assert (∀ l : list (string * nat),
              foldr (uncurry (λ (_ : string) (c acc : nat), (c + acc)%nat)) 0%nat l
              = sum_list_with snd l) as Hsum.
    { induction l as [|[t c] l IH]; simpl; [done|]. by rewrite IH. }
    rewrite Hsum, Hperm, sum_list_with_fmap. done.
Qed.

End ClearTables.

(** X12.  The report of [clear_tables], when the call is in order (a
    non-empty list of names, a positive concurrency, no failing
    [prepare]): [tables_processed] is the number of distinct names given,
    the tables missing from the keyspace included; every name has its
    entry, the count of its scan for a known table and 0 for a missing
    one; [total_deleted] is the sum of the entries; a warning is logged for
    each missing name.  The defaults are batch size 150, concurrency 8 and
    3 attempts. *)
Theorem clear_tables_report {R : Type}
    (keyspace : string) (keyspace_tables : gmap string Delete.table_metadata)
    (session_prepare : string → list string → option string)
    (session_select : string → @Delete.fetch R)
    (session_delete : @Delete.grouped_delete R → option string)
    (table_picks : list nat) (batch_picks : string → Z → list nat)
    (clear_execution_time : Q)
    (table_names : list string) (kwargs : Delete.delete_kwargs) :
  let batch_size := default 150 (Delete.kw_batch_size kwargs) in
  let concurrency := default 8 (Delete.kw_concurrency kwargs) in
  let max_retries := default 3 (Delete.kw_max_retries kwargs) in
  let retry_delay := default (1 # 2)%Q (Delete.kw_retry_delay kwargs) in
  let count := λ t,
    match keyspace_tables !! t with
    | Some _ =>
        (Delete.process_pages session_delete batch_picks t batch_size concurrency
           retry_delay max_retries 1 (session_select t) 0).2
    | None => 0%nat
    end in
  table_names ≠ [] → 0 < concurrency →
  (∀ t md, t ∈ table_names → keyspace_tables !! t = Some md →
           session_prepare t (Delete.partition_key md ++ Delete.clustering_key md) = None) →
  ∃ results,
    Delete.clear_tables keyspace keyspace_tables session_prepare session_select
      session_delete table_picks batch_picks clear_execution_time table_names kwargs
    = ((λ t, Delete.WarnTableNotFound t keyspace)
         <$> filter (λ t, keyspace_tables !! t = None) table_names,
       Returned (Delete.ClearReport clear_execution_time
                   (sum_list_with count (remove_dups table_names))
                   (length (remove_dups table_names)) results)) ∧
    ∀ t, results !! t = if decide (t ∈ table_names) then Some (count t) else None.
Proof.
  intros batch_size concurrency max_retries retry_delay count Hne Hconc Hprep.
  destruct (delete_multiple_results keyspace keyspace_tables session_prepare session_select
              session_delete table_picks batch_picks table_names
              (default 1500 (Delete.kw_page_size kwargs)) batch_size concurrency
              retry_delay max_retries Hne Hconc Hprep) as (results & Hcall & Hlookup).
  exists results. split; [|exact Hlookup].
  unfold Delete.clear_tables. fold batch_size concurrency max_retries retry_delay.
  rewrite Hcall.
  destruct (results_size table_names count results Hlookup) as [-> ->]. done.
Qed.

Lemma clear_tables_report_witness :
  ∃ results,
    Delete.clear_tables (R:=nat) "data_river"
      {[ "events"%string := Delete.TableMetadata ["id"%string] [] ]}
      (λ _ _, None) (λ _, Delete.LastPage [7%nat]) (λ _, None) [] (λ _ _, []) (3 # 2)
      ["ghost"; "events"; "ghost"]%string (Delete.DeleteKwargs None None None None None)
    = ([Delete.WarnTableNotFound "ghost" "data_river";
        Delete.WarnTableNotFound "ghost" "data_river"],
       Returned (Delete.ClearReport (3 # 2) 1 2 results)).
Proof.
  destruct (clear_tables_report (R:=nat) "data_river"
              {[ "events"%string := Delete.TableMetadata ["id"%string] [] ]}
              (λ _ _, None) (λ _, Delete.LastPage [7%nat]) (λ _, None) [] (λ _ _, []) (3 # 2)
              ["ghost"; "events"; "ghost"]%string (Delete.DeleteKwargs None None None None None))
    as (results & Hcall & _).
  - discriminate.
  - reflexivity.
  - done.
  - exists results. exact Hcall.
Defined.

(** ** Connecting *)

Section Connecting.

Import Connection.

Context (connect : Z → option string).

Lemma connect_loop_success (n : Z) :
  ∀ (j i fuel : nat),
    Z.of_nat (i + j) < n → (j < fuel)%nat →
    (∀ a, Z.of_nat i ≤ a < Z.of_nat (i + j) → is_Some (connect a)) →
    connect (Z.of_nat (i + j)) = None →
    connect_loop connect n fuel (Z.of_nat i)
    = (Z.of_nat <$> seq i (S j), Connected (Z.of_nat (i + j))).
Proof.
  induction j as [|j IH]; intros i fuel Hlt Hfuel Hfail Hok;
    (destruct fuel as [|fuel]; [lia|]); cbn [connect_loop].
  - replace (i + 0)%nat with i in * by lia.
    rewrite decide_True by lia. by rewrite Hok.
  - rewrite decide_True by lia.
    destruct (Hfail (Z.of_nat i) ltac:(lia)) as [e ->].
    rewrite decide_False by lia.
    replace (Z.of_nat i + 1) with (Z.of_nat (S i)) by lia.
    rewrite (IH (S i) fuel); [| lia | lia | intros a Ha; apply Hfail; lia
                              | by replace (S i + j)%nat with (i + S j)%nat by lia].
    rewrite <- (cons_seq (S j) i), fmap_cons.
    by replace (S i + j)%nat with (i + S j)%nat by lia.
Qed.

Lemma connect_loop_fail (n : Z) :
  ∀ (m i fuel : nat),
    Z.of_nat (i + m) = n → (1 ≤ m ≤ fuel)%nat →
    (∀ a, Z.of_nat i ≤ a < n → is_Some (connect a)) →
    ∃ e, connect (n - 1) = Some e ∧
         connect_loop connect n fuel (Z.of_nat i)
         = (Z.of_nat <$> seq i m, ConnectionError e).
Proof.
  induction m as [|m IH]; intros i fuel Hn Hm Hfail; [lia|].
  destruct fuel as [|fuel]; [lia|]. cbn [connect_loop].
  rewrite decide_True by lia.
  destruct (Hfail (Z.of_nat i) ltac:(lia)) as [e He]. rewrite He.
  destruct (decide (Z.of_nat i + 1 >= n)) as [Hlast|Hmore].
  - assert (m = 0%nat) as -> by lia. exists e. split; [|done].
    by replace (n - 1) with (Z.of_nat i) by lia.
  - replace (Z.of_nat i + 1) with (Z.of_nat (S i)) by lia.
    destruct (IH (S i) fuel) as (e' & He' & ->); [lia|lia|intros a Ha; apply Hfail; lia|].
    exists e'. split; [done|]. by rewrite <- (cons_seq m i), fmap_cons.
Qed.

Lemma connect_loop_connects (n : Z) :
  ∀ (fuel i : nat),
    Z.of_nat i < n → n ≤ Z.of_nat (i + fuel) →
    (connect_loop connect n fuel (Z.of_nat i)).2 ≠ NotConnected.
Proof.
  induction fuel as [|fuel IH]; intros i Hi Hfuel; [lia|]. cbn [connect_loop].
  rewrite decide_True by lia. destruct (connect (Z.of_nat i)); [|done].
  destruct (decide (Z.of_nat i + 1 >= n)); [done|].
  replace (Z.of_nat i + 1) with (Z.of_nat (S i)) by lia.
  specialize (IH (S i) ltac:(lia) ltac:(lia)).
  by destruct (connect_loop connect n fuel (Z.of_nat (S i))).
Qed.

End Connecting.

(** X13.  Entering the context manager.  With [connection_attempts <= 0]
    no connection is tried and the object is returned without a session.
    Otherwise the attempts follow one another without a pause: when the
    first [k] fail and the next one succeeds, with [k < connection_attempts],
    exactly [k + 1] connections are tried and the object is returned
    connected; when all [connection_attempts] fail, exactly that many
    connections are tried and [ConnectionError] is raised with the text of
    the last failure.  The object is returned without a session only for
    [connection_attempts <= 0]. *)
Theorem enter_outcome (connect : Z → option string) (connection_attempts : Z) :
  (connection_attempts ≤ 0 →
   Connection.enter connect connection_attempts = ([], Connection.NotConnected)) ∧
  (∀ k : nat,
     Z.of_nat k < connection_attempts →
     (∀ a, 0 ≤ a < Z.of_nat k → is_Some (connect a)) →
     connect (Z.of_nat k) = None →
     Connection.enter connect connection_attempts
     = (range (Z.of_nat k + 1), Connection.Connected (Z.of_nat k))) ∧
  (1 ≤ connection_attempts →
   (∀ a, 0 ≤ a < connection_attempts → is_Some (connect a)) →
   ∃ e, connect (connection_attempts - 1) = Some e ∧
        Connection.enter connect connection_attempts
        = (range connection_attempts, Connection.ConnectionError e)) ∧
  ((Connection.enter connect connection_attempts).2 = Connection.NotConnected ↔
   connection_attempts ≤ 0).
Proof.
  unfold Connection.enter. split_and!.
  - intros Hn. replace (Z.to_nat connection_attempts) with 0%nat by lia. done.
  - intros k Hk Hfail Hok.
    pose proof (connect_loop_success connect connection_attempts k 0
                  (Z.to_nat connection_attempts)) as Hloop.
    change (Z.of_nat 0) with 0 in Hloop.
    rewrite Hloop; [|lia|lia|intros a Ha; apply Hfail; lia|done].
    unfold range. do 3 f_equal. lia.
  - intros Hn Hfail.
    pose proof (connect_loop_fail connect connection_attempts (Z.to_nat connection_attempts) 0
                  (Z.to_nat connection_attempts)) as Hloop.
    change (Z.of_nat 0) with 0 in Hloop.
    destruct Hloop as (e & He & Hloop); [lia|lia|intros a Ha; apply Hfail; lia|].
    exists e. split; [done|]. exact Hloop.
  - split.
    + intros Hnot. destruct (decide (connection_attempts ≤ 0)) as [|Hpos]; [done|exfalso].
      pose proof (connect_loop_connects connect connection_attempts
                    (Z.to_nat connection_attempts) 0) as Hloop.
      change (Z.of_nat 0) with 0 in Hloop. apply Hloop; [lia|lia|done].
    + intros Hn. replace (Z.to_nat connection_attempts) with 0%nat by lia. done.
Qed.

Lemma enter_outcome_witness :
  let connect : Z → option string :=
    λ attempt, if decide (attempt < 2) then Some "connection refused"%string else None in
  Connection.enter connect 5 = ([0; 1; 2], Connection.Connected 2) ∧
  ∃ e, Connection.enter connect 2 = ([0; 1], Connection.ConnectionError e).
Proof.
  intros connect. split.
  - destruct (enter_outcome connect 5) as (_ & H & _).
    apply (H 2%nat); [lia| |done].
    intros a Ha. unfold connect. rewrite decide_True by lia. by eexists.
  - destruct (enter_outcome connect 2) as (_ & _ & H & _).
    destruct H as (e & _ & He); [lia| |by exists e].
    intros a Ha. unfold connect. rewrite decide_True by lia. by eexists.
Defined.
